(** * disk_utility: the directory-size cache engine of the Electron main process

    A shallow embedding of the [du] cache of [main.js] (the streaming scan
    runner [executeDuWithProgress], the cache store [duCache] with
    [isDuCacheValid] / [findCachedRoot], the invalidator [invalidateDuCache],
    the materializer [getDirectoryContents]) and of the [delete-file] IPC
    handler, followed by the properties the specification states about them.

    Around that core the development also embeds the rest of the main
    process that works on paths and listings ([calculateDirectorySize],
    the recursive [getDirectoryTree], [getFileList] on the output of
    [ls -la], and the earlier [getDirectoryContents] that asked [du -s] for
    every directory), and the part of the renderer [DiskUtilityApp] that
    keeps state: its cache, [loadDirectory], the way up
    ([getParentPath], [goUpDirectory]), [truncatePath], and the deletion
    from the context menu down to the handlers of the main process.

    Conventions of the embedding:
    - a JavaScript string is a [string]; only code units below 256 occur.
      What the [du] child writes is bytes: the chunks of its output are
      [Buffer]s ([Buffer.t], [Wire]), each one decoded by its own
      [toString()], and the scan runner works on the strings so obtained;
    - a JavaScript [Number] holding an integer is a [Z], [NaN] is explicit
      ([JsNum.t]); the integers involved are taken inside the range a double
      represents exactly, so [+] and [*] are the exact operations;
    - a [Map] is an insertion-ordered association list ([JsMap]);
    - [Date.now()] readings, the file system and the [du] child process are
      inputs of the functions that consult them, and so is the output of
      the commands run through [exec];
    - the recursion of [getDirectoryTree] is cut at a depth given as an
      argument, and shown to return on every file system of finite depth;
    - the renderer reaches the main process through [window.electronAPI],
      an interface ([ElectronAPI.t]) that [MainProcess.api] implements
      with the handlers; the page itself (DOM, dialogs) is left aside. *)

From Stdlib Require Import ZArith List String Ascii Bool Arith Lia.
From Stdlib Require Decimal DecimalString DecimalNat DecimalZ.
From Stdlib.Strings Require Byte.
Import ListNotations.
Local Open Scope list_scope.
Local Open Scope string_scope.

Set Implicit Arguments.

(* ================================================================== *)
(** ** Definitions *)
(* ================================================================== *)

(** *** The [String.prototype] methods the program calls *)

Module JsString.

(** [s.startsWith(p)] *)
Fixpoint startsWith (s p : string) {struct p} : bool :=
  match p with
  | EmptyString => true
  | String b p' =>
      match s with
      | EmptyString => false
      | String a s' => Ascii.eqb a b && startsWith s' p'
      end
  end.

(** [s.includes(needle)] *)
Fixpoint includes (s needle : string) : bool :=
  startsWith s needle ||
  match s with
  | EmptyString => false
  | String _ s' => includes s' needle
  end.

(** White space and line terminators as [trim] and [parseInt] see them
    (the code units below 256: TAB, LF, VT, FF, CR, SP, NBSP). *)
Definition isWhiteSpace (c : ascii) : bool :=
  let n := nat_of_ascii c in
  (((9 <=? n) && (n <=? 13)) || (n =? 32) || (n =? 160))%nat.

Fixpoint trimStart (s : string) : string :=
  match s with
  | EmptyString => EmptyString
  | String c s' => if isWhiteSpace c then trimStart s' else s
  end.

Fixpoint trimEnd (s : string) : string :=
  match s with
  | EmptyString => EmptyString
  | String c s' =>
      let t := trimEnd s' in
      if isWhiteSpace c && (t =? "") then "" else String c t
  end.

(** [s.trim()] *)
Definition trim (s : string) : string := trimEnd (trimStart s).

(** [s.split(c)] for a one-character separator; never the empty list. *)
Fixpoint split (c : ascii) (s : string) : list string :=
  match s with
  | EmptyString => [""]
  | String a s' =>
      if Ascii.eqb a c then "" :: split c s'
      else match split c s' with
           | x :: xs => String a x :: xs
           | [] => [String a ""]
           end
  end.

(** [s.indexOf(c)]; [None] stands for [-1]. *)
Fixpoint indexOf (c : ascii) (s : string) : option nat :=
  match s with
  | EmptyString => None
  | String a s' =>
      if Ascii.eqb a c then Some 0
      else option_map S (indexOf c s')
  end.

(** [s.slice(0, n)] *)
Fixpoint sliceTo (n : nat) (s : string) : string :=
  match n, s with
  | S n', String a s' => String a (sliceTo n' s')
  | _, _ => ""
  end.

(** [s.slice(n)] *)
Fixpoint sliceFrom (n : nat) (s : string) : string :=
  match n, s with
  | S n', String _ s' => sliceFrom n' s'
  | _, _ => s
  end.

(** [s.replace(/\/+$/, '')] *)
Fixpoint stripTrailingSlashes (s : string) : string :=
  match s with
  | EmptyString => EmptyString
  | String c s' =>
      let t := stripTrailingSlashes s' in
      if Ascii.eqb c "/" && (t =? "") then "" else String c t
  end.

(** [s || d] on strings: the empty string is falsy. *)
Definition orElse (s d : string) : string := if s =? "" then d else s.

End JsString.

(** *** Numbers *)

Module JsNum.

Inductive t : Type :=
| NaN : t
| Int : Z -> t.

(** [x * k] for an integer constant [k] *)
Definition mul (x : t) (k : Z) : t :=
  match x with
  | NaN => NaN
  | Int z => Int (z * k)
  end.

Definition digit10 (c : ascii) : option Z :=
  let n := nat_of_ascii c in
  if ((48 <=? n) && (n <=? 57))%nat then Some (Z.of_nat (n - 48)) else None.

Definition digit16 (c : ascii) : option Z :=
  let n := nat_of_ascii c in
  if ((48 <=? n) && (n <=? 57))%nat then Some (Z.of_nat (n - 48))
  else if ((97 <=? n) && (n <=? 102))%nat then Some (Z.of_nat (n - 87))
  else if ((65 <=? n) && (n <=? 70))%nat then Some (Z.of_nat (n - 55))
  else None.

(** The longest prefix of radix digits, read most significant first;
    [None] when there is no digit at all. *)
Fixpoint readDigits (dv : ascii -> option Z) (radix : Z) (s : string)
         (acc : Z) (seen : bool) : option Z :=
  match s with
  | EmptyString => if seen then Some acc else None
  | String c s' =>
      match dv c with
      | Some d => readDigits dv radix s' (acc * radix + d) true
      | None => if seen then Some acc else None
      end
  end.

(** [parseInt(s)] without a radix argument: leading white space skipped,
    an optional sign, an optional [0x] prefix, then the digits. *)
Definition parseInt (s : string) : t :=
  let s1 := JsString.trimStart s in
  let '(sign, s2) :=
    match s1 with
    | String "-" r => ((-1)%Z, r)
    | String "+" r => (1%Z, r)
    | _ => (1%Z, s1)
    end in
  let '(dv, radix, s3) :=
    match s2 with
    | String "0" (String "x" r) => (digit16, 16%Z, r)
    | String "0" (String "X" r) => (digit16, 16%Z, r)
    | _ => (digit10, 10%Z, s2)
    end in
  match readDigits dv radix s3 0%Z false with
  | Some n => Int (sign * n)
  | None => NaN
  end.

(** [x || 0] where [x] is a number or [undefined] ([None]). *)
Definition orZero (x : option t) : Z :=
  match x with
  | Some (Int z) => z
  | Some NaN => 0%Z
  | None => 0%Z
  end.

(** The decimal rendering of an integer inside a template literal. *)
Definition toString (z : Z) : string :=
  DecimalString.NilEmpty.string_of_int (Z.to_int z).

End JsNum.

(** *** Node's [path] module (POSIX flavour), the three functions used *)

Module NodePath.

Definition isAbsolute (p : string) : bool :=
  match p with
  | String "/" _ => true
  | _ => false
  end.

(** [normalizeString] on the components of a path: empty components and
    [.] vanish, [..] removes the component before it; above the top it is
    kept only when [allowAboveRoot].  [stack] holds the result so far,
    last component first. *)
Fixpoint normalizeSegments (allowAboveRoot : bool) (segs stack : list string)
  : list string :=
  match segs with
  | [] => List.rev stack
  | s :: rest =>
      if (s =? "") || (s =? ".") then
        normalizeSegments allowAboveRoot rest stack
      else if s =? ".." then
        match stack with
        | top :: below =>
            if top =? ".." then
              normalizeSegments allowAboveRoot rest
                (if allowAboveRoot then ".." :: stack else stack)
            else normalizeSegments allowAboveRoot rest below
        | [] =>
            normalizeSegments allowAboveRoot rest
              (if allowAboveRoot then [".."] else [])
        end
      else normalizeSegments allowAboveRoot rest (s :: stack)
  end.

Definition normalizeString (p : string) (allowAboveRoot : bool) : string :=
  String.concat "/" (normalizeSegments allowAboveRoot (JsString.split "/" p) []).

(** [path.resolve(p)] with one argument; [cwd] is [process.cwd()]. *)
Definition resolve (cwd p : string) : string :=
  let '(resolvedPath, resolvedAbsolute) :=
    if p =? "" then (cwd ++ "/", isAbsolute cwd)
    else if isAbsolute p then (p ++ "/", true)
    else if cwd =? "" then (p ++ "/", false)
    else (cwd ++ "/" ++ p ++ "/", isAbsolute cwd) in
  let normalized := normalizeString resolvedPath (negb resolvedAbsolute) in
  if resolvedAbsolute then "/" ++ normalized
  else JsString.orElse normalized ".".

Fixpoint endsWithSlash (p : string) : bool :=
  match p with
  | EmptyString => false
  | String c EmptyString => Ascii.eqb c "/"
  | String _ p' => endsWithSlash p'
  end.

(** [path.normalize(p)] *)
Definition normalize (p : string) : string :=
  if p =? "" then "."
  else
    let abs := isAbsolute p in
    let trailing := endsWithSlash p in
    let q := normalizeString p (negb abs) in
    if q =? "" then
      (if abs then "/" else if trailing then "./" else ".")
    else
      let q' := if trailing then q ++ "/" else q in
      if abs then "/" ++ q' else q'.

(** [path.join(a, b)] *)
Definition join (a b : string) : string :=
  if a =? "" then (if b =? "" then "." else normalize b)
  else if b =? "" then normalize a
  else normalize (a ++ "/" ++ b).

(** [path.basename(p)]: the last non-empty component. *)
Definition basename (p : string) : string :=
  last (filter (fun s => negb (s =? "")) (JsString.split "/" p)) "".

End NodePath.

(** *** [Map] with string keys: insertion-ordered, one entry per key *)

Module JsMap.
Section Ops.
Variable V : Type.

Definition t : Type := list (string * V).

Definition empty : t := [].

Fixpoint get (m : t) (k : string) : option V :=
  match m with
  | [] => None
  | (k', v) :: r => if k' =? k then Some v else get r k
  end.

Definition has (m : t) (k : string) : bool :=
  match get m k with
  | Some _ => true
  | None => false
  end.

(** [m.set(k, v)]: an existing key keeps its place in the order. *)
Fixpoint set (m : t) (k : string) (v : V) : t :=
  match m with
  | [] => [(k, v)]
  | (k', v') :: r =>
      if k' =? k then (k, v) :: r else (k', v') :: set r k v
  end.

Definition delete (m : t) (k : string) : t :=
  filter (fun e => negb (fst e =? k)) m.

Definition keys (m : t) : list string := map fst m.

Definition size (m : t) : nat := List.length m.

(** The representation invariant of a [Map]. *)
Definition wf (m : t) : Prop := NoDup (keys m).
End Ops.

Arguments empty {V}.
End JsMap.

(** *** The cache store [duCache] *)

Definition SizeMap : Type := JsMap.t JsNum.t.

Record CacheData : Type := { sizeMap : SizeMap; timestamp : Z }.

Definition Cache : Type := JsMap.t CacheData.

(** One hour, in milliseconds. *)
Definition CACHE_EXPIRY : Z := 3600000.

(** [path.sep] *)
Definition sep : string := "/".

Definition normalizePath (cwd filePath : string) : string :=
  let resolved := NodePath.resolve cwd filePath in
  JsString.orElse (JsString.stripTrailingSlashes resolved) "/".

(** [isDuCacheValid(rootPath)] at the instant [now]: the verdict and the
    cache it leaves behind (an expired entry is deleted). *)
Definition isDuCacheValid (duCache : Cache) (now : Z) (rootPath : string)
  : bool * Cache :=
  if negb (JsMap.has duCache rootPath) then (false, duCache)
  else
    match JsMap.get duCache rootPath with
    | None => (false, duCache)
    | Some cached =>
        let isValid := (now - timestamp cached <? CACHE_EXPIRY)%Z in
        (isValid, if isValid then duCache else JsMap.delete duCache rootPath)
    end.

Definition clearDuCache (duCache : Cache) : Cache := JsMap.empty.

(** The condition under which [invalidateDuCache] marks a root. *)
Definition invalidates (normalizedTarget normalizedRoot : string) : bool :=
  (normalizedTarget =? normalizedRoot)
  || JsString.startsWith normalizedTarget (normalizedRoot ++ sep)
  || JsString.startsWith normalizedRoot (normalizedTarget ++ sep).

Definition invalidateDuCache (cwd : string) (duCache : Cache)
           (targetPath : string) : Cache :=
  let normalizedTarget := normalizePath cwd targetPath in
  let toDelete :=
    fold_left
      (fun (toDelete : list string) (entry : string * CacheData) =>
         let cachedRoot := fst entry in
         let normalizedRoot := normalizePath cwd cachedRoot in
         if invalidates normalizedTarget normalizedRoot
         then (toDelete ++ [cachedRoot])%list
         else toDelete)
      duCache [] in
  fold_left (fun cache root => JsMap.delete cache root) toDelete duCache.

(** The condition under which [findCachedRoot] takes a root as a match. *)
Definition covers (normalizedRoot normalizedTarget : string) : bool :=
  (normalizedTarget =? normalizedRoot)
  || JsString.startsWith normalizedTarget (normalizedRoot ++ sep).

(** The loop of [findCachedRoot].  [clock i] is the [Date.now()] reading of
    the iteration that visits the [i]-th entry. *)
Fixpoint findCachedRoot_loop (cwd : string) (clock : nat -> Z)
         (normalizedTarget : string) (entries : Cache) (i : nat)
         (bestMatch : option string) (bestMatchLength : nat) : option string :=
  match entries with
  | [] => bestMatch
  | (cachedRoot, cacheData) :: rest =>
      let now := clock i in
      if (now - timestamp cacheData >=? CACHE_EXPIRY)%Z then
        findCachedRoot_loop cwd clock normalizedTarget rest (S i)
                            bestMatch bestMatchLength
      else
        let normalizedRoot := normalizePath cwd cachedRoot in
        if covers normalizedRoot normalizedTarget
           && (bestMatchLength <? String.length normalizedRoot)%nat
        then findCachedRoot_loop cwd clock normalizedTarget rest (S i)
                                 (Some cachedRoot) (String.length normalizedRoot)
        else findCachedRoot_loop cwd clock normalizedTarget rest (S i)
                                 bestMatch bestMatchLength
  end.

Definition findCachedRoot (cwd : string) (clock : nat -> Z) (duCache : Cache)
           (targetPath : string) : option string :=
  let normalizedTarget := normalizePath cwd targetPath in
  findCachedRoot_loop cwd clock normalizedTarget duCache 0 None 0.

(** *** The streaming scan runner [executeDuWithProgress] *)

Module Scan.

(** What [onProgress] is called with. *)
Record Progress : Type :=
  { processedFiles : nat; progressPath : string; isComplete : bool }.

(** How the promise ends. *)
Inductive Settled : Type :=
| Resolved (m : SizeMap)
| Rejected (message : string).

(** The variables the handlers close over, the promise, the pending
    timer (the instant it is due), whether [kill] was called, and the
    calls made to [onProgress], oldest first. *)
Record State : Type := mkState
  { sizeMap : SizeMap;
    buffer : string;
    lineCount : nat;
    lastProgressTime : Z;
    currentPath : string;
    promise : option Settled;
    timeout : option Z;
    killed : bool;
    progress : list Progress }.

Definition setBuffer (st : State) (b : string) : State :=
  mkState (sizeMap st) b (lineCount st) (lastProgressTime st)
          (currentPath st) (promise st) (timeout st) (killed st) (progress st).

(** [sizeMap.set(filePath, sizeBytes); lineCount++] *)
Definition putEntry (st : State) (filePath : string) (sizeBytes : JsNum.t)
  : State :=
  mkState (JsMap.set (sizeMap st) filePath sizeBytes) (buffer st)
          (S (lineCount st)) (lastProgressTime st)
          (currentPath st) (promise st) (timeout st) (killed st) (progress st).

Definition setCurrentPath (st : State) (p : string) : State :=
  mkState (sizeMap st) (buffer st) (lineCount st) (lastProgressTime st)
          p (promise st) (timeout st) (killed st) (progress st).

Definition setLastProgressTime (st : State) (now : Z) : State :=
  mkState (sizeMap st) (buffer st) (lineCount st) now
          (currentPath st) (promise st) (timeout st) (killed st) (progress st).

Definition emit (st : State) (p : Progress) : State :=
  mkState (sizeMap st) (buffer st) (lineCount st) (lastProgressTime st)
          (currentPath st) (promise st) (timeout st) (killed st)
          (progress st ++ [p])%list.

(** [resolve] and [reject]: only the first call settles the promise. *)
Definition settle (st : State) (r : Settled) : State :=
  match promise st with
  | Some _ => st
  | None =>
      mkState (sizeMap st) (buffer st) (lineCount st) (lastProgressTime st)
              (currentPath st) (Some r) (timeout st) (killed st) (progress st)
  end.

Definition clearTimeout (st : State) : State :=
  mkState (sizeMap st) (buffer st) (lineCount st) (lastProgressTime st)
          (currentPath st) (promise st) None (killed st) (progress st).

Definition kill (st : State) : State :=
  mkState (sizeMap st) (buffer st) (lineCount st) (lastProgressTime st)
          (currentPath st) (promise st) (timeout st) true (progress st).

Definition tab : ascii := "009"%char.
Definition newline : ascii := "010"%char.

Definition TIMEOUT_MS : Z := 600000.

Definition duArgs (rootPath : string) (includeFiles : bool) : list string :=
  if includeFiles then ["-ak"; rootPath] else ["-k"; rootPath].

(** The state right after the handlers are installed at [startedAt]. *)
Definition spawned (rootPath : string) (startedAt : Z) : State :=
  mkState JsMap.empty "" 0 startedAt rootPath None
          (Some (startedAt + TIMEOUT_MS)%Z) false [].

(** The body of the [while] loop of the [data] handler for one line. *)
Definition processLine (st : State) (line : string) : State :=
  if negb (JsString.trim line =? "") then
    match JsString.split tab line with
    | sizeField :: filePath :: _ =>
        let sizeKB := JsNum.parseInt sizeField in
        let sizeBytes := JsNum.mul sizeKB 1024 in
        setCurrentPath (putEntry st filePath sizeBytes) filePath
    | _ => st
    end
  else st.

(** [while ((newlineIndex = buffer.indexOf('\n')) !== -1) ...]: every
    iteration shortens the buffer, so [fuel] = its length is enough. *)
Fixpoint drain (fuel : nat) (st : State) : State :=
  match fuel with
  | O => st
  | S fuel' =>
      match JsString.indexOf newline (buffer st) with
      | None => st
      | Some newlineIndex =>
          let line := JsString.sliceTo newlineIndex (buffer st) in
          let st' :=
            setBuffer st (JsString.sliceFrom (newlineIndex + 1) (buffer st)) in
          drain fuel' (processLine st' line)
      end
  end.

(** [duProcess.stdout.on('data', ...)]; [data] is [data.toString()], the
    text of this one chunk decoded on its own ([Wire.decodedAs]), and
    [now] the [Date.now()] reading of the handler. *)
Definition onStdoutData (onProgress : bool) (st : State) (data : string)
           (now : Z) : State :=
  let st1 := setBuffer st (buffer st ++ data) in
  let st2 := drain (String.length (buffer st1)) st1 in
  if onProgress && (1000 <? now - lastProgressTime st2)%Z then
    setLastProgressTime
      (emit st2 {| processedFiles := lineCount st2;
                   progressPath := currentPath st2;
                   isComplete := false |})
      now
  else st2.

(** The exit code inside the failure message; [None] is [null]. *)
Definition codeToString (code : option Z) : string :=
  match code with
  | Some c => JsNum.toString c
  | None => "null"
  end.

Definition failedMessage (code : option Z) : string :=
  "du command failed with code " ++ codeToString code.

Definition timedOutMessage : string :=
  "du command timed out after 10 minutes".

(** The remaining buffer, as the first [close] handler treats it. *)
Definition flush (st : State) : State :=
  if negb (JsString.trim (buffer st) =? "") then
    match JsString.split tab (JsString.trim (buffer st)) with
    | sizeField :: filePath :: _ =>
        let sizeKB := JsNum.parseInt sizeField in
        let sizeBytes := JsNum.mul sizeKB 1024 in
        putEntry st filePath sizeBytes
    | _ => st
    end
  else st.

(** Both [close] handlers, in the order they were registered. *)
Definition onClose (rootPath : string) (onProgress : bool) (st : State)
           (code : option Z) : State :=
  let st1 := flush st in
  let st2 :=
    match code with
    | Some 0%Z =>
        let st' :=
          if onProgress then
            emit st1 {| processedFiles := lineCount st1;
                        progressPath := rootPath;
                        isComplete := true |}
          else st1 in
        settle st' (Resolved (sizeMap st'))
    | _ => settle st1 (Rejected (failedMessage code))
    end in
  clearTimeout st2.

(** [duProcess.on('error', ...)] *)
Definition onError (st : State) (message : string) : State :=
  settle st (Rejected message).

(** The callback given to [setTimeout]. *)
Definition onTimeout (st : State) : State :=
  settle (kill st) (Rejected timedOutMessage).

(** What the handlers are called with, and when: a chunk comes as the
    string its [toString()] gave, whatever bytes it was made of. *)
Inductive ProcEvent : Type :=
| Stdout (data : string)
| Stderr (data : string)
| Close (code : option Z)
| Error (message : string).

Record Occurrence : Type := { time : Z; event : ProcEvent }.

(** The timer of the event loop: a pending timer whose instant has come
    runs its callback once, before anything that happens later. *)
Definition fireDue (now : Z) (st : State) : State :=
  match timeout st with
  | Some due => if (due <=? now)%Z then onTimeout (clearTimeout st) else st
  | None => st
  end.

Definition handle (rootPath : string) (onProgress : bool) (st : State)
           (o : Occurrence) : State :=
  match event o with
  | Stdout data => onStdoutData onProgress st data (time o)
  | Stderr _ => st
  | Close code => onClose rootPath onProgress st code
  | Error message => onError st message
  end.

Definition step (rootPath : string) (onProgress : bool) (st : State)
           (o : Occurrence) : State :=
  handle rootPath onProgress (fireDue (time o) st) o.

(** [executeDuWithProgress(rootPath, includeFiles, onProgress)] called at
    [startedAt], the child behaving as [trace] says, observed at
    [horizon]. *)
Definition executeDuWithProgress (rootPath : string) (includeFiles : bool)
           (onProgress : bool) (startedAt : Z) (trace : list Occurrence)
           (horizon : Z) : State :=
  fireDue horizon
          (fold_left (step rootPath onProgress) trace
                     (spawned rootPath startedAt)).

End Scan.

(** *** [getAllDirectorySizes] *)

(** What awaiting one [executeDuWithProgress] call yields, and the
    [Date.now()] reading taken right after it. *)
Record ScanRun : Type := { outcome : Scan.Settled; finishedAt : Z }.

(** The result of the call, the cache it leaves, and the scans it started
    (root and [includeFiles]), in order. *)
Record Sizes : Type :=
  { sizes : SizeMap; cacheAfter : Cache; scans : list (string * bool) }.

(** The test on [error.message] that selects the directories-only retry. *)
Definition wantsFallback (message : string) : bool :=
  JsString.includes message "maxBuffer"
  || JsString.includes message "stdout maxBuffer"
  || JsString.includes message "timed out"
  || JsString.includes message "Invalid string length".

Definition getAllDirectorySizes (duCache : Cache) (now : Z) (rootPath : string)
           (full fallback : ScanRun) : Sizes :=
  let '(valid, cache1) := isDuCacheValid duCache now rootPath in
  if valid then
    {| sizes := match JsMap.get cache1 rootPath with
                | Some cached => sizeMap cached
                | None => JsMap.empty
                end;
       cacheAfter := cache1;
       scans := [] |}
  else
    match outcome full with
    | Scan.Resolved m =>
        {| sizes := m;
           cacheAfter :=
             JsMap.set cache1 rootPath
                       {| sizeMap := m; timestamp := finishedAt full |};
           scans := [(rootPath, true)] |}
    | Scan.Rejected message =>
        if wantsFallback message then
          match outcome fallback with
          | Scan.Resolved m =>
              {| sizes := m;
                 cacheAfter :=
                   JsMap.set cache1 rootPath
                             {| sizeMap := m; timestamp := finishedAt fallback |};
                 scans := [(rootPath, true); (rootPath, false)] |}
          | Scan.Rejected _ =>
              {| sizes := JsMap.empty;
                 cacheAfter := cache1;
                 scans := [(rootPath, true); (rootPath, false)] |}
          end
        else
          {| sizes := JsMap.empty;
             cacheAfter := cache1;
             scans := [(rootPath, true)] |}
    end.

(** *** The file system, as the program sees it through [fs.promises] *)

Module Fs.

Record Stats : Type := { isFile : bool; isDirectory : bool; size : Z }.

Record Failure : Type := { code : string; message : string }.

Inductive Fallible (A : Type) : Type :=
| Returned (a : A)
| Threw (e : Failure).

Arguments Returned {A} a.
Arguments Threw {A} e.

(** [access] is only used as [fs.access(p).then(() => true).catch(() =>
    false)]; [rmdir] and [unlink] return the failure, if any. *)
Record t : Type :=
  { stat : string -> Fallible Stats;
    readdir : string -> Fallible (list string);
    access : string -> bool;
    rmdir : string -> option Failure;
    unlink : string -> option Failure }.

End Fs.

(** *** [getDirectoryContents] *)

Inductive NodeType : Type := file | directory.

Module Child.
Record t : Type :=
  { name : string; path : string; size : Z; type : NodeType }.
End Child.

Module Node.
Record t : Type :=
  { name : string; path : string; size : Z; type : NodeType;
    children : list Child.t }.
End Node.

Record Materialized : Type :=
  { node : Node.t; cacheLeft : Cache; scansRun : list (string * bool) }.

(** The node returned when [dirPath] is no directory or something threw. *)
Definition emptyDirectory (dirPath : string) : Node.t :=
  {| Node.name := JsString.orElse (NodePath.basename dirPath) dirPath;
     Node.path := dirPath;
     Node.size := 0;
     Node.type := directory;
     Node.children := [] |}.

(** One iteration of [for (const entry of entries)]. *)
Definition visitEntry (fs : Fs.t) (dirPath : string) (sizeMap : SizeMap)
           (children : list Child.t) (entry : string) : list Child.t :=
  if JsString.startsWith entry "." then children
  else
    let fullPath := NodePath.join dirPath entry in
    match Fs.stat fs fullPath with
    | Fs.Returned childStats =>
        if Fs.isFile childStats then
          (children ++ [ {| Child.name := entry;
                            Child.path := fullPath;
                            Child.size := Fs.size childStats;
                            Child.type := file |} ])%list
        else if Fs.isDirectory childStats then
          let dirSize := JsNum.orZero (JsMap.get sizeMap fullPath) in
          (children ++ [ {| Child.name := entry;
                            Child.path := fullPath;
                            Child.size := dirSize;
                            Child.type := directory |} ])%list
        else children
    | Fs.Threw _ => children
    end.

Definition getDirectoryContents (cwd : string) (fs : Fs.t) (duCache : Cache)
           (clock : nat -> Z) (now : Z) (dirPath : string)
           (full fallback : ScanRun) : Materialized :=
  match Fs.stat fs dirPath with
  | Fs.Threw _ =>
      {| node := emptyDirectory dirPath; cacheLeft := duCache; scansRun := [] |}
  | Fs.Returned stats =>
      if negb (Fs.isDirectory stats) then
        {| node := emptyDirectory dirPath; cacheLeft := duCache; scansRun := [] |}
      else
        let duRootPath :=
          match findCachedRoot cwd clock duCache dirPath with
          | Some found => JsString.orElse found dirPath
          | None => dirPath
          end in
        let got := getAllDirectorySizes duCache now duRootPath full fallback in
        match Fs.readdir fs dirPath with
        | Fs.Threw _ =>
            {| node := emptyDirectory dirPath;
               cacheLeft := cacheAfter got;
               scansRun := scans got |}
        | Fs.Returned entries =>
            let children :=
              fold_left (visitEntry fs dirPath (sizes got)) entries [] in
            {| node :=
                 {| Node.name :=
                      JsString.orElse (NodePath.basename dirPath) dirPath;
                    Node.path := dirPath;
                    Node.size :=
                      fold_left (fun sum child => (sum + Child.size child)%Z)
                                children 0%Z;
                    Node.type := directory;
                    Node.children := children |};
               cacheLeft := cacheAfter got;
               scansRun := scans got |}
        end
  end.

(** *** The [delete-file] handler *)

Definition dangerousPaths : list string :=
  ["/"; "/System"; "/usr"; "/bin"; "/sbin"; "/etc"; "/var"; "/tmp"].

(** The guard of the handler, on the resolved path. *)
Definition isDangerous (normalizedPath : string) : bool :=
  existsb
    (fun dangerous =>
       (normalizedPath =? dangerous)
       || JsString.startsWith normalizedPath (dangerous ++ "/"))
    dangerousPaths.

Inductive FsCall : Type :=
| CallAccess (p : string)
| CallStat (p : string)
| CallRmdir (p : string)
| CallUnlink (p : string).

Record Reply : Type := { success : bool; error : option string }.

(** The reply of the handler and the file-system calls it made. *)
Record Deletion : Type := { reply : Reply; calls : list FsCall }.

Definition refused (message : string) : Reply :=
  {| success := false; error := Some message |}.

Definition systemPathMessage : string :=
  "システムの重要なディレクトリは削除できません".

(** The message chosen in the [catch] block. *)
Definition describe (e : Fs.Failure) : string :=
  if Fs.code e =? "ENOENT" then "ファイルまたはディレクトリが見つかりません"
  else if (Fs.code e =? "EACCES") || (Fs.code e =? "EPERM")
       then "削除する権限がありません"
  else if Fs.code e =? "ENOTEMPTY" then "ディレクトリが空ではありません"
  else if Fs.code e =? "EBUSY" then "ファイルまたはディレクトリが使用中です"
  else Fs.message e.

Definition deleteFile (cwd : string) (fs : Fs.t) (filePath : string)
  : Deletion :=
  let normalizedPath := NodePath.resolve cwd filePath in
  if isDangerous normalizedPath then
    {| reply := refused systemPathMessage; calls := [] |}
  else if negb (Fs.access fs filePath) then
    {| reply := refused "ファイルまたはディレクトリが存在しません";
       calls := [CallAccess filePath] |}
  else
    match Fs.stat fs filePath with
    | Fs.Threw e =>
        {| reply := refused (describe e);
           calls := [CallAccess filePath; CallStat filePath] |}
    | Fs.Returned stats =>
        let removal :=
          if Fs.isDirectory stats then CallRmdir filePath
          else CallUnlink filePath in
        let failure :=
          if Fs.isDirectory stats then Fs.rmdir fs filePath
          else Fs.unlink fs filePath in
        {| reply := match failure with
                    | None => {| success := true; error := None |}
                    | Some e => refused (describe e)
                    end;
           calls := [CallAccess filePath; CallStat filePath; removal] |}
    end.

(** Whether a call removes something. *)
Definition isRemoval (c : FsCall) : bool :=
  match c with
  | CallRmdir _ | CallUnlink _ => true
  | _ => false
  end.

(** *** Vocabulary of the properties *)

(** A record is valid at [now] while it is younger than [CACHE_EXPIRY]. *)
Definition validAt (now : Z) (d : CacheData) : bool :=
  (now - timestamp d <? CACHE_EXPIRY)%Z.

(** [root] is the key of a record that is valid at the reading taken when
    the loop of [findCachedRoot] visits it. *)
Definition seenValid (clock : nat -> Z) (cache : Cache) (root : string) : Prop :=
  exists i d, nth_error cache i = Some (root, d) /\ validAt (clock i) d = true.

(** [d] lies strictly below [a], decided as the program does: [d] starts
    with [a] followed by the separator. *)
Definition strictlyBelow (a d : string) : bool :=
  JsString.startsWith d (a ++ sep).

(** The closing sentence of the root-selection property, for one pair of
    records: the deeper of the two is what the lookup returns. *)
Definition deeperOfTwoReturned (cwd : string) (clock : nat -> Z)
           (cache : Cache) (p R1 R2 : string) : Prop :=
  seenValid clock cache R1 ->
  seenValid clock cache R2 ->
  strictlyBelow (normalizePath cwd R1) (normalizePath cwd R2) = true ->
  covers (normalizePath cwd R2) (normalizePath cwd p) = true ->
  findCachedRoot cwd clock cache p = Some R2.

(** Paths as the file system reads them: the sequence of their non-empty
    components. *)
Module Path.

Definition components (p : string) : list string :=
  filter (fun s => negb (s =? "")) (JsString.split "/" p).

Fixpoint isPrefixOf (a b : list string) : bool :=
  match a, b with
  | [], _ => true
  | x :: a', y :: b' => (x =? y) && isPrefixOf a' b'
  | _ :: _, [] => false
  end.

(** [p] lies beneath the directory [d]: it names something inside [d] or
    inside one of its subdirectories.  Everything but [/] lies beneath
    [/]. *)
Definition liesBeneath (d p : string) : bool :=
  isPrefixOf (components d) (components p)
  && (List.length (components d) <? List.length (components p))%nat.

End Path.

(** The relation between a target and a cached root under which the
    invalidation property wants the record gone: same path, or one above
    the other. *)
Definition related (normalizedTarget normalizedRoot : string) : bool :=
  (normalizedTarget =? normalizedRoot)
  || Path.liesBeneath normalizedRoot normalizedTarget
  || Path.liesBeneath normalizedTarget normalizedRoot.

(** Vocabulary for the scan runner. *)
Module ScanSpec.
Import Scan.

(** A stream cut at its newlines: the complete lines, and what follows the
    last newline. *)
Fixpoint cut (s : string) : list string * string :=
  match s with
  | EmptyString => ([], "")
  | String c s' =>
      let '(ls, rest) := cut s' in
      if Ascii.eqb c newline then ("" :: ls, rest)
      else
        match ls with
        | [] => ([], String c rest)
        | l :: ls' => (String c l :: ls', rest)
        end
  end.

Definition completeLines (s : string) : list string := fst (cut s).

Definition remainder (s : string) : string := snd (cut s).

(** The text the [data] handler of [stdout] received during a trace: the
    strings of the chunks, each decoded on its own, one after the other.
    It is the text of what the child wrote when no chunk stops inside a
    character ([Wire.cutsNoCharacter]), and can differ from it otherwise. *)
Fixpoint stdoutOf (trace : list Occurrence) : string :=
  match trace with
  | [] => ""
  | o :: rest =>
      match event o with
      | Stdout data => data ++ stdoutOf rest
      | _ => stdoutOf rest
      end
  end.

(** The child is still running: it only writes, and does so before
    [deadline]. *)
Definition writesBefore (deadline : Z) (o : Occurrence) : bool :=
  match event o with
  | Stdout _ | Stderr _ => (time o <? deadline)%Z
  | _ => false
  end.

Definition onlyWrites (o : Occurrence) : bool :=
  match event o with
  | Stdout _ | Stderr _ => true
  | _ => false
  end.

(** The part of the state the parser owns, the buffer aside. *)
Definition parsed (st : State) : SizeMap * nat * string :=
  (sizeMap st, lineCount st, currentPath st).

Definition isDecimalDigit (c : ascii) : bool :=
  let n := nat_of_ascii c in ((48 <=? n) && (n <=? 57))%nat.

Fixpoint allChars (P : ascii -> bool) (s : string) : bool :=
  match s with
  | EmptyString => true
  | String c s' => P c && allChars P s'
  end.

(** A size field as [du] prints it: one decimal digit or more. *)
Definition isSizeField (s : string) : bool :=
  negb (s =? "") && allChars isDecimalDigit s.

(** The number a string of decimal digits denotes. *)
Fixpoint decimalValue (acc : Z) (s : string) : Z :=
  match s with
  | EmptyString => acc
  | String c s' => decimalValue (acc * 10 + Z.of_nat (nat_of_ascii c - 48)) s'
  end.



End ScanSpec.

(** The listing of a directory, worded as the specification does. *)
Module Listing.

(** Entries whose name starts with a dot are left out. *)
Definition visible (entry : string) : bool :=
  negb (JsString.startsWith entry ".").

(** The size of a directory child: what the mapping holds for its full
    path, 0 when it holds nothing. *)
Definition lookupSize (sizes : SizeMap) (fullPath : string) : Z :=
  match JsMap.get sizes fullPath with
  | Some (JsNum.Int z) => z
  | _ => 0%Z
  end.

(** The node of one entry: a file with its [stat] size, a directory with
    its looked-up size; nothing for an entry that is neither or whose
    [stat] fails. *)
Definition childOf (fs : Fs.t) (dirPath : string) (sizes : SizeMap)
           (entry : string) : list Child.t :=
  let fullPath := NodePath.join dirPath entry in
  match Fs.stat fs fullPath with
  | Fs.Returned stats =>
      if Fs.isFile stats then
        [ {| Child.name := entry; Child.path := fullPath;
             Child.size := Fs.size stats; Child.type := file |} ]
      else if Fs.isDirectory stats then
        [ {| Child.name := entry; Child.path := fullPath;
             Child.size := lookupSize sizes fullPath;
             Child.type := directory |} ]
      else []
  | Fs.Threw _ => []
  end.

Definition listing (fs : Fs.t) (dirPath : string) (sizes : SizeMap)
           (entries : list string) : list Child.t :=
  flat_map (childOf fs dirPath sizes) (filter visible entries).

(** The sum of the children's sizes. *)
Fixpoint totalSize (children : list Child.t) : Z :=
  match children with
  | [] => 0%Z
  | c :: rest => (Child.size c + totalSize rest)%Z
  end.

(** The root [getDirectoryContents] asks the sizes of. *)
Definition scanRootFor (cwd : string) (clock : nat -> Z) (duCache : Cache)
           (dirPath : string) : string :=
  match findCachedRoot cwd clock duCache dirPath with
  | Some found => JsString.orElse found dirPath
  | None => dirPath
  end.

End Listing.

(** The scenario of the specification: [/tmp/proj] holds the file [f1] of
    100 bytes, the directory [sub] and a hidden [.git]; [du -ak] reports
    2048 KB for [sub]. *)
Module Scenario.

Definition enoent : Fs.Failure :=
  {| Fs.code := "ENOENT"; Fs.message := "ENOENT: no such file or directory" |}.

Definition aDirectory : Fs.Stats :=
  {| Fs.isFile := false; Fs.isDirectory := true; Fs.size := 4096 |}.

Definition aFile (bytes : Z) : Fs.Stats :=
  {| Fs.isFile := true; Fs.isDirectory := false; Fs.size := bytes |}.

Definition projFs : Fs.t :=
  {| Fs.stat := fun p =>
       if p =? "/tmp/proj" then Fs.Returned aDirectory
       else if p =? "/tmp/proj/f1" then Fs.Returned (aFile 100)
       else if p =? "/tmp/proj/sub" then Fs.Returned aDirectory
       else if p =? "/tmp/proj/.git" then Fs.Returned aDirectory
       else Fs.Threw enoent;
     Fs.readdir := fun p =>
       if p =? "/tmp/proj" then Fs.Returned [".git"; "f1"; "sub"]
       else Fs.Threw enoent;
     Fs.access := fun p =>
       (p =? "/tmp/proj") || (p =? "/tmp/proj/f1") || (p =? "/tmp/proj/sub")
       || (p =? "/tmp/proj/.git");
     Fs.rmdir := fun _ => None;
     Fs.unlink := fun _ => None |}.

Definition line (sizeKB path : string) : string :=
  sizeKB ++ String Scan.tab path ++ String Scan.newline "".

Definition duOutput : string :=
  line "4" "/tmp/proj/f1" ++ line "2048" "/tmp/proj/sub"
  ++ line "2056" "/tmp/proj".

(** The child writes its report in two chunks and exits with code 0. *)
Definition duTrace : list Scan.Occurrence :=
  [ {| Scan.time := 5; Scan.event := Scan.Stdout (JsString.sliceTo 20 duOutput) |};
    {| Scan.time := 6; Scan.event := Scan.Stdout (JsString.sliceFrom 20 duOutput) |};
    {| Scan.time := 7; Scan.event := Scan.Close (Some 0%Z) |} ].

Definition duSizes : SizeMap :=
  [ ("/tmp/proj/f1", JsNum.Int 4096);
    ("/tmp/proj/sub", JsNum.Int 2097152);
    ("/tmp/proj", JsNum.Int 2105344) ].

Definition goodScan : ScanRun :=
  {| outcome := Scan.Resolved duSizes; finishedAt := 8 |}.


Definition failedScan : ScanRun :=
  {| outcome := Scan.Rejected (Scan.failedMessage (Some 2%Z)); finishedAt := 6 |}.

End Scenario.

(** Vocabulary for the deny-list of [delete-file]. *)
Module DeleteSpec.

(** The resolved path is a member of the deny-list or lies beneath one. *)
Definition denied (resolved : string) : bool :=
  existsb
    (fun dangerous =>
       (resolved =? dangerous) || Path.liesBeneath dangerous resolved)
    dangerousPaths.

(** The same, the root counting only as itself. *)
Definition deniedRootItselfOnly (resolved : string) : bool :=
  existsb
    (fun dangerous =>
       (resolved =? dangerous)
       || (negb (dangerous =? "/") && Path.liesBeneath dangerous resolved))
    dangerousPaths.

(** The handler answered with the system-path error and made no call to
    the file system at all. *)
Definition refusedUntouched (d : Deletion) : Prop :=
  reply d = refused systemPathMessage /\ calls d = [].

(** The deny-list property as stated, for one request. *)
Definition denyListBlocks (cwd : string) (fs : Fs.t) (filePath : string) : Prop :=
  denied (NodePath.resolve cwd filePath) = true ->
  refusedUntouched (deleteFile cwd fs filePath).

(** A home directory with one file in it. *)
Definition homeFs : Fs.t :=
  {| Fs.stat := fun p =>
       if p =? "/home/u/notes.txt"
       then Fs.Returned {| Fs.isFile := true; Fs.isDirectory := false;
                           Fs.size := 12 |}
       else Fs.Threw {| Fs.code := "ENOENT"; Fs.message := "no such file" |};
     Fs.readdir := fun _ =>
       Fs.Threw {| Fs.code := "ENOTDIR"; Fs.message := "not a directory" |};
     Fs.access := fun p => p =? "/home/u/notes.txt";
     Fs.rmdir := fun _ => None;
     Fs.unlink := fun _ => None |}.

(** A path component: not empty, no separator inside. *)
Definition isComponent (s : string) : bool :=
  negb (s =? "")
  && ScanSpec.allChars (fun c => negb (Ascii.eqb c "/")) s.

End DeleteSpec.

(** Further vocabulary: what is observed of a scan and of a deletion. *)
Module Observed.

(** The calls made to [onProgress] while the child was still writing. *)
Definition interimCalls (st : Scan.State) : list Scan.Progress :=
  filter (fun p => negb (Scan.isComplete p)) (Scan.progress st).

(** The path a file-system call was made on. *)
Definition callPath (c : FsCall) : string :=
  match c with
  | CallAccess p | CallStat p | CallRmdir p | CallUnlink p => p
  end.

(** A genuine name: a path component other than [.] and [..]. *)
Definition plain (x : string) : Prop :=
  DeleteSpec.isComponent x = true /\ x <> "." /\ x <> "..".

(** No event of the trace comes later than [horizon]. *)
Definition notAfter (horizon : Z) (o : Scan.Occurrence) : bool :=
  (Scan.time o <=? horizon)%Z.

End Observed.

(** *** [calculateDirectorySize] *)

(** What a call returns, the cache it leaves and the scans it started. *)
Record Measured : Type :=
  { measured : JsNum.t;
    cacheThen : Cache;
    scansThen : list (string * bool) }.

(** [calculateDirectorySize(dirPath, rootPath)]; [rootPath] is [None] when
    the argument is left out or [null].  The value is what the mapping
    holds, as it is. *)
Definition calculateDirectorySize (cwd : string) (duCache : Cache)
           (clock : nat -> Z) (now : Z) (dirPath : string)
           (rootPath : option string) (full fallback : ScanRun) : Measured :=
  let lookedUp :=
    match findCachedRoot cwd clock duCache dirPath with
    | Some found => JsString.orElse found dirPath
    | None => dirPath
    end in
  let duRootPath :=
    match rootPath with
    | Some given => if given =? "" then lookedUp else given
    | None => lookedUp
    end in
  let got := getAllDirectorySizes duCache now duRootPath full fallback in
  {| measured :=
       if JsMap.has (sizes got) dirPath then
         match JsMap.get (sizes got) dirPath with
         | Some sizeBytes => sizeBytes
         | None => JsNum.Int 0
         end
       else JsNum.Int 0;
     cacheThen := cacheAfter got;
     scansThen := scans got |}.

(** *** [getDirectoryTree] *)

(** The nodes [getDirectoryTree] builds: a file, or a directory with the
    nodes of its entries. *)
#[warnings="-register-all"] Inductive Tree : Type :=
| FileNode (name path : string) (size : Z)
| DirNode (name path : string) (size : Z) (children : list Tree).

Module TreeNode.

Definition name (t : Tree) : string :=
  match t with FileNode n _ _ | DirNode n _ _ _ => n end.

Definition path (t : Tree) : string :=
  match t with FileNode _ p _ | DirNode _ p _ _ => p end.

Definition size (t : Tree) : Z :=
  match t with FileNode _ _ s | DirNode _ _ s _ => s end.

Definition children (t : Tree) : list Tree :=
  match t with FileNode _ _ _ => [] | DirNode _ _ _ cs => cs end.

End TreeNode.

(** One iteration of the loop over the entries of a directory; [recur] is
    the recursive call, whose [None] means that it has not returned.  An
    entry for which the call returns [null] is left out. *)
Definition visitTreeEntry (recur : string -> option (option Tree))
           (dirPath : string) (acc : option (list Tree * Z)) (entry : string)
  : option (list Tree * Z) :=
  match acc with
  | None => None
  | Some (children, totalSize) =>
      if JsString.startsWith entry "." then acc
      else
        let fullPath := NodePath.join dirPath entry in
        match recur fullPath with
        | None => None
        | Some None => acc
        | Some (Some child) =>
            Some ((children ++ [child])%list,
                  (totalSize + TreeNode.size child)%Z)
        end
  end.

(** [getDirectoryTree(dirPath)], the recursion cut at depth [fuel]: [None]
    when a call nested deeper than that would be needed, otherwise what
    the function returns, [Some None] for [null]. *)
Fixpoint getDirectoryTree (fuel : nat) (fs : Fs.t) (dirPath : string)
  : option (option Tree) :=
  match fuel with
  | O => None
  | S fuel' =>
      match Fs.stat fs dirPath with
      | Fs.Threw _ => Some None
      | Fs.Returned stats =>
          let baseName := JsString.orElse (NodePath.basename dirPath) dirPath in
          if Fs.isFile stats then
            Some (Some (FileNode baseName dirPath (Fs.size stats)))
          else if Fs.isDirectory stats then
            match Fs.readdir fs dirPath with
            | Fs.Threw _ => Some (Some (DirNode baseName dirPath 0 []))
            | Fs.Returned entries =>
                match fold_left
                        (visitTreeEntry (getDirectoryTree fuel' fs) dirPath)
                        entries (Some ([], 0%Z)) with
                | None => None
                | Some (children, totalSize) =>
                    Some (Some (DirNode baseName dirPath totalSize children))
                end
            end
          else Some None
      end
  end.

(** Vocabulary for trees. *)
Module TreeSpec.

(** The bytes of the files of a tree. *)
Fixpoint fileBytes (t : Tree) : Z :=
  match t with
  | FileNode _ _ s => s
  | DirNode _ _ _ cs =>
      (fix sum (l : list Tree) : Z :=
         match l with
         | [] => 0%Z
         | c :: l' => (fileBytes c + sum l')%Z
         end) cs
  end.

(** Every node below the top was reached through an entry of its parent
    that starts with no dot: its path is what [path.join] makes of the
    parent's path and such an entry. *)
Fixpoint reachedVisibly (fs : Fs.t) (t : Tree) : bool :=
  match t with
  | FileNode _ _ _ => true
  | DirNode _ p _ cs =>
      (fix all (l : list Tree) : bool :=
         match l with
         | [] => true
         | c :: l' =>
             match Fs.readdir fs p with
             | Fs.Returned entries =>
                 existsb (fun entry =>
                            negb (JsString.startsWith entry ".")
                            && (TreeNode.path c =? NodePath.join p entry))
                         entries
             | Fs.Threw _ => false
             end
             && reachedVisibly fs c && all l'
         end) cs
  end.

(** Every directory of the tree has the size of its children taken
    together. *)
Fixpoint sizesAddUp (t : Tree) : bool :=
  match t with
  | FileNode _ _ _ => true
  | DirNode _ _ s cs =>
      (s =? fold_right (fun c acc => (TreeNode.size c + acc)%Z) 0%Z cs)%Z
      && (fix all (l : list Tree) : bool :=
            match l with
            | [] => true
            | c :: l' => sizesAddUp c && all l'
            end) cs
  end.

(** Nothing lies deeper than [depth] levels below [p]: a call of
    [getDirectoryTree] on [p] nests no deeper. *)
Fixpoint nestsWithin (fs : Fs.t) (depth : nat) (p : string) : bool :=
  match depth with
  | O => false
  | S depth' =>
      match Fs.stat fs p with
      | Fs.Threw _ => true
      | Fs.Returned stats =>
          if Fs.isFile stats then true
          else if Fs.isDirectory stats then
            match Fs.readdir fs p with
            | Fs.Threw _ => true
            | Fs.Returned entries =>
                forallb (fun entry =>
                           JsString.startsWith entry "."
                           || nestsWithin fs depth' (NodePath.join p entry))
                        entries
            end
          else true
      end
  end.

End TreeSpec.

(** *** [getFileList] *)

Module JsRegExp.

(** [s.split(/\s+/)]: the pieces between the maximal runs of white space;
    [inRun] tells that the character before was white space. *)
Fixpoint splitRuns (inRun : bool) (s : string) : list string :=
  match s with
  | EmptyString => [""]
  | String c s' =>
      if JsString.isWhiteSpace c then
        if inRun then splitRuns true s' else "" :: splitRuns true s'
      else
        match splitRuns false s' with
        | x :: xs => String c x :: xs
        | [] => [String c ""]
        end
  end.

Definition splitWhiteSpace (s : string) : list string := splitRuns false s.

End JsRegExp.

(** One line of the listing, as [getFileList] hands it on. *)
Module FileEntry.
Record t : Type :=
  { permissions : string;
    links : string;
    owner : string;
    group : string;
    size : string;
    date : string;
    name : string }.
End FileEntry.

(** What [child_process.exec] is asked to run and what it answers: the
    standard output, or a failure (which includes a non-zero exit). *)
Definition Exec : Type := string -> Fs.Fallible string.

Definition doubleQuote : string := String "034"%char "".

Definition lsCommand (dirPath : string) : string :=
  "ls -la " ++ doubleQuote ++ dirPath ++ doubleQuote.

(** The body of [for (const line of lines)]. *)
Definition visitLine (result : list FileEntry.t) (line : string)
  : list FileEntry.t :=
  if JsString.trim line =? "" then result
  else
    let parts := JsRegExp.splitWhiteSpace (JsString.trim line) in
    if (List.length parts <? 9)%nat then result
    else
      let month := nth 5 parts "" in
      let day := nth 6 parts "" in
      let time := nth 7 parts "" in
      let name := String.concat " " (skipn 8 parts) in
      if (name =? ".") || (name =? "..") then result
      else
        (result ++ [ {| FileEntry.permissions := nth 0 parts "";
                        FileEntry.links := nth 1 parts "";
                        FileEntry.owner := nth 2 parts "";
                        FileEntry.group := nth 3 parts "";
                        FileEntry.size := nth 4 parts "";
                        FileEntry.date := month ++ " " ++ day ++ " " ++ time;
                        FileEntry.name := name |} ])%list.

(** [getFileList(dirPath)] *)
Definition getFileList (exec : Exec) (dirPath : string) : list FileEntry.t :=
  match exec (lsCommand dirPath) with
  | Fs.Threw _ => []
  | Fs.Returned stdout =>
      let lines := tl (JsString.split Scan.newline (JsString.trim stdout)) in
      fold_left visitLine lines []
  end.

(** Vocabulary for listings. *)
Module LsSpec.

(** A word: not empty, no white space in it. *)
Definition isWord (w : string) : bool :=
  negb (w =? "")
  && ScanSpec.allChars (fun c => negb (JsString.isWhiteSpace c)) w.

(** A gap between two columns: white space, at least one character. *)
Definition isGap (g : string) : bool :=
  negb (g =? "") && ScanSpec.allChars JsString.isWhiteSpace g.

(** A line of [ls -l]: eight columns, each followed by a gap, then the
    name. *)
Definition printed (columns : list (string * string)) (name : string)
  : string :=
  fold_right (fun col rest => fst col ++ snd col ++ rest) name columns.

(** The entry such a line stands for. *)
Definition entryOf (columns : list (string * string)) (name : string)
  : FileEntry.t :=
  let col := fun i => fst (nth i columns ("", "")) in
  {| FileEntry.permissions := col 0%nat;
     FileEntry.links := col 1%nat;
     FileEntry.owner := col 2%nat;
     FileEntry.group := col 3%nat;
     FileEntry.size := col 4%nat;
     FileEntry.date := col 5%nat ++ " " ++ col 6%nat ++ " " ++ col 7%nat;
     FileEntry.name := name |}.

(** A row of a listing: its eight columns with the gaps that follow them,
    and the words of the name. *)
Definition Row : Type := (list (string * string) * list string)%type.

Definition rowName (r : Row) : string := String.concat " " (snd r).

Definition rowLine (r : Row) : string := printed (fst r) (rowName r).

Definition rowEntry (r : Row) : FileEntry.t := entryOf (fst r) (rowName r).

Definition isDots (r : Row) : bool :=
  (rowName r =? ".") || (rowName r =? "..").

Definition noNewline (s : string) : bool :=
  ScanSpec.allChars (fun c => negb (Ascii.eqb c Scan.newline)) s.

Definition wellPrinted (r : Row) : bool :=
  (List.length (fst r) =? 8)%nat
  && forallb (fun col => isWord (fst col) && isGap (snd col)
                         && noNewline (snd col))
             (fst r)
  && negb (match snd r with [] => true | _ => false end)
  && forallb isWord (snd r).

(** What [ls -la] writes: the line of the total, then a line for each
    row, each line ended by a newline. *)
Definition listingOutput (total : list string) (rows : list Row) : string :=
  String.concat " " total
  ++ String.concat "" (map (fun r => String Scan.newline (rowLine r)) rows)
  ++ String Scan.newline "".

End LsSpec.

(** What holds of every entry [getFileList] returns. *)
Module LsEntry.

Definition startsPlain (s : string) : bool :=
  match s with
  | EmptyString => true
  | String c _ => negb (JsString.isWhiteSpace c)
  end.

Definition wellFormed (e : FileEntry.t) : bool :=
  LsSpec.isWord (FileEntry.permissions e)
  && LsSpec.isWord (FileEntry.links e)
  && LsSpec.isWord (FileEntry.owner e)
  && LsSpec.isWord (FileEntry.group e)
  && LsSpec.isWord (FileEntry.size e)
  && negb (FileEntry.name e =? "")
  && negb (FileEntry.name e =? ".")
  && negb (FileEntry.name e =? "..").

End LsEntry.

(** *** The renderer: [DiskUtilityApp] *)

(** [window.electronAPI] as the renderer uses it.  Every call is handled
    by the main process, whose state is [B], and is answered or
    rejected. *)
Module ElectronAPI.
Record t (B : Type) : Type :=
  { getDiskUsage : B -> string -> B * Fs.Fallible Node.t;
    deleteFile : B -> string -> B * Fs.Fallible Reply;
    clearDuCache : B -> B * Fs.Fallible unit;
    invalidateDuCache : B -> string -> B * Fs.Fallible unit }.
End ElectronAPI.

Module Renderer.

(** [s.lastIndexOf(c)]; [None] stands for [-1]. *)
Fixpoint lastIndexOf (c : ascii) (s : string) : option nat :=
  match s with
  | EmptyString => None
  | String a s' =>
      match lastIndexOf c s' with
      | Some i => Some (S i)
      | None => if Ascii.eqb a c then Some 0%nat else None
      end
  end.

(** [s.substring(0, end)] where [end] is an index of [s] or [-1], which
    counts as 0. *)
Definition substringTo (s : string) (endIndex : option nat) : string :=
  match endIndex with
  | Some i => JsString.sliceTo i s
  | None => ""
  end.

(** [truncatePath(fullPath, maxLength)] *)
Definition truncatePath (fullPath : string) (maxLength : nat) : string :=
  if (String.length fullPath <=? maxLength)%nat then fullPath
  else
    let parts := JsString.split "/" fullPath in
    if (List.length parts <=? 2)%nat then fullPath
    else
      let start := String.concat "/" (firstn 2 parts) in
      let ending :=
        String.concat "/" (skipn (List.length parts - 2) parts) in
      start ++ "/.../" ++ ending.

(** A record of the front-end cache. *)
Module Cached.
Record t : Type := { data : Node.t; timestamp : Z }.
End Cached.

(** The fields of the application object; [data] is [None] until a
    listing has been loaded, and the target of the context menu is the
    row it was opened on. *)
Record App : Type := mkApp
  { currentPath : string;
    data : option Node.t;
    contextMenuTarget : option Child.t;
    cache : JsMap.t Cached.t;
    progressStartTime : option Z }.

Definition cacheExpiry : Z := 3600000.

Definition setCurrentPath (this : App) (p : string) : App :=
  mkApp p (data this) (contextMenuTarget this) (cache this)
        (progressStartTime this).

Definition setData (this : App) (d : Node.t) : App :=
  mkApp (currentPath this) (Some d) (contextMenuTarget this) (cache this)
        (progressStartTime this).

Definition setCache (this : App) (c : JsMap.t Cached.t) : App :=
  mkApp (currentPath this) (data this) (contextMenuTarget this) c
        (progressStartTime this).

Definition setProgressStartTime (this : App) (t : Z) : App :=
  mkApp (currentPath this) (data this) (contextMenuTarget this) (cache this)
        (Some t).

(** [hideContextMenu()] *)
Definition hideContextMenu (this : App) : App :=
  mkApp (currentPath this) (data this) None (cache this)
        (progressStartTime this).

(** [getParentPath()]: it takes no argument and reads [currentPath]. *)
Definition getParentPath (this : App) : string :=
  if currentPath this =? "/" then "/"
  else
    let normalizedPath := JsString.stripTrailingSlashes (currentPath this) in
    JsString.orElse
      (substringTo normalizedPath (lastIndexOf "/" normalizedPath)) "/".

(** [isCacheValid(path)] at the instant [now]. *)
Definition isCacheValid (this : App) (now : Z) (path : string) : bool * App :=
  if negb (JsMap.has (cache this) path) then (false, this)
  else
    match JsMap.get (cache this) path with
    | None => (false, this)
    | Some cached =>
        let isValid := (now - Cached.timestamp cached <? cacheExpiry)%Z in
        (isValid,
         if isValid then this
         else setCache this (JsMap.delete (cache this) path))
    end.

(** [clearCache()] *)
Definition clearCache (this : App) : App := setCache this JsMap.empty.

(** [invalidateCache(path)]; the argument passed to [getParentPath] is
    ignored there. *)
Definition invalidateCache (this : App) (path : string) : App :=
  let this1 := setCache this (JsMap.delete (cache this) path) in
  let parentPath := getParentPath this1 in
  if negb (parentPath =? path)
  then setCache this1 (JsMap.delete (cache this1) parentPath)
  else this1.

(** The [Date.now()] readings of one [loadDirectory]: in [isCacheValid],
    for [progressStartTime], and for the time stamp of the record. *)
Record Readings : Type := { checkedAt : Z; startedAt : Z; storedAt : Z }.

Section WithMainProcess.
Variable B : Type.
Variable api : ElectronAPI.t B.
Variable clock : Readings.

(** [loadDirectory(path, forceReload)], the page left aside. *)
Definition loadDirectory (st : App * B) (path : string) (forceReload : bool)
  : App * B :=
  let '(this, b) := st in
  let this1 := setCurrentPath this path in
  let '(hit, this2) :=
    if negb forceReload then isCacheValid this1 (checkedAt clock) path
    else (false, this1) in
  match hit, JsMap.get (cache this2) path with
  | true, Some cached => (setData this2 (Cached.data cached), b)
  | true, None => (this2, b)
  | false, _ =>
      let this3 := setProgressStartTime this2 (startedAt clock) in
      let '(b', answer) := ElectronAPI.getDiskUsage api b path in
      match answer with
      | Fs.Returned diskData =>
          (setData
             (setCache this3
                (JsMap.set (cache this3) path
                   {| Cached.data := diskData;
                      Cached.timestamp := storedAt clock |}))
             diskData,
           b')
      | Fs.Threw _ => (this3, b')
      end
  end.

(** [refreshCurrentDirectory()] *)
Definition refreshCurrentDirectory (st : App * B) : App * B :=
  let '(this, b) := st in
  if negb (currentPath this =? "") then
    let this1 := clearCache this in
    let '(b1, _) := ElectronAPI.clearDuCache api b in
    loadDirectory (this1, b1) (currentPath this1) true
  else st.

(** [goUpDirectory()] *)
Definition goUpDirectory (st : App * B) : App * B :=
  let '(this, b) := st in
  if currentPath this =? "/" then st
  else
    let normalizedPath := JsString.stripTrailingSlashes (currentPath this) in
    let parentPath :=
      JsString.orElse
        (substringTo normalizedPath (lastIndexOf "/" normalizedPath)) "/" in
    loadDirectory st parentPath false.

(** [deleteFile(fileData)] *)
Definition deleteFile (st : App * B) (fileData : Child.t) : App * B :=
  let '(this, b) := st in
  let '(b1, answer) := ElectronAPI.deleteFile api b (Child.path fileData) in
  match answer with
  | Fs.Returned result =>
      if success result then
        let this1 := invalidateCache this (Child.path fileData) in
        let this2 := invalidateCache this1 (currentPath this1) in
        let '(b2, _) :=
          ElectronAPI.invalidateDuCache api b1 (Child.path fileData) in
        refreshCurrentDirectory (this2, b2)
      else (this, b1)
  | Fs.Threw _ => (this, b1)
  end.

(** [showDeleteConfirmationDialog(fileData)]; [confirmed] is the answer
    to [confirm(message)]. *)
Definition showDeleteConfirmationDialog (confirmed : bool) (st : App * B)
           (fileData : Child.t) : App * B :=
  if (Child.name fileData =? "") || (Child.path fileData =? "") then st
  else if confirmed then deleteFile st fileData
  else st.

(** [handleDelete()] *)
Definition handleDelete (confirmed : bool) (st : App * B) : App * B :=
  let '(this, b) := st in
  match contextMenuTarget this with
  | None => st
  | Some target =>
      if (Child.name target =? ".") || (Child.name target =? "..")
      then (hideContextMenu this, b)
      else
        let targetToDelete := target in
        showDeleteConfirmationDialog confirmed (hideContextMenu this, b)
                                     targetToDelete
  end.

End WithMainProcess.

End Renderer.

(** *** The main process behind [window.electronAPI] *)

(** [getDiskUsage(dirPath)] *)
Definition getDiskUsage (cwd : string) (fs : Fs.t) (duCache : Cache)
           (clock : nat -> Z) (now : Z) (dirPath : string)
           (full fallback : ScanRun) : Materialized :=
  getDirectoryContents cwd fs duCache clock now dirPath full fallback.

Module MainProcess.

Inductive Invoked : Type :=
| GetDiskUsage (dirPath : string)
| DeleteFile (filePath : string)
| ClearDuCache
| InvalidateDuCache (targetPath : string).

(** The cache of the main process, the file system it sees, the channels
    invoked so far and the scans started so far. *)
Record t : Type :=
  { duCache : Cache;
    fs : Fs.t;
    invoked : list Invoked;
    scansStarted : list (string * bool) }.

(** What the handlers do not decide: the working directory, the clock,
    how the scans end, what the file system is once a removal has gone
    through, and what a removal that failed has left of it (a recursive
    [rmdir] may fail with part of the tree already gone). *)
Record World : Type :=
  { cwd : string;
    clock : nat -> Z;
    now : Z;
    full : ScanRun;
    fallback : ScanRun;
    afterRemoval : Fs.t;
    afterFailedRemoval : Fs.t }.

(** The handlers registered with [ipcMain.handle], behind the bridge of
    the preload script. *)
Definition api (w : World) : ElectronAPI.t t :=
  {| ElectronAPI.getDiskUsage := fun m dirPath =>
       let got := getDiskUsage (cwd w) (fs m) (duCache m) (clock w) (now w)
                               dirPath (full w) (fallback w) in
       ({| duCache := cacheLeft got;
           fs := fs m;
           invoked := (invoked m ++ [GetDiskUsage dirPath])%list;
           scansStarted := (scansStarted m ++ scansRun got)%list |},
        Fs.Returned (node got));
     ElectronAPI.deleteFile := fun m filePath =>
       let done := deleteFile (cwd w) (fs m) filePath in
       ({| duCache := duCache m;
           fs := if success (reply done) then afterRemoval w
                 else if existsb isRemoval (calls done)
                      then afterFailedRemoval w
                      else fs m;
           invoked := (invoked m ++ [DeleteFile filePath])%list;
           scansStarted := scansStarted m |},
        Fs.Returned (reply done));
     ElectronAPI.clearDuCache := fun m =>
       ({| duCache := clearDuCache (duCache m);
           fs := fs m;
           invoked := (invoked m ++ [ClearDuCache])%list;
           scansStarted := scansStarted m |},
        Fs.Returned tt);
     ElectronAPI.invalidateDuCache := fun m targetPath =>
       ({| duCache := invalidateDuCache (cwd w) (duCache m) targetPath;
           fs := fs m;
           invoked := (invoked m ++ [InvalidateDuCache targetPath])%list;
           scansStarted := scansStarted m |},
        Fs.Returned tt) |}.

End MainProcess.

(** *** The earlier main process ([main.js]) *)

Module MainJs.

(** A node of the earlier listing: sizes are JavaScript numbers there,
    since the size of a directory comes straight from [parseInt]. *)
Module Child.
Record t : Type :=
  { name : string; path : string; size : JsNum.t; type : NodeType }.
End Child.

Module Node.
Record t : Type :=
  { name : string; path : string; size : JsNum.t; type : NodeType;
    children : list Child.t }.
End Node.

(** [a + b] on numbers. *)
Definition add (a b : JsNum.t) : JsNum.t :=
  match a, b with
  | JsNum.Int x, JsNum.Int y => JsNum.Int (x + y)
  | _, _ => JsNum.NaN
  end.

Definition duCommand (dirPath : string) : string :=
  "du -s " ++ doubleQuote ++ dirPath ++ doubleQuote.

(** [calculateDirectorySize(dirPath)] *)
Definition calculateDirectorySize (exec : Exec) (dirPath : string) : JsNum.t :=
  match exec (duCommand dirPath) with
  | Fs.Returned stdout =>
      let size :=
        JsNum.mul (JsNum.parseInt (hd "" (JsString.split Scan.tab stdout)))
                  1024 in
      size
  | Fs.Threw _ => JsNum.Int 0
  end.

Definition emptyDirectory (dirPath : string) : Node.t :=
  {| Node.name := JsString.orElse (NodePath.basename dirPath) dirPath;
     Node.path := dirPath;
     Node.size := JsNum.Int 0;
     Node.type := directory;
     Node.children := [] |}.

(** One iteration of [for (const entry of entries)]. *)
Definition visitEntry (fs : Fs.t) (exec : Exec) (dirPath : string)
           (children : list Child.t) (entry : string) : list Child.t :=
  if JsString.startsWith entry "." then children
  else
    let fullPath := NodePath.join dirPath entry in
    match Fs.stat fs fullPath with
    | Fs.Returned childStats =>
        if Fs.isFile childStats then
          (children ++ [ {| Child.name := entry;
                            Child.path := fullPath;
                            Child.size := JsNum.Int (Fs.size childStats);
                            Child.type := file |} ])%list
        else if Fs.isDirectory childStats then
          let dirSize := calculateDirectorySize exec fullPath in
          (children ++ [ {| Child.name := entry;
                            Child.path := fullPath;
                            Child.size := dirSize;
                            Child.type := directory |} ])%list
        else children
    | Fs.Threw _ => children
    end.

(** [getDirectoryContents(dirPath)] *)
Definition getDirectoryContents (fs : Fs.t) (exec : Exec) (dirPath : string)
  : Node.t :=
  match Fs.stat fs dirPath with
  | Fs.Threw _ => emptyDirectory dirPath
  | Fs.Returned stats =>
      if negb (Fs.isDirectory stats) then emptyDirectory dirPath
      else
        match Fs.readdir fs dirPath with
        | Fs.Threw _ => emptyDirectory dirPath
        | Fs.Returned entries =>
            let children := fold_left (visitEntry fs exec dirPath) entries [] in
            {| Node.name := JsString.orElse (NodePath.basename dirPath) dirPath;
               Node.path := dirPath;
               Node.size :=
                 fold_left (fun sum child => add sum (Child.size child))
                           children (JsNum.Int 0);
               Node.type := directory;
               Node.children := children |}
        end
  end.

(** The children whose size is not a number. *)
Definition unsized (children : list Child.t) : list Child.t :=
  filter (fun c => match Child.size c with
                   | JsNum.NaN => true
                   | JsNum.Int _ => false
                   end)
         children.

End MainJs.

(** [root] is [target] or a directory above it, by path components. *)
Definition ancestorOrSelf (normalizedRoot normalizedTarget : string) : bool :=
  (normalizedTarget =? normalizedRoot)
  || Path.liesBeneath normalizedRoot normalizedTarget.

(** *** Buffers: the bytes of a chunk and the text [toString] makes of them *)

Module Buffer.

(** A [Buffer], as the stream hands it to the [data] handler: its bytes. *)
Definition t : Type := list Byte.byte.

(** U+FFFD, which the decoder writes where the bytes are not UTF-8. *)
Definition replacement : N := 65533.

(** A character under way: the continuation bytes still due, the code
    point gathered so far, and the range the next byte has to fall in. *)
Record Pending : Type :=
  { needed : nat; codePoint : N; lower : N; upper : N }.

(** A byte met where a character starts. *)
Definition lead (b : N) : list N * option Pending :=
  (if b <=? 127 then ([b], None)
   else if (194 <=? b) && (b <=? 223) then
     ([], Some {| needed := 1; codePoint := b - 192;
                  lower := 128; upper := 191 |})
   else if (224 <=? b) && (b <=? 239) then
     ([], Some {| needed := 2; codePoint := b - 224;
                  lower := if b =? 224 then 160 else 128;
                  upper := if b =? 237 then 159 else 191 |})
   else if (240 <=? b) && (b <=? 244) then
     ([], Some {| needed := 3; codePoint := b - 240;
                  lower := if b =? 240 then 144 else 128;
                  upper := if b =? 244 then 143 else 191 |})
   else ([replacement], None))%N.

(** One byte: the code points it completes, and the character left under
    way.  A byte that cannot continue the character under way ends it
    with U+FFFD and is read again as a first byte. *)
Definition next (pending : option Pending) (b : N)
  : list N * option Pending :=
  match pending with
  | None => lead b
  | Some q =>
      if ((lower q <=? b) && (b <=? upper q))%N then
        let cp := (codePoint q * 64 + (b - 128))%N in
        match needed q with
        | S (S n) =>
            ([], Some {| needed := S n; codePoint := cp;
                         lower := 128; upper := 191 |})
        | _ => ([cp], None)
        end
      else
        let '(out, pending') := lead b in (replacement :: out, pending')
  end.

Fixpoint run (pending : option Pending) (bytes : list N)
  : list N * option Pending :=
  match bytes with
  | [] => ([], pending)
  | b :: rest =>
      let '(out, pending') := next pending b in
      let '(out', final) := run pending' rest in
      ((out ++ out')%list, final)
  end.

(** The end of the bytes: a character still under way becomes U+FFFD. *)
Definition flush (pending : option Pending) : list N :=
  match pending with
  | Some _ => [replacement]
  | None => []
  end.

(** The code points of a whole sequence of bytes read as UTF-8. *)
Definition decode (bytes : list N) : list N :=
  let '(out, final) := run None bytes in (out ++ flush final)%list.

(** The code units of a code point in a JavaScript string. *)
Definition utf16 (cp : N) : list N :=
  (if cp <? 65536 then [cp]
   else [55296 + (cp - 65536) / 1024; 56320 + (cp - 65536) mod 1024])%N.

(** [chunk.toString()]: the string, as the list of its code units.  Each
    call decodes the bytes of its own chunk and nothing else. *)
Definition toString (chunk : t) : list N :=
  flat_map utf16 (decode (map Byte.to_N chunk)).

(** The code units of a string of the embedding. *)
Definition codeUnits (s : string) : list N :=
  map N_of_ascii (list_ascii_of_string s).

(** The chunk does not stop inside a multi-byte character. *)
Definition endsBetweenCharacters (chunk : t) : bool :=
  match snd (run None (map Byte.to_N chunk)) with
  | None => true
  | Some _ => false
  end.


(** The bytes whose values are the code units of [s]: the UTF-8 encoding
    of [s] when [s] is ASCII. *)
Definition ofCodeUnits (s : string) : t := list_byte_of_string s.

End Buffer.

(** The child process as the operating system shows it: what it writes
    arrives as [Buffer] chunks, cut wherever the pipe cut them. *)
Module Wire.

Inductive ProcEvent : Type :=
| Stdout (chunk : Buffer.t)
| Stderr (chunk : Buffer.t)
| Close (code : option Z)
| Error (message : string).

Record Occurrence : Type := { time : Z; event : ProcEvent }.

(** [chunk.toString()] is the string [data]. *)
Definition decodedAs (chunk : Buffer.t) (data : string) : Prop :=
  Buffer.toString chunk = Buffer.codeUnits data.

(** The occurrence as the handlers of [executeDuWithProgress] take it:
    the [data] handler of [stdout] works on [data.toString()], the one of
    [stderr] only logs. *)
Definition seenAs (o : Occurrence) (o' : Scan.Occurrence) : Prop :=
  time o = Scan.time o'
  /\ match event o, Scan.event o' with
     | Stdout chunk, Scan.Stdout data => decodedAs chunk data
     | Stderr _, Scan.Stderr _ => True
     | Close code, Scan.Close code' => code = code'
     | Error message, Scan.Error message' => message = message'
     | _, _ => False
     end.

Definition received (wire : list Occurrence) (trace : list Scan.Occurrence)
  : Prop :=
  Forall2 seenAs wire trace.

(** The chunks of standard output, in the order they came. *)
Fixpoint chunksOf (wire : list Occurrence) : list Buffer.t :=
  match wire with
  | [] => []
  | o :: rest =>
      match event o with
      | Stdout chunk => chunk :: chunksOf rest
      | _ => chunksOf rest
      end
  end.

(** Everything the child wrote to its standard output: the bytes. *)
Definition stdoutOf (wire : list Occurrence) : Buffer.t :=
  List.concat (chunksOf wire).

(** No chunk that another one follows stops inside a character. *)
Fixpoint aligned (chunks : list Buffer.t) : bool :=
  match chunks with
  | [] => true
  | chunk :: rest =>
      match rest with
      | [] => true
      | _ :: _ => Buffer.endsBetweenCharacters chunk && aligned rest
      end
  end.

Definition cutsNoCharacter (wire : list Occurrence) : bool :=
  aligned (chunksOf wire).


End Wire.

(** The report of [Scenario], and a report that names [/a/e] with an acute
    accent on the [e] (U+00E9, the bytes C3 A9), as bytes on the wire. *)
Module WireScenario.


Definition accentedPath : string := "/a/" ++ String "233"%char "".

Definition accentedLine : string :=
  "8" ++ String Scan.tab accentedPath ++ String Scan.newline "".

(** The line up to the first byte of the accented letter, and the rest. *)
Definition accentedHead : Buffer.t :=
  (Buffer.ofCodeUnits ("8" ++ String Scan.tab "/a/") ++ [Byte.xc3])%list.

Definition accentedTail : Buffer.t := [Byte.xa9; Byte.x0a].

(** The line up to the end of the accented letter, and the rest. *)
Definition accentedWord : Buffer.t :=
  (Buffer.ofCodeUnits ("8" ++ String Scan.tab "/a/") ++ [Byte.xc3; Byte.xa9])%list.

Definition accentedEnd : Buffer.t := [Byte.x0a].

End WireScenario.

(** A directory whose recursive removal fails, and what the attempt left
    of it. *)
Module RemovalScenario.

Definition stuckFs : Fs.t :=
  {| Fs.stat := fun p =>
       if (p =? "/home/u/work") || (p =? "/home/u/work/a")
       then Fs.Returned Scenario.aDirectory
       else Fs.Threw Scenario.enoent;
     Fs.readdir := fun p =>
       if p =? "/home/u/work" then Fs.Returned ["a"]
       else if p =? "/home/u/work/a" then Fs.Returned []
       else Fs.Threw Scenario.enoent;
     Fs.access := fun p => (p =? "/home/u/work") || (p =? "/home/u/work/a");
     Fs.rmdir := fun _ =>
       Some {| Fs.code := "EACCES"; Fs.message := "EACCES: permission denied" |};
     Fs.unlink := fun _ => None |}.

Definition halfGone : Fs.t :=
  {| Fs.stat := fun p =>
       if p =? "/home/u/work" then Fs.Returned Scenario.aDirectory
       else Fs.Threw Scenario.enoent;
     Fs.readdir := fun p =>
       if p =? "/home/u/work" then Fs.Returned []
       else Fs.Threw Scenario.enoent;
     Fs.access := fun p => p =? "/home/u/work";
     Fs.rmdir := fun _ =>
       Some {| Fs.code := "EACCES"; Fs.message := "EACCES: permission denied" |};
     Fs.unlink := fun _ => None |}.

End RemovalScenario.

(* ================================================================== *)
(** ** Properties *)
(* ================================================================== *)

Unset Implicit Arguments.

(** *** Strings *)

Module JsStringFacts.
Import JsString.

Lemma startsWith_length s p :
  startsWith s p = true -> String.length p <= String.length s.
Proof.
  revert s; induction p as [|b p IH]; intros [|a s]; simpl; try lia;
    try discriminate.
  intros H; apply andb_true_iff in H as [_ H]. apply IH in H. lia.
Qed.

Lemma startsWith_app s p : startsWith (p ++ s) p = true.
Proof.
  induction p as [|b p IH]; simpl; [reflexivity|].
  now rewrite Ascii.eqb_refl.
Qed.

Lemma startsWith_iff s p :
  startsWith s p = true <-> exists t, s = p ++ t.
Proof.
  split.
  - revert s; induction p as [|b p IH]; intros s H.
    + now exists s.
    + destruct s as [|a s]; simpl in H; [discriminate|].
      apply andb_true_iff in H as [Hab H].
      apply Ascii.eqb_eq in Hab; subst b.
      destruct (IH _ H) as [t ->]. now exists t.
  - intros [t ->]. apply startsWith_app.
Qed.

Lemma length_app (a b : string) :
  String.length (a ++ b) = String.length a + String.length b.
Proof. induction a as [|c a IH]; simpl; [reflexivity | now rewrite IH]. Qed.

Lemma app_assoc (a b c : string) : (a ++ b) ++ c = a ++ (b ++ c).
Proof. induction a as [|x a IH]; simpl; [reflexivity | now rewrite IH]. Qed.

Lemma app_empty_r (a : string) : a ++ "" = a.
Proof. induction a as [|x a IH]; simpl; [reflexivity | now rewrite IH]. Qed.

Lemma startsWith_trans s p q :
  startsWith s p = true -> startsWith p q = true -> startsWith s q = true.
Proof.
  intros H1 H2. apply startsWith_iff in H1 as [t ->].
  apply startsWith_iff in H2 as [u ->].
  rewrite app_assoc. apply startsWith_app.
Qed.

Lemma orElse_nonempty s d : d <> "" -> orElse s d <> "".
Proof.
  unfold orElse. destruct (String.eqb_spec s ""); intros; assumption.
Qed.

Lemma length_pos (s : string) : s <> "" -> 1 <= String.length s.
Proof. destruct s; simpl; [congruence | lia]. Qed.

End JsStringFacts.

(** *** Root selection: [findCachedRoot] *)

Section RootSelection.
Import JsString JsStringFacts.

Variable cwd : string.
Variable clock : nat -> Z.

Lemma normalizePath_nonempty p : 1 <= String.length (normalizePath cwd p).
Proof.
  apply length_pos. unfold normalizePath.
  apply orElse_nonempty. discriminate.
Qed.

Lemma expired_not_valid now d :
  (now - timestamp d >=? CACHE_EXPIRY)%Z = negb (validAt now d).
Proof.
  unfold validAt. rewrite Z.geb_leb.
  destruct (Z.ltb_spec (now - timestamp d) CACHE_EXPIRY);
    [apply Z.leb_gt | apply Z.leb_le]; assumption.
Qed.

(** The invariant of the loop: either the incoming best match survives
    and no candidate among the entries beats [bestLen], or the result is
    the first of the longest candidates and beats [bestLen]. *)
Lemma findCachedRoot_loop_spec target entries :
  forall i best bestLen,
    let res := findCachedRoot_loop cwd clock target entries i best bestLen in
    (res = best /\
     forall j r d,
       nth_error entries j = Some (r, d) ->
       validAt (clock (i + j)) d = true ->
       covers (normalizePath cwd r) target = true ->
       String.length (normalizePath cwd r) <= bestLen)
    \/
    (exists j r d,
        nth_error entries j = Some (r, d) /\
        res = Some r /\
        validAt (clock (i + j)) d = true /\
        covers (normalizePath cwd r) target = true /\
        bestLen < String.length (normalizePath cwd r) /\
        (forall j' r' d',
            nth_error entries j' = Some (r', d') ->
            validAt (clock (i + j')) d' = true ->
            covers (normalizePath cwd r') target = true ->
            String.length (normalizePath cwd r') <= String.length (normalizePath cwd r)) /\
        (forall j' r' d',
            j' < j ->
            nth_error entries j' = Some (r', d') ->
            validAt (clock (i + j')) d' = true ->
            covers (normalizePath cwd r') target = true ->
            String.length (normalizePath cwd r') < String.length (normalizePath cwd r))).
Proof.
  induction entries as [|[r0 d0] rest IH]; intros i best bestLen; simpl.
  - left; split; [reflexivity|]. intros [|j] r d H; discriminate.
  - rewrite expired_not_valid.
    destruct (validAt (clock i) d0) eqn:Hv; simpl.
    + destruct (covers (normalizePath cwd r0) target) eqn:Hc; simpl.
      * destruct (Nat.ltb_spec bestLen (String.length (normalizePath cwd r0))) as [Hlt|Hge].
        -- destruct (IH (S i) (Some r0) (String.length (normalizePath cwd r0)))
             as [[Hres Hmax]|(j & r & d & Hj & Hres & Hval & Hcov & Hlen & Hmax & Hfirst)].
           ++ right. exists 0, r0, d0. rewrite Nat.add_0_r.
              repeat split; auto; try lia.
              intros [|j'] r' d' Hn Hv' Hc'; simpl in Hn.
              ** injection Hn as <- <-. lia.
              ** apply (Hmax j' r' d' Hn); auto.
                 now rewrite Nat.add_succ_comm.
           ++ right. exists (S j), r, d. rewrite <- Nat.add_succ_comm.
              repeat split; auto; try lia.
              ** intros [|j'] r' d' Hn Hv' Hc'; simpl in Hn.
                 --- injection Hn as <- <-. lia.
                 --- apply (Hmax j' r' d' Hn); auto.
                     now rewrite Nat.add_succ_comm.
              ** intros [|j'] r' d' Hlt' Hn Hv' Hc'; simpl in Hn.
                 --- injection Hn as <- <-. lia.
                 --- apply (Hfirst j' r' d'); auto; try lia.
                     now rewrite Nat.add_succ_comm.
        -- destruct (IH (S i) best bestLen)
             as [[Hres Hmax]|(j & r & d & Hj & Hres & Hval & Hcov & Hlen & Hmax & Hfirst)].
           ++ left; split; [assumption|].
              intros [|j'] r' d' Hn Hv' Hc'; simpl in Hn.
              ** injection Hn as <- <-. lia.
              ** apply (Hmax j' r' d' Hn); auto.
                 now rewrite Nat.add_succ_comm.
           ++ right. exists (S j), r, d. rewrite <- Nat.add_succ_comm.
              repeat split; auto; try lia.
              ** intros [|j'] r' d' Hn Hv' Hc'; simpl in Hn.
                 --- injection Hn as <- <-. lia.
                 --- apply (Hmax j' r' d' Hn); auto.
                     now rewrite Nat.add_succ_comm.
              ** intros [|j'] r' d' Hlt' Hn Hv' Hc'; simpl in Hn.
                 --- injection Hn as <- <-. lia.
                 --- apply (Hfirst j' r' d'); auto; try lia.
                     now rewrite Nat.add_succ_comm.
      * destruct (IH (S i) best bestLen)
          as [[Hres Hmax]|(j & r & d & Hj & Hres & Hval & Hcov & Hlen & Hmax & Hfirst)].
        -- left; split; [assumption|].
           intros [|j'] r' d' Hn Hv' Hc'; simpl in Hn.
           ++ injection Hn as <- <-. congruence.
           ++ apply (Hmax j' r' d' Hn); auto.
              now rewrite Nat.add_succ_comm.
        -- right. exists (S j), r, d. rewrite <- Nat.add_succ_comm.
           repeat split; auto; try lia.
           ++ intros [|j'] r' d' Hn Hv' Hc'; simpl in Hn.
              ** injection Hn as <- <-. congruence.
              ** apply (Hmax j' r' d' Hn); auto.
                 now rewrite Nat.add_succ_comm.
           ++ intros [|j'] r' d' Hlt' Hn Hv' Hc'; simpl in Hn.
              ** injection Hn as <- <-. congruence.
              ** apply (Hfirst j' r' d'); auto; try lia.
                 now rewrite Nat.add_succ_comm.
    + destruct (IH (S i) best bestLen)
        as [[Hres Hmax]|(j & r & d & Hj & Hres & Hval & Hcov & Hlen & Hmax & Hfirst)].
      * left; split; [assumption|].
        intros [|j'] r' d' Hn Hv' Hc'; simpl in Hn.
        -- injection Hn as <- <-. rewrite Nat.add_0_r in Hv'. congruence.
        -- apply (Hmax j' r' d' Hn); auto.
           now rewrite Nat.add_succ_comm.
      * right. exists (S j), r, d. rewrite <- Nat.add_succ_comm.
        repeat split; auto; try lia.
        -- intros [|j'] r' d' Hn Hv' Hc'; simpl in Hn.
           ++ injection Hn as <- <-. rewrite Nat.add_0_r in Hv'. congruence.
           ++ apply (Hmax j' r' d' Hn); auto.
              now rewrite Nat.add_succ_comm.
        -- intros [|j'] r' d' Hlt' Hn Hv' Hc'; simpl in Hn.
           ++ injection Hn as <- <-. rewrite Nat.add_0_r in Hv'. congruence.
           ++ apply (Hfirst j' r' d'); auto; try lia.
              now rewrite Nat.add_succ_comm.
Qed.

End RootSelection.

Section LongestCoveringRoot.
Import JsString JsStringFacts.

Variable cwd : string.
Variable clock : nat -> Z.

Lemma covers_length root target :
  covers root target = true -> String.length root <= String.length target.
Proof.
unfold covers. intros H. apply orb_true_iff in H as [H|H].
- apply String.eqb_eq in H. subst. lia.
- apply startsWith_length in H. rewrite length_app in H. lia.
Qed.

Lemma strictlyBelow_length a d :
  strictlyBelow a d = true -> String.length a < String.length d.
Proof.
unfold strictlyBelow. intros H. apply startsWith_length in H.
rewrite length_app in H. simpl in H. lia.
Qed.

(** When every iteration reads the same instant, a root is seen valid
    exactly when the cache holds a record for it that is valid then. *)
Lemma seenValid_constant (now : Z) (cache : Cache) (r : string) :
  seenValid (fun _ => now) cache r
  <-> exists d, In (r, d) cache /\ validAt now d = true.
Proof.
unfold seenValid. split.
- intros (i & d & Hi & Hv). exists d. split; [|assumption].
  now apply nth_error_In in Hi.
- intros (d & Hin & Hv). apply In_nth_error in Hin as [i Hi].
  now exists i, d.
Qed.

(** Two roots that cover the same target with the same length are the same
    string. *)
Lemma covers_same_length r1 r2 target :
  covers r1 target = true -> covers r2 target = true ->
  String.length r1 = String.length r2 -> r1 = r2.
Proof.
assert (Hpre : forall a b t u : string,
           a ++ t = b ++ u -> String.length a = String.length b -> a = b).
{ induction a as [|x a IH]; intros [|y b] t u He Hl; simpl in *;
    try discriminate; [reflexivity|].
  injection He as -> He. f_equal. eapply IH; eauto. }
unfold covers. intros H1 H2 Hl.
apply orb_true_iff in H1 as [H1|H1]; apply orb_true_iff in H2 as [H2|H2].
- apply String.eqb_eq in H1, H2. congruence.
- apply String.eqb_eq in H1. subst target.
  apply startsWith_length in H2. rewrite length_app in H2. simpl in H2. lia.
- apply String.eqb_eq in H2. subst target.
  apply startsWith_length in H1. rewrite length_app in H1. simpl in H1. lia.
- apply startsWith_iff in H1 as [t H1]. apply startsWith_iff in H2 as [u H2].
  rewrite H1 in H2. rewrite !app_assoc in H2. eapply Hpre; eauto.
Qed.

Lemma findCachedRoot_Some_spec (cache : Cache) (p r : string) :
  findCachedRoot cwd clock cache p = Some r ->
  seenValid clock cache r
  /\ covers (normalizePath cwd r) (normalizePath cwd p) = true
  /\ (forall r', seenValid clock cache r' ->
                 covers (normalizePath cwd r') (normalizePath cwd p) = true ->
                 String.length (normalizePath cwd r')
                 <= String.length (normalizePath cwd r))
  /\ (exists j d,
         nth_error cache j = Some (r, d)
         /\ validAt (clock j) d = true
         /\ forall j' r' d',
             j' < j ->
             nth_error cache j' = Some (r', d') ->
             validAt (clock j') d' = true ->
             covers (normalizePath cwd r') (normalizePath cwd p) = true ->
             String.length (normalizePath cwd r')
             < String.length (normalizePath cwd r)).
Proof.
intros Hr. unfold findCachedRoot in Hr.
destruct (findCachedRoot_loop_spec cwd clock (normalizePath cwd p) cache 0 None 0)
  as [[Hres _]|(j & r0 & d & Hj & Hres & Hval & Hcov & _ & Hmax & Hfirst)];
  simpl in *; [congruence|].
rewrite Hres in Hr. injection Hr as ->.
split; [exists j, d; auto|]. split; [assumption|]. split.
- intros r' (j' & d' & Hj' & Hv') Hc'. eapply Hmax; eauto.
- exists j, d. repeat split; auto.
Qed.

Lemma findCachedRoot_None_spec (cache : Cache) (p : string) :
  findCachedRoot cwd clock cache p = None ->
  forall r, seenValid clock cache r ->
            covers (normalizePath cwd r) (normalizePath cwd p) = false.
Proof.
intros Hr r (j & d & Hj & Hv). unfold findCachedRoot in Hr.
destruct (findCachedRoot_loop_spec cwd clock (normalizePath cwd p) cache 0 None 0)
  as [[_ Hmax]|(j0 & r0 & d0 & _ & Hres & _)]; simpl in *; [|congruence].
destruct (covers (normalizePath cwd r) (normalizePath cwd p)) eqn:Hc;
  [|reflexivity].
specialize (Hmax j r d Hj Hv Hc).
pose proof (normalizePath_nonempty cwd r). lia.
Qed.

(** The lookup in terms of the test its loop applies.  [findCachedRoot]
    returns nothing exactly when no valid record's normalized root passes
    the test against [p] (equal to it, or a prefix of it once the
    separator is appended); otherwise it returns the key of a valid record
    that passes with the longest normalized root, the first such in
    iteration order.  For two valid records [R1], [R2] such that [R2]
    passes the test and starts with [R1] and the separator, the result is
    never [R1] and is at least as long as [R2]. *)
Lemma findCachedRoot_by_prefix_test :
  forall (cache : Cache) (p : string),
    let target := normalizePath cwd p in
    let result := findCachedRoot cwd clock cache p in
    (result = None <->
     forall r, seenValid clock cache r ->
               covers (normalizePath cwd r) target = false)
    /\
    (forall r,
        result = Some r ->
        seenValid clock cache r
        /\ covers (normalizePath cwd r) target = true
        /\ (forall r', seenValid clock cache r' ->
                       covers (normalizePath cwd r') target = true ->
                       String.length (normalizePath cwd r')
                       <= String.length (normalizePath cwd r))
        /\ (exists j d,
               nth_error cache j = Some (r, d)
               /\ validAt (clock j) d = true
               /\ forall j' r' d',
                   j' < j ->
                   nth_error cache j' = Some (r', d') ->
                   validAt (clock j') d' = true ->
                   covers (normalizePath cwd r') target = true ->
                   String.length (normalizePath cwd r')
                   < String.length (normalizePath cwd r))
        /\ strictlyBelow target (normalizePath cwd r) = false
        /\ String.length (normalizePath cwd r) <= String.length target)
    /\
    (forall R1 R2,
        seenValid clock cache R1 ->
        seenValid clock cache R2 ->
        strictlyBelow (normalizePath cwd R1) (normalizePath cwd R2) = true ->
        covers (normalizePath cwd R2) target = true ->
        exists r,
          result = Some r
          /\ r <> R1
          /\ String.length (normalizePath cwd R2)
             <= String.length (normalizePath cwd r)
          /\ ((forall r', seenValid clock cache r' ->
                          covers (normalizePath cwd r') target = true ->
                          String.length (normalizePath cwd r')
                          <= String.length (normalizePath cwd R2)) ->
              normalizePath cwd r = normalizePath cwd R2)
          /\ ((forall r', seenValid clock cache r' ->
                          covers (normalizePath cwd r') target = true ->
                          r' <> R2 ->
                          String.length (normalizePath cwd r')
                          < String.length (normalizePath cwd R2)) ->
              r = R2)).
Proof.
intros cache p target result.
pose proof (fun r => findCachedRoot_Some_spec cache p r) as Hsome.
pose proof (findCachedRoot_None_spec cache p) as Hnone.
fold target result in Hsome, Hnone.
split; [|split].
- split; [exact Hnone|].
  intros Hall. destruct result as [r|] eqn:Hr; [|reflexivity].
  destruct (Hsome r eq_refl) as (Hs & Hc & _).
  rewrite (Hall r Hs) in Hc. discriminate.
- intros r Hr. destruct (Hsome r Hr) as (Hs & Hc & Hmax & Hfirst).
  split; [assumption|]. split; [assumption|]. split; [assumption|].
  split; [assumption|]. split.
  + destruct (strictlyBelow target (normalizePath cwd r)) eqn:Hb; [|reflexivity].
    apply strictlyBelow_length in Hb. apply covers_length in Hc. lia.
  + now apply covers_length.
- intros R1 R2 HR1 HR2 Hbelow Hcov.
  destruct result as [r|] eqn:Hr.
  + destruct (Hsome r eq_refl) as (Hs & Hc & Hmax & _).
    exists r. split; [reflexivity|].
    pose proof (Hmax R2 HR2 Hcov) as Hle.
    apply strictlyBelow_length in Hbelow.
    split; [|split; [assumption|split]].
    * intros ->. lia.
    * intros Hnone'. specialize (Hnone' r Hs Hc).
      eapply covers_same_length; eauto. lia.
    * intros Hothers.
      destruct (string_dec r R2) as [|Hne]; [assumption|].
      specialize (Hothers r Hs Hc Hne). lia.
  + rewrite (Hnone eq_refl R2 HR2) in Hcov. discriminate.
Qed.

(** A root [/a] does not cover [/ab]: the comparison is against the root
    followed by the separator. *)
Example covers_needs_separator :
  covers (normalizePath "/" "/a") (normalizePath "/" "/ab") = false
  /\ covers (normalizePath "/" "/a") (normalizePath "/" "/a/b") = true
  /\ covers (normalizePath "/" "/a") (normalizePath "/" "/a") = true.
Proof. vm_compute. auto. Qed.

End LongestCoveringRoot.

(** C1 as stated fails when a third valid record lies deeper still: with
    records rooted at [/a], [/a/b] and [/a/b/c] and the query [/a/b/c/d],
    the pair [R1 = /a], [R2 = /a/b] meets the premises, yet the lookup
    returns [/a/b/c]. *)
Lemma deeperOfTwoReturned_counterexample :
  ~ deeperOfTwoReturned "/"
      (fun _ => 1000%Z)
      [ ("/a", {| sizeMap := []; timestamp := 0 |});
        ("/a/b", {| sizeMap := []; timestamp := 0 |});
        ("/a/b/c", {| sizeMap := []; timestamp := 0 |}) ]
      "/a/b/c/d" "/a" "/a/b".
Proof.
unfold deeperOfTwoReturned. intros H.
assert (Hfalse : Some "/a/b/c" = Some "/a/b"); [|discriminate].
apply H.
- exists 0, {| sizeMap := []; timestamp := 0 |}. split; reflexivity.
- exists 1, {| sizeMap := []; timestamp := 0 |}. split; reflexivity.
- reflexivity.
- reflexivity.
Qed.

(** *** The [Map] operations *)

Module JsMapFacts.
Import JsMap.

Section WithValues.
Variable V : Type.
Implicit Types (m : JsMap.t V) (k : string) (v : V).

Lemma get_In m k v : get m k = Some v -> In (k, v) m.
Proof.
induction m as [|[k' v'] m IH]; simpl; [discriminate|].
destruct (String.eqb_spec k' k) as [->|Hne].
- intros [= ->]. now left.
- intros H. right. now apply IH.
Qed.

Lemma get_None_notin m k : get m k = None -> ~ In k (keys m).
Proof.
induction m as [|[k' v'] m IH]; simpl; [tauto|].
destruct (String.eqb_spec k' k) as [->|Hne]; [discriminate|].
intros H [Heq|Hin]; [congruence | now apply IH].
Qed.

Lemma In_get m k v : wf m -> In (k, v) m -> get m k = Some v.
Proof.
unfold wf. induction m as [|[k' v'] m IH]; simpl; [tauto|].
intros Hnd [Heq|Hin].
- injection Heq as -> ->. now rewrite String.eqb_refl.
- inversion Hnd as [|? ? Hnotin Hnd']; subst.
  destruct (String.eqb_spec k' k) as [->|Hne].
  + exfalso. apply Hnotin. change k with (fst (k, v)). now apply in_map.
  + now apply IH.
Qed.

Lemma has_get m k : has m k = true <-> exists v, get m k = Some v.
Proof.
unfold has. destruct (get m k) as [v|]; split; try discriminate; eauto.
intros [v H]; discriminate.
Qed.

Lemma get_delete_same m k : get (delete m k) k = None.
Proof.
unfold delete. induction m as [|[k' v'] m IH]; simpl; [reflexivity|].
destruct (String.eqb_spec k' k) as [->|Hne]; simpl; [assumption|].
destruct (String.eqb_spec k' k); [contradiction | assumption].
Qed.

Lemma get_delete_other m k k' : k' <> k -> get (delete m k) k' = get m k'.
Proof.
unfold delete. intros Hne. induction m as [|[k0 v0] m IH]; simpl; [reflexivity|].
destruct (String.eqb_spec k0 k) as [->|Hne0]; simpl.
- destruct (String.eqb_spec k k'); [congruence | assumption].
- now rewrite IH.
Qed.

Lemma delete_absent m k : get m k = None -> delete m k = m.
Proof.
unfold delete. induction m as [|[k' v'] m IH]; simpl; [reflexivity|].
destruct (String.eqb_spec k' k) as [->|Hne]; simpl; [discriminate|].
intros H. now rewrite IH.
Qed.

Lemma get_set_same m k v : get (set m k v) k = Some v.
Proof.
induction m as [|[k' v'] m IH]; simpl.
- now rewrite String.eqb_refl.
- destruct (String.eqb_spec k' k) as [->|Hne]; simpl.
  + now rewrite String.eqb_refl.
  + destruct (String.eqb_spec k' k); [contradiction | assumption].
Qed.

Lemma get_set_other m k k' v : k' <> k -> get (set m k v) k' = get m k'.
Proof.
intros Hne. induction m as [|[k0 v0] m IH]; simpl.
- destruct (String.eqb_spec k k'); [congruence | reflexivity].
- destruct (String.eqb_spec k0 k) as [->|Hne0]; simpl.
  + destruct (String.eqb_spec k k'); [congruence | reflexivity].
  + now rewrite IH.
Qed.

Lemma keys_set m k v :
  keys (set m k v) = if has m k then keys m else (keys m ++ [k])%list.
Proof.
unfold has. induction m as [|[k' v'] m IH]; simpl; [reflexivity|].
destruct (String.eqb_spec k' k) as [->|Hne]; simpl; [reflexivity|].
rewrite IH. now destruct (get m k).
Qed.

(** The operations keep the representation invariant. *)
Lemma wf_empty : wf (@empty V).
Proof. constructor. Qed.

Lemma wf_delete m k : wf m -> wf (delete m k).
Proof.
unfold wf, delete, keys. induction m as [|[k' v'] m IH]; simpl; [auto|].
intros Hnd. inversion Hnd as [|? ? Hnotin Hnd']; subst.
destruct (negb (k' =? k)); simpl; [|now apply IH].
constructor; [|now apply IH].
intros Hin. apply Hnotin. apply in_map_iff in Hin as [e [He Hin]].
apply filter_In in Hin as [Hin _]. apply in_map_iff. eauto.
Qed.

Lemma wf_set m k v : wf m -> wf (set m k v).
Proof.
unfold wf. intros Hnd. rewrite keys_set.
destruct (has m k) eqn:Hh; [assumption|].
apply NoDup_app; [assumption | repeat constructor; simpl; tauto |].
intros k' Hin [<-|[]].
unfold has in Hh. destruct (get m k) eqn:Hg; [discriminate|].
now apply get_None_notin in Hg.
Qed.

Lemma filter_filter (f g : string * V -> bool) m :
  filter f (filter g m) = filter (fun e => g e && f e) m.
Proof.
induction m as [|e m IH]; simpl; [reflexivity|].
destruct (g e); simpl; [|assumption].
destruct (f e); now rewrite IH.
Qed.

Lemma fold_delete (ks : list string) m :
  fold_left (fun c k => delete c k) ks m
  = filter (fun e => negb (existsb (String.eqb (fst e)) ks)) m.
Proof.
revert m; induction ks as [|k ks IH]; intros m; simpl.
- induction m as [|e m IHm]; simpl; [reflexivity | now rewrite <- IHm].
- rewrite IH. unfold delete. rewrite filter_filter.
  apply filter_ext. intros e. now rewrite negb_orb.
Qed.

End WithValues.
End JsMapFacts.

(** *** Invalidation: [invalidateDuCache] *)

Section Invalidation.
Import JsMapFacts.

Variable cwd : string.

Lemma collect_roots (f : string -> bool) (cache : Cache) (acc : list string) :
  fold_left
    (fun (toDelete : list string) (entry : string * CacheData) =>
       if f (fst entry) then (toDelete ++ [fst entry])%list else toDelete)
    cache acc
  = (acc ++ map fst (filter (fun e => f (fst e)) cache))%list.
Proof.
revert acc; induction cache as [|e cache IH]; intros acc; simpl.
- now rewrite List.app_nil_r.
- rewrite IH. destruct (f (fst e)); simpl; [|reflexivity].
  now rewrite <- List.app_assoc.
Qed.

Lemma delete_collected (f : string -> bool) (cache : Cache) :
  fold_left (fun c k => JsMap.delete c k)
            (map fst (filter (fun e => f (fst e)) cache)) cache
  = filter (fun e => negb (f (fst e))) cache.
Proof.
rewrite fold_delete. apply filter_ext_in. intros e He. f_equal.
destruct (f (fst e)) eqn:Hf.
- apply existsb_exists. exists (fst e). split; [|apply String.eqb_refl].
  apply in_map. apply filter_In. now split.
- destruct (existsb _ _) eqn:Hex; [|reflexivity].
  apply existsb_exists in Hex as [k [Hin Hk]].
  apply String.eqb_eq in Hk. subst k.
  apply in_map_iff in Hin as [e' [He' Hin]].
  apply filter_In in Hin as [_ Hf']. simpl in Hf'.
  rewrite He' in Hf'. congruence.
Qed.

(** What the two loops of [invalidateDuCache] amount to: the records whose
    root passes the program's test go, the others stay as they are, in
    their order. *)
Lemma invalidateDuCache_filter (cache : Cache) (t : string) :
  invalidateDuCache cwd cache t
  = filter
      (fun e => negb (invalidates (normalizePath cwd t)
                                  (normalizePath cwd (fst e))))
      cache.
Proof.
unfold invalidateDuCache.
rewrite (collect_roots
           (fun root => invalidates (normalizePath cwd t)
                                    (normalizePath cwd root))).
simpl.
apply (delete_collected
         (fun root => invalidates (normalizePath cwd t)
                                  (normalizePath cwd root))).
Qed.

(** Invalidating a path that no cached root matches changes nothing. *)
Lemma invalidateDuCache_noop (cache : Cache) (t : string) :
  (forall root d, In (root, d) cache ->
                  invalidates (normalizePath cwd t) (normalizePath cwd root) = false) ->
  invalidateDuCache cwd cache t = cache.
Proof.
intros H. rewrite invalidateDuCache_filter.
induction cache as [|[root d] cache IH]; simpl; [reflexivity|].
rewrite (H root d (or_introl eq_refl)). simpl. f_equal.
apply IH. intros root' d' Hin. apply (H root' d'). now right.
Qed.

End Invalidation.

(** C2, where the code departs from it.  A record rooted at [/] is above
    every target, and every root is below the target [/]; in both cases
    [invalidateDuCache] leaves the record in the cache, because it tests
    against the normalized path followed by the separator, which for [/]
    is [//].  Away from [/] it does what the property says: the example of
    the specification comes out right. *)
Theorem invalidateDuCache_misses_root_directory :
  forall (cwd : string) (d : CacheData),
    (Path.liesBeneath "/" "/home/u/notes.txt" = true
     /\ related (normalizePath cwd "/home/u/notes.txt") (normalizePath cwd "/")
        = true
     /\ invalidateDuCache cwd [("/", d)] "/home/u/notes.txt" = [("/", d)])
    /\
    (Path.liesBeneath "/" "/home/u" = true
     /\ related (normalizePath cwd "/") (normalizePath cwd "/home/u") = true
     /\ invalidateDuCache cwd [("/home/u", d)] "/" = [("/home/u", d)])
    /\
    invalidateDuCache cwd [("/a", d); ("/a/b/c", d); ("/x", d)] "/a/b"
    = [("/x", d)].
Proof.
intros cwd d. repeat split; reflexivity.
Qed.

(** *** Expiry *)

Section Expiry.
Import JsMapFacts.

Variable cwd : string.

Lemma isDuCacheValid_expired (cache : Cache) (r : string) (d : CacheData) (now : Z) :
  JsMap.get cache r = Some d ->
  (CACHE_EXPIRY <= now - timestamp d)%Z ->
  isDuCacheValid cache now r = (false, JsMap.delete cache r).
Proof.
intros Hg Hexp. unfold isDuCacheValid, JsMap.has. rewrite Hg. simpl.
destruct (Z.ltb_spec (now - timestamp d) CACHE_EXPIRY); [lia | reflexivity].
Qed.

Lemma isDuCacheValid_absent (cache : Cache) (r : string) (now : Z) :
  JsMap.get cache r = None ->
  isDuCacheValid cache now r = (false, cache).
Proof.
intros Hg. unfold isDuCacheValid, JsMap.has. now rewrite Hg.
Qed.

Lemma isDuCacheValid_valid (cache : Cache) (r : string) (d : CacheData) (now : Z) :
  JsMap.get cache r = Some d ->
  (now - timestamp d < CACHE_EXPIRY)%Z ->
  isDuCacheValid cache now r = (true, cache).
Proof.
intros Hg Hv. unfold isDuCacheValid, JsMap.has. rewrite Hg. simpl.
destruct (Z.ltb_spec (now - timestamp d) CACHE_EXPIRY); [reflexivity | lia].
Qed.

(** After a validity check that fails, the cache has no record for the
    root and every other key is as before. *)
Lemma isDuCacheValid_false (cache : Cache) (r : string) (now : Z) :
  fst (isDuCacheValid cache now r) = false ->
  JsMap.get (snd (isDuCacheValid cache now r)) r = None
  /\ (forall k, k <> r ->
                JsMap.get (snd (isDuCacheValid cache now r)) k = JsMap.get cache k)
  /\ (JsMap.get cache r = None -> snd (isDuCacheValid cache now r) = cache).
Proof.
unfold isDuCacheValid, JsMap.has.
destruct (JsMap.get cache r) as [d|] eqn:Hg; simpl.
- destruct (now - timestamp d <? CACHE_EXPIRY)%Z; simpl; [discriminate|].
  intros _. split; [apply get_delete_same|]. split; [|discriminate].
  intros k Hk. now apply get_delete_other.
- intros _. repeat split; auto.
Qed.

(** C3.  A record whose timestamp is 3600 seconds old or older at the time
    of access is never handed out: [isDuCacheValid] answers [false] and
    deletes it, so [getAllDirectorySizes] starts a fresh scan and whatever
    the cache holds for the root afterwards carries a new timestamp; and
    [findCachedRoot] passes over it, whatever the query, without touching
    the cache. *)
Theorem expired_record_never_returned :
  forall (cache : Cache) (r : string) (d : CacheData) (now : Z),
    JsMap.wf cache ->
    JsMap.get cache r = Some d ->
    (3600 * 1000 <= now - timestamp d)%Z ->
    isDuCacheValid cache now r = (false, JsMap.delete cache r)
    /\ JsMap.get (JsMap.delete cache r) r = None
    /\ (forall full fallback,
           let got := getAllDirectorySizes cache now r full fallback in
           hd_error (scans got) = Some (r, true)
           /\ forall d', JsMap.get (cacheAfter got) r = Some d' ->
                         (timestamp d' = finishedAt full
                          /\ outcome full = Scan.Resolved (sizeMap d'))
                         \/ (timestamp d' = finishedAt fallback
                             /\ outcome fallback = Scan.Resolved (sizeMap d')))
    /\ (forall clock p,
           (forall i, (now <= clock i)%Z) ->
           findCachedRoot cwd clock cache p <> Some r).
Proof.
intros cache r d now Hwf Hg Hexp.
assert (Hexp' : (CACHE_EXPIRY <= now - timestamp d)%Z)
  by (unfold CACHE_EXPIRY; lia).
pose proof (isDuCacheValid_expired cache r d now Hg Hexp') as Hinv.
split; [assumption|]. split; [apply get_delete_same|]. split.
- intros full fallback got. subst got. unfold getAllDirectorySizes.
  rewrite Hinv.
  destruct (outcome full) as [m|msg] eqn:Ho.
  + simpl. split; [reflexivity|]. intros d'. rewrite get_set_same.
    intros [= <-]. left. now split.
  + destruct (wantsFallback msg).
    * destruct (outcome fallback) as [m|msg'] eqn:Hf; simpl.
      -- split; [reflexivity|]. intros d'. rewrite get_set_same.
         intros [= <-]. right. now split.
      -- split; [reflexivity|]. intros d'. rewrite get_delete_same. discriminate.
    * simpl. split; [reflexivity|]. intros d'. rewrite get_delete_same.
      discriminate.
- intros clock p Hclock Hres.
  apply findCachedRoot_Some_spec in Hres as ((j & d' & Hj & Hv) & _).
  apply nth_error_In in Hj. apply (In_get _ _ _ _ Hwf) in Hj.
  rewrite Hg in Hj. injection Hj as <-.
  unfold validAt in Hv. apply Z.ltb_lt in Hv.
  specialize (Hclock j). lia.
Qed.

End Expiry.

Lemma expired_record_never_returned_witness :
  let d := {| sizeMap := [("/a/b", JsNum.Int 4096)]; timestamp := 1000 |} in
  let cache : Cache := [("/a", d)] in
  JsMap.wf cache
  /\ JsMap.get cache "/a" = Some d
  /\ (3600 * 1000 <= 3601000 - timestamp d)%Z
  /\ isDuCacheValid cache 3601000 "/a" = (false, JsMap.delete cache "/a")
  /\ findCachedRoot "/" (fun i => (3601000 + Z.of_nat i)%Z) cache "/a/b"
     <> Some "/a".
Proof.
intros d cache.
assert (Hwf : JsMap.wf cache) by (repeat constructor; simpl; tauto).
assert (Hget : JsMap.get cache "/a" = Some d) by reflexivity.
assert (Hold : (3600 * 1000 <= 3601000 - timestamp d)%Z) by (simpl; lia).
destruct (expired_record_never_returned "/" cache "/a" d 3601000%Z Hwf Hget Hold)
  as (H1 & _ & _ & H4).
split; [exact Hwf|]. split; [exact Hget|]. split; [exact Hold|].
split; [exact H1|]. apply H4. intros i. lia.
Defined.

(** *** The streaming parser *)

Module ScanFacts.
Import JsString Scan ScanSpec.

(** **** Cutting a stream into lines *)

Lemma cut_no_newline (s : string) :
  indexOf newline s = None -> cut s = ([], s).
Proof.
induction s as [|c s IH]; simpl; [reflexivity|].
destruct (Ascii.eqb c newline); [discriminate|].
destruct (indexOf newline s); [discriminate|].
intros _. now rewrite IH.
Qed.

Lemma cut_at_newline (s : string) (i : nat) :
  indexOf newline s = Some i ->
  cut s = (sliceTo i s :: completeLines (sliceFrom (i + 1) s),
           remainder (sliceFrom (i + 1) s))
  /\ String.length (sliceFrom (i + 1) s) < String.length s.
Proof.
unfold completeLines, remainder.
revert i; induction s as [|c s IH]; intros i; simpl; [discriminate|].
destruct (Ascii.eqb c newline) eqn:Hc.
- intros [= <-]. simpl. destruct (cut s) as [ls rest]. split; [reflexivity|lia].
- destruct (indexOf newline s) as [i'|]; [|discriminate].
  intros [= <-]. destruct (IH i' eq_refl) as [Hcut Hlen].
  rewrite Hcut. simpl. split; [reflexivity|lia].
Qed.

Lemma cut_app (a b : string) :
  cut (a ++ b)
  = (completeLines a ++ completeLines (remainder a ++ b),
     remainder (remainder a ++ b))%list.
Proof.
unfold completeLines, remainder.
induction a as [|c a IH]; simpl.
- now destruct (cut b).
- rewrite IH. destruct (cut a) as [la ra]. simpl.
  destruct (cut (ra ++ b)) as [lb rb] eqn:Hb. simpl.
  destruct (Ascii.eqb c newline) eqn:Hc; simpl.
  + rewrite Hb. reflexivity.
  + destruct la as [|l la]; simpl.
    * rewrite Hb, Hc. now destruct lb.
    * rewrite Hb. reflexivity.
Qed.

Lemma indexOf_remainder (s : string) : indexOf newline (remainder s) = None.
Proof.
unfold remainder. induction s as [|c s IH]; simpl; [reflexivity|].
destruct (cut s) as [ls rest]. simpl in IH.
destruct (Ascii.eqb c newline) eqn:Hc; simpl; [assumption|].
destruct ls; simpl; [|assumption].
now rewrite Hc, IH.
Qed.

Lemma cut_remainder (s : string) : cut (remainder s) = ([], remainder s).
Proof. apply cut_no_newline, indexOf_remainder. Qed.

Lemma completeLines_app (a b : string) :
  completeLines (a ++ b)
  = (completeLines a ++ completeLines (remainder a ++ b))%list.
Proof. unfold completeLines at 1. now rewrite cut_app. Qed.

Lemma remainder_app (a b : string) :
  remainder (a ++ b) = remainder (remainder a ++ b).
Proof. unfold remainder at 1. now rewrite cut_app. Qed.

(** **** The handlers and the fields they leave alone *)

Lemma setBuffer_same (st : State) : setBuffer st (buffer st) = st.
Proof. now destruct st. Qed.

Lemma setBuffer_twice (st : State) (b b' : string) :
  setBuffer (setBuffer st b) b' = setBuffer st b'.
Proof. reflexivity. Qed.

Lemma processLine_setBuffer (st : State) (b line : string) :
  processLine (setBuffer st b) line = setBuffer (processLine st line) b.
Proof.
unfold processLine. destruct (negb (trim line =? "")); [|reflexivity].
destruct (split tab line) as [|f [|p more]]; reflexivity.
Qed.

Lemma fold_processLine_setBuffer (ls : list string) (st : State) (b : string) :
  fold_left processLine ls (setBuffer st b)
  = setBuffer (fold_left processLine ls st) b.
Proof.
revert st; induction ls as [|l ls IH]; intros st; simpl; [reflexivity|].
now rewrite processLine_setBuffer, IH.
Qed.

Lemma processLine_buffer (st : State) (line : string) :
  buffer (processLine st line) = buffer st.
Proof.
unfold processLine. destruct (negb (trim line =? "")); [|reflexivity].
destruct (split tab line) as [|f [|p more]]; reflexivity.
Qed.

(** The loop of the [data] handler runs to completion on the fuel it is
    given: it handles every complete line of the buffer, in order, and
    leaves what follows the last newline. *)
Lemma drain_spec (fuel : nat) :
  forall st,
    String.length (buffer st) <= fuel ->
    drain fuel st
    = setBuffer (fold_left processLine (completeLines (buffer st)) st)
                (remainder (buffer st)).
Proof.
induction fuel as [|fuel IH]; intros st Hlen.
- destruct st as [m b n t cp pr tm k pg]; simpl in *.
  destruct b; simpl in *; [reflexivity | lia].
- simpl. destruct (indexOf newline (buffer st)) as [i|] eqn:Hi.
  + destruct (cut_at_newline _ _ Hi) as [Hcut Hlt].
    rewrite IH by (rewrite processLine_buffer; simpl; lia).
    rewrite processLine_buffer. simpl.
    unfold completeLines at 2, remainder at 2. rewrite Hcut. simpl.
    rewrite processLine_setBuffer, fold_processLine_setBuffer.
    reflexivity.
  + unfold completeLines, remainder. rewrite (cut_no_newline _ Hi). simpl.
    now rewrite setBuffer_same.
Qed.

(** What one line does to the parser's part of the state depends on that
    part only. *)
Lemma processLine_parsed (st st' : State) (line : string) :
  parsed st = parsed st' ->
  parsed (processLine st line) = parsed (processLine st' line).
Proof.
unfold parsed, processLine. intros [= Hm Hn Hp].
destruct (negb (trim line =? "")); [|congruence].
destruct (split tab line) as [|f [|p more]]; simpl; congruence.
Qed.

Lemma fold_processLine_parsed (ls : list string) (st st' : State) :
  parsed st = parsed st' ->
  parsed (fold_left processLine ls st) = parsed (fold_left processLine ls st').
Proof.
revert st st'; induction ls as [|l ls IH]; intros st st' H; simpl; [assumption|].
apply IH. now apply processLine_parsed.
Qed.

Lemma fold_processLine_frame (ls : list string) (st : State) :
  let st' := fold_left processLine ls st in
  promise st' = promise st /\ timeout st' = timeout st
  /\ killed st' = killed st /\ progress st' = progress st
  /\ lastProgressTime st' = lastProgressTime st.
Proof.
revert st; induction ls as [|l ls IH]; intros st; simpl; [repeat split|].
destruct (IH (processLine st l)) as (H1 & H2 & H3 & H4 & H5).
rewrite H1, H2, H3, H4, H5. unfold processLine.
destruct (negb (trim l =? "")); [|repeat split].
destruct (split tab l) as [|f [|p more]]; repeat split.
Qed.

(** The [data] handler: the parser's part of the state afterwards, and the
    fields it never writes. *)
Lemma onStdoutData_spec (onProgress : bool) (st : State) (data : string) (now : Z) :
  let st' := onStdoutData onProgress st data now in
  parsed st' = parsed (fold_left processLine (completeLines (buffer st ++ data)) st)
  /\ buffer st' = remainder (buffer st ++ data)
  /\ promise st' = promise st /\ timeout st' = timeout st
  /\ killed st' = killed st.
Proof.
unfold onStdoutData. rewrite drain_spec by (simpl; lia). simpl buffer.
set (ls := completeLines (buffer st ++ data)).
set (rem := remainder (buffer st ++ data)).
rewrite fold_processLine_setBuffer.
destruct (fold_processLine_frame ls st) as (H1 & H2 & H3 & _ & _).
destruct (onProgress && _); simpl; repeat split; auto.
Qed.

End ScanFacts.

(** *** Runs of the scan *)

Module RunFacts.
Import JsString JsStringFacts Scan ScanSpec ScanFacts.

Lemma fireDue_parsed (now : Z) (st : State) :
  parsed (fireDue now st) = parsed st /\ buffer (fireDue now st) = buffer st.
Proof.
unfold fireDue. destruct (timeout st) as [due|]; [|now split].
destruct (due <=? now)%Z; [|now split].
unfold onTimeout, settle, kill, clearTimeout; simpl.
destruct (promise st); now split.
Qed.

Lemma fireDue_idle (now : Z) (st : State) :
  timeout st = None -> fireDue now st = st.
Proof. unfold fireDue. now intros ->. Qed.

Lemma fireDue_early (now due : Z) (st : State) :
  timeout st = Some due -> (now < due)%Z -> fireDue now st = st.
Proof.
unfold fireDue. intros -> H.
destruct (Z.leb_spec due now); [lia | reflexivity].
Qed.

(** When the pending timer comes due, the child is killed and the promise,
    if still open, is rejected with the time-out message. *)
Lemma fireDue_late (now due : Z) (st : State) :
  timeout st = Some due -> (due <= now)%Z ->
  let st' := fireDue now st in
  killed st' = true
  /\ timeout st' = None
  /\ (promise st = None -> promise st' = Some (Rejected timedOutMessage))
  /\ (promise st <> None -> promise st' = promise st).
Proof.
unfold fireDue. intros -> H.
destruct (Z.leb_spec due now); [|lia].
unfold onTimeout, settle, kill, clearTimeout; simpl.
destruct (promise st); simpl; repeat split; congruence.
Qed.

(** While the child only writes, the parser has seen exactly the complete
    lines of the text received so far, wherever one chunk's string ended
    and the next began, and the buffer holds the unfinished line. *)
Lemma run_writes_parsed (rootPath : string) (onProgress : bool)
      (trace : list Occurrence) :
  forall st,
    forallb onlyWrites trace = true ->
    cut (buffer st) = ([], buffer st) ->
    let st' := fold_left (step rootPath onProgress) trace st in
    parsed st'
    = parsed (fold_left processLine
                        (completeLines (buffer st ++ stdoutOf trace)) st)
    /\ buffer st' = remainder (buffer st ++ stdoutOf trace).
Proof.
induction trace as [|o trace IH]; intros st Hw Hcut; cbv zeta.
- simpl. rewrite app_empty_r. unfold completeLines, remainder.
  rewrite Hcut. now split.
- cbn [fold_left]. simpl in Hw. apply andb_true_iff in Hw as [Ho Hw].
  destruct (fireDue_parsed (time o) st) as [Hfp Hfb].
  set (d := match event o with Stdout data => data | _ => "" end).
  assert (Hd : stdoutOf (o :: trace) = d ++ stdoutOf trace).
  { subst d. simpl. now destruct (event o). }
  assert (H1 : parsed (step rootPath onProgress st o)
               = parsed (fold_left processLine (completeLines (buffer st ++ d)) st)
               /\ buffer (step rootPath onProgress st o)
                  = remainder (buffer st ++ d)).
  { subst d. unfold step, handle, onlyWrites in *.
    destruct (event o) as [data|data|code|msg]; try discriminate.
    - destruct (onStdoutData_spec onProgress (fireDue (time o) st) data (time o))
        as (Hp & Hb & _).
      rewrite Hfb in Hp, Hb. split; [|assumption].
      rewrite Hp. now apply fold_processLine_parsed.
    - rewrite app_empty_r. unfold completeLines, remainder. rewrite Hcut.
      simpl. now split. }
  destruct H1 as [Hp Hb].
  rewrite Hd.
  replace (buffer st ++ d ++ stdoutOf trace)
    with ((buffer st ++ d) ++ stdoutOf trace) by apply app_assoc.
  destruct (IH (step rootPath onProgress st o) Hw) as [Hp' Hb'].
  { rewrite Hb. apply cut_remainder. }
  rewrite Hb in Hp', Hb'. split.
  + rewrite Hp'.
    rewrite (completeLines_app (buffer st ++ d)), fold_left_app.
    now apply fold_processLine_parsed.
  + rewrite Hb'. now rewrite (remainder_app (buffer st ++ d)).
Qed.

(** While the child only writes and the deadline has not come, the promise
    stays open, the timer pending and the child alive. *)
Lemma run_writes_open (rootPath : string) (onProgress : bool) (due : Z)
      (trace : list Occurrence) :
  forall st,
    forallb (writesBefore due) trace = true ->
    timeout st = Some due -> promise st = None -> killed st = false ->
    let st' := fold_left (step rootPath onProgress) trace st in
    timeout st' = Some due /\ promise st' = None /\ killed st' = false.
Proof.
induction trace as [|o trace IH]; intros st Hw Ht Hp Hk; simpl; [auto|].
simpl in Hw. apply andb_true_iff in Hw as [Ho Hw].
apply IH; auto; unfold step, handle, writesBefore in *;
  destruct (event o) as [data|data|code|msg]; try discriminate;
  apply Z.ltb_lt in Ho; rewrite (fireDue_early _ _ _ Ht Ho); auto;
  destruct (onStdoutData_spec onProgress st data (time o))
    as (_ & _ & H1 & H2 & H3); congruence.
Qed.

Lemma writesBefore_onlyWrites (due : Z) (trace : list Occurrence) :
  forallb (writesBefore due) trace = true -> forallb onlyWrites trace = true.
Proof.
induction trace as [|o trace IH]; simpl; [auto|].
intros H. apply andb_true_iff in H as [Ho H]. rewrite (IH H), andb_true_r.
unfold writesBefore, onlyWrites in *. now destruct (event o).
Qed.

Lemma flush_frame (st : State) :
  promise (flush st) = promise st /\ timeout (flush st) = timeout st
  /\ killed (flush st) = killed st /\ progress (flush st) = progress st.
Proof.
unfold flush. destruct (negb (trim (buffer st) =? "")); [|repeat split].
destruct (split tab (trim (buffer st))) as [|f [|p more]]; repeat split.
Qed.

(** The [close] handlers on an open promise. *)
Lemma onClose_open (rootPath : string) (onProgress : bool) (st : State)
      (code : option Z) :
  promise st = None ->
  let st' := onClose rootPath onProgress st code in
  timeout st' = None
  /\ killed st' = killed st
  /\ promise st'
     = Some (match code with
             | Some 0%Z => Resolved (sizeMap (flush st))
             | _ => Rejected (failedMessage code)
             end)
  /\ progress st'
     = (progress st
        ++ match code with
           | Some 0%Z =>
               if onProgress
               then [ {| processedFiles := lineCount (flush st);
                         progressPath := rootPath;
                         isComplete := true |} ]
               else []
           | _ => []
           end)%list.
Proof.
intros Hp. destruct (flush_frame st) as (H1 & H2 & H3 & H4).
rewrite Hp in H1. unfold onClose.
destruct code as [[| |]|]; destruct onProgress; unfold settle; simpl;
  rewrite ?H1; simpl; rewrite ?H3, ?H4, ?List.app_nil_r; repeat split.
Qed.

(** Once the timer is cleared nothing sets it again: it never fires, and a
    settled promise keeps its outcome. *)
Lemma run_timer_cleared (rootPath : string) (onProgress : bool)
      (trace : list Occurrence) :
  forall st,
    timeout st = None ->
    let st' := fold_left (step rootPath onProgress) trace st in
    timeout st' = None /\ killed st' = killed st
    /\ (promise st <> None -> promise st' = promise st).
Proof.
induction trace as [|o trace IH]; intros st Ht; simpl; [auto|].
assert (Hstep : timeout (step rootPath onProgress st o) = None
                /\ killed (step rootPath onProgress st o) = killed st
                /\ (promise st <> None ->
                    promise (step rootPath onProgress st o) = promise st)).
{ unfold step, handle. rewrite (fireDue_idle _ _ Ht).
  destruct (event o) as [data|data|code|msg].
  - destruct (onStdoutData_spec onProgress st data (time o))
      as (_ & _ & H1 & H2 & H3). repeat split; congruence.
  - auto.
  - destruct (flush_frame st) as (H1 & H2 & H3 & H4).
    unfold onClose. destruct (flush st) as [m b n t cp pr tm k pg].
    simpl in H1, H3. subst pr k.
    destruct code as [[| |]|]; destruct onProgress; unfold settle; simpl;
      destruct (promise st) eqn:Hp; simpl; repeat split; intros; congruence.
  - unfold onError, settle.
    destruct (promise st) eqn:Hp; simpl; repeat split; intros; congruence. }
destruct Hstep as (H1 & H2 & H3).
destruct (IH _ H1) as (H1' & H2' & H3').
split; [assumption|]. split; [congruence|].
intros Hne. rewrite H3'; [now apply H3 | rewrite H3; assumption].
Qed.

End RunFacts.

(** *** Numbers and their decimal form *)

Module JsNumFacts.
Import JsString JsNum ScanSpec.

Lemma digit10_decimal (c : ascii) :
  digit10 c
  = if isDecimalDigit c then Some (Z.of_nat (nat_of_ascii c - 48)) else None.
Proof. reflexivity. Qed.

Lemma readDigits_decimal (s : string) :
  forall acc,
    allChars isDecimalDigit s = true ->
    readDigits digit10 10 s acc true = Some (decimalValue acc s).
Proof.
induction s as [|c s IH]; intros acc H; simpl in *; [reflexivity|].
apply andb_true_iff in H as [Hc H]. rewrite digit10_decimal, Hc.
now apply IH.
Qed.

(** A digit is no white space, no sign, and is not followed by [x]. *)
Lemma digit_plain (c : ascii) :
  isDecimalDigit c = true ->
  isWhiteSpace c = false /\ c <> "-"%char /\ c <> "+"%char
  /\ c <> "x"%char /\ c <> "X"%char /\ c <> Scan.tab.
Proof.
destruct c as [[] [] [] [] [] [] [] []]; try discriminate;
  intros _; repeat split; discriminate.
Qed.

(** [parseInt] on a string of decimal digits gives the number they
    denote. *)
Lemma parseInt_decimal (s : string) :
  isSizeField s = true -> parseInt s = Int (decimalValue 0 s).
Proof.
unfold isSizeField. intros H. apply andb_true_iff in H as [Hne Hall].
destruct s as [|c s]; [discriminate|]. simpl in Hall.
pose proof Hall as Hall'.
apply andb_true_iff in Hall as [Hc Hs].
assert (Hread : readDigits digit10 10 (String c s) 0 false
                = Some (decimalValue 0 (String c s))).
{ simpl. rewrite digit10_decimal, Hc. now apply readDigits_decimal. }
destruct (digit_plain c Hc) as (Hw & Hm & Hp & _).
unfold parseInt. simpl trimStart. rewrite Hw.
assert (Hsign : match String c s with
                | String "-" r => ((-1)%Z, r)
                | String "+" r => (1%Z, r)
                | _ => (1%Z, String c s)
                end = (1%Z, String c s)).
{ destruct c as [[] [] [] [] [] [] [] []]; try reflexivity; congruence. }
rewrite Hsign.
assert (Hradix : match String c s with
                 | String "0" (String "x" r) => (digit16, 16%Z, r)
                 | String "0" (String "X" r) => (digit16, 16%Z, r)
                 | _ => (digit10, 10%Z, String c s)
                 end = (digit10, 10%Z, String c s)).
{ destruct s as [|c2 s]; [now destruct c as [[] [] [] [] [] [] [] []]|].
  simpl in Hs. apply andb_true_iff in Hs as [Hc2 _].
  destruct (digit_plain c2 Hc2) as (_ & _ & _ & Hx & HX & _).
  destruct c as [[] [] [] [] [] [] [] []]; try reflexivity;
    destruct c2 as [[] [] [] [] [] [] [] []]; try reflexivity; congruence. }
rewrite Hradix, Hread. f_equal. now destruct (decimalValue 0 (String c s)).
Qed.






End JsNumFacts.

(** *** Searching inside a message *)

Module IncludesFacts.
Import JsString ScanSpec.

Section Alphabet.
Variable P : ascii -> bool.



End Alphabet.


End IncludesFacts.

(** *** Chunks and their text *)

Module BufferFacts.
Import Buffer.

Lemma run_app (a b : list N) :
  forall pending,
    run pending (a ++ b)%list
    = ((fst (run pending a) ++ fst (run (snd (run pending a)) b))%list,
       snd (run (snd (run pending a)) b)).
Proof.
induction a as [|x a IH]; intros pending.
- cbn [run app fst snd]. now destruct (run pending b).
- cbn [run app]. destruct (next pending x) as [out pending'].
  rewrite IH. destruct (run pending' a) as [outa pa]. cbn [fst snd].
  destruct (run pa b) as [outb pb]. cbn [fst snd].
  now rewrite List.app_assoc.
Qed.

(** Where the first part stops between two characters, decoding the
    whole is decoding the parts. *)
Lemma decode_app (a b : list N) :
  snd (run None a) = None ->
  decode (a ++ b)%list = (decode a ++ decode b)%list.
Proof.
intros Ha. unfold decode. rewrite run_app, Ha.
destruct (run None a) as [outa pa]. cbn [fst snd] in *. subst pa.
destruct (run None b) as [outb pb]. cbn [fst snd flush].
now rewrite List.app_nil_r, List.app_assoc.
Qed.

Lemma toString_app (a b : t) :
  endsBetweenCharacters a = true ->
  toString (a ++ b)%list = (toString a ++ toString b)%list.
Proof.
unfold endsBetweenCharacters, toString. intros Ha.
rewrite List.map_app, decode_app, List.flat_map_app; [reflexivity|].
now destruct (snd (run None (map Byte.to_N a))).
Qed.

Lemma toString_nil : toString [] = [].
Proof. reflexivity. Qed.

Lemma toString_concat (chunks : list t) :
  Wire.aligned chunks = true ->
  toString (List.concat chunks) = List.concat (map toString chunks).
Proof.
induction chunks as [|c rest IH]; [reflexivity|].
intros Ha. cbn [List.concat map].
destruct rest as [|c' rest'].
- cbn [List.concat map]. now rewrite !List.app_nil_r.
- cbn [Wire.aligned] in Ha. apply andb_true_iff in Ha as [Hc Hrest].
  rewrite (toString_app _ _ Hc), (IH Hrest). reflexivity.
Qed.

Lemma codeUnits_app (s s' : string) :
  codeUnits (s ++ s') = (codeUnits s ++ codeUnits s')%list.
Proof.
unfold codeUnits. induction s as [|c s IH]; [reflexivity|].
cbn [append list_ascii_of_string map app]. now rewrite IH.
Qed.

(** A string is known by its code units. *)
Lemma codeUnits_inj (s s' : string) : codeUnits s = codeUnits s' -> s = s'.
Proof.
unfold codeUnits. revert s'.
induction s as [|c s IH]; intros [|c' s'] H; cbn in H;
  try discriminate; [reflexivity|].
injection H as Hc Hs. f_equal; [|now apply IH].
rewrite <- (ascii_N_embedding c), <- (ascii_N_embedding c'). now rewrite Hc.
Qed.

Lemma N_of_ascii_of_byte (b : Byte.byte) :
  N_of_ascii (ascii_of_byte b) = Byte.to_N b.
Proof. now destruct b. Qed.

Lemma codeUnits_ofCodeUnits (s : string) :
  map Byte.to_N (ofCodeUnits s) = codeUnits s.
Proof.
unfold ofCodeUnits, codeUnits, list_byte_of_string.
induction (list_ascii_of_string s) as [|c l IH]; [reflexivity|].
cbn [map]. rewrite IH. f_equal.
rewrite <- (N_of_ascii_of_byte (byte_of_ascii c)).
now rewrite ascii_of_byte_of_ascii.
Qed.





(** The text the handler received is the chunks' own texts, one after
    the other. *)
Lemma received_text (wire : list Wire.Occurrence) (trace : list Scan.Occurrence) :
  Wire.received wire trace ->
  codeUnits (ScanSpec.stdoutOf trace)
  = List.concat (map toString (Wire.chunksOf wire)).
Proof.
induction 1 as [|o o' wire trace [_ Ho] _ IH]; [reflexivity|].
cbn [ScanSpec.stdoutOf Wire.chunksOf].
destruct (Wire.event o) as [chunk|chunk|code|message],
         (Scan.event o') as [data|data|code'|message'];
  try contradiction; try exact IH.
cbn [map List.concat]. rewrite codeUnits_app, IH.
unfold Wire.decodedAs in Ho. now rewrite Ho.
Qed.

(** When no chunk stops inside a character, it is the text of what the
    child wrote. *)
Lemma received_whole (wire : list Wire.Occurrence) (trace : list Scan.Occurrence) :
  Wire.received wire trace ->
  Wire.cutsNoCharacter wire = true ->
  Wire.decodedAs (Wire.stdoutOf wire) (ScanSpec.stdoutOf trace).
Proof.
intros Hr Ha. unfold Wire.decodedAs, Wire.stdoutOf.
rewrite (received_text _ _ Hr). now apply toString_concat.
Qed.



End BufferFacts.

(** *** The scan runner: lines, completion, failure, time-out *)

Section ScanRunner.
Import JsString JsStringFacts JsNumFacts Scan ScanSpec ScanFacts RunFacts.


Lemma split_field (a b : string) :
  allChars (fun c => negb (Ascii.eqb c tab)) a = true ->
  split tab (a ++ String tab b) = a :: split tab b.
Proof.
induction a as [|c a IH]; simpl.
- intros _. reflexivity.
- intros H. apply andb_true_iff in H as [Hc H].
  apply negb_true_iff in Hc. rewrite Hc, (IH H). reflexivity.
Qed.

Lemma digits_no_tab (s : string) :
  allChars isDecimalDigit s = true ->
  allChars (fun c => negb (Ascii.eqb c tab)) s = true.
Proof.
induction s as [|c s IH]; simpl; [reflexivity|].
intros H. apply andb_true_iff in H as [Hc H]. rewrite (IH H), andb_true_r.
destruct (digit_plain c Hc) as (_ & _ & _ & _ & _ & Ht).
apply negb_true_iff. now apply Ascii.eqb_neq.
Qed.





End ScanRunner.

Section ScanCompletion.
Import JsString JsStringFacts Scan ScanSpec ScanFacts RunFacts.

Variable rootPath : string.
Variable includeFiles onProgress : bool.
Variable startedAt : Z.

Lemma spawned_open :
  timeout (spawned rootPath startedAt) = Some (startedAt + TIMEOUT_MS)%Z
  /\ promise (spawned rootPath startedAt) = None
  /\ killed (spawned rootPath startedAt) = false.
Proof. repeat split. Qed.

(** A child that writes and then closes before the deadline: the first
    [close] settles the promise, according to the exit code, and clears the
    timer; nothing that follows changes that. *)
Lemma run_until_close (trace later : list Occurrence) (code : option Z)
      (t horizon : Z) :
  forallb (writesBefore (startedAt + TIMEOUT_MS)) trace = true ->
  (t < startedAt + TIMEOUT_MS)%Z ->
  let s1 := fold_left (step rootPath onProgress) trace
                      (spawned rootPath startedAt) in
  let st := executeDuWithProgress rootPath includeFiles onProgress startedAt
              (trace ++ {| time := t; event := Close code |} :: later)
              horizon in
  timeout st = None
  /\ killed st = false
  /\ promise st
     = Some (match code with
             | Some 0%Z => Resolved (sizeMap (flush s1))
             | _ => Rejected (failedMessage code)
             end).
Proof.
intros Hw Ht s1 st. subst st. unfold executeDuWithProgress.
rewrite fold_left_app. fold s1. cbn [fold_left].
destruct spawned_open as (H1 & H2 & H3).
destruct (run_writes_open rootPath onProgress _ trace _ Hw H1 H2 H3)
  as (Htm & Hpr & Hk). fold s1 in Htm, Hpr, Hk.
assert (Hclose : step rootPath onProgress s1 {| time := t; event := Close code |}
                 = onClose rootPath onProgress s1 code).
{ unfold step, handle. simpl. now rewrite (fireDue_early _ _ _ Htm Ht). }
rewrite Hclose.
destruct (onClose_open rootPath onProgress s1 code Hpr) as (Hc1 & Hc2 & Hc3 & _).
destruct (run_timer_cleared rootPath onProgress later _ Hc1) as (Hl1 & Hl2 & Hl3).
rewrite (fireDue_idle _ _ Hl1).
split; [assumption|]. split; [congruence|].
rewrite Hl3; [assumption | rewrite Hc3; discriminate].
Qed.

Lemma onStdoutData_progress (st : State) (data : string) (now : Z) :
  forallb (fun p => negb (isComplete p)) (progress st) = true ->
  forallb (fun p => negb (isComplete p))
          (progress (onStdoutData onProgress st data now)) = true.
Proof.
intros H. unfold onStdoutData. rewrite drain_spec by (simpl; lia).
rewrite fold_processLine_setBuffer.
set (ls := completeLines _).
destruct (fold_processLine_frame ls st) as (_ & _ & _ & Hpg & _).
destruct (onProgress && _); simpl; rewrite Hpg; [|assumption].
rewrite forallb_app, H. reflexivity.
Qed.

Lemma run_writes_progress (trace : list Occurrence) :
  forall st,
    forallb onlyWrites trace = true ->
    forallb (fun p => negb (isComplete p)) (progress st) = true ->
    forallb (fun p => negb (isComplete p))
            (progress (fold_left (step rootPath onProgress) trace st)) = true.
Proof.
induction trace as [|o trace IH]; intros st Hw Hp; simpl; [assumption|].
simpl in Hw. apply andb_true_iff in Hw as [Ho Hw].
apply IH; [assumption|].
assert (Hf : forallb (fun p => negb (isComplete p))
                     (progress (fireDue (time o) st)) = true).
{ unfold fireDue. destruct (timeout st) as [due|]; [|assumption].
  destruct (due <=? time o)%Z; [|assumption].
  unfold onTimeout, settle, kill, clearTimeout; simpl.
  now destruct (promise st). }
unfold step, handle, onlyWrites in *.
destruct (event o); try discriminate; [|assumption].
now apply onStdoutData_progress.
Qed.

Lemma filter_none (ps : list Progress) :
  forallb (fun p => negb (isComplete p)) ps = true ->
  filter isComplete ps = [].
Proof.
induction ps as [|p ps IH]; simpl; [reflexivity|].
intros H. apply andb_true_iff in H as [Hp Hps].
apply negb_true_iff in Hp. rewrite Hp. now apply IH.
Qed.

(** What the flush adds, when trimming leaves the unfinished line as it
    is. *)
Lemma flush_record (st : State) (sizeField filePath : string)
      (more : list string) :
  trim (buffer st) = buffer st ->
  buffer st <> "" ->
  split tab (buffer st) = sizeField :: filePath :: more ->
  sizeMap (flush st)
  = JsMap.set (sizeMap st) filePath (JsNum.mul (JsNum.parseInt sizeField) 1024).
Proof.
intros Ht Hne Hs. unfold flush. rewrite Ht, Hs.
destruct (String.eqb_spec (buffer st) ""); [contradiction | reflexivity].
Qed.

(** A child that writes and exits with code 0 before the deadline: the
    promise resolves with the mapping after the flush of the unfinished
    line, and [onProgress], when given, is called exactly once with
    [isComplete], last of all. *)
Lemma close_zero_resolves (trace : list Occurrence) (t horizon : Z) :
  forallb (writesBefore (startedAt + TIMEOUT_MS)) trace = true ->
  (t < startedAt + TIMEOUT_MS)%Z ->
  let s1 := fold_left (step rootPath onProgress) trace
                      (spawned rootPath startedAt) in
  let st := executeDuWithProgress rootPath includeFiles onProgress startedAt
              (trace ++ [ {| time := t; event := Close (Some 0%Z) |} ])
              horizon in
  promise st = Some (Resolved (sizeMap (flush s1)))
  /\ buffer s1 = remainder (stdoutOf trace)
  /\ parsed s1 = parsed (fold_left processLine (completeLines (stdoutOf trace))
                                   (spawned rootPath startedAt))
  /\ filter isComplete (progress st)
     = if onProgress
       then [ {| processedFiles := lineCount (flush s1);
                 progressPath := rootPath;
                 isComplete := true |} ]
       else [].
Proof.
intros Hw Ht s1 st.
destruct (run_until_close trace [] (Some 0%Z) t horizon Hw Ht) as (Htm & _ & Hpr).
fold s1 st in Htm, Hpr.
destruct (run_writes_parsed rootPath onProgress trace
            (spawned rootPath startedAt)
            (writesBefore_onlyWrites _ _ Hw) eq_refl) as [Hpa Hbu].
fold s1 in Hpa, Hbu. simpl in Hpa, Hbu.
split; [assumption|]. split; [assumption|]. split; [assumption|].
subst st. unfold executeDuWithProgress. rewrite fold_left_app. fold s1.
cbn [fold_left].
destruct spawned_open as (H1 & H2 & H3).
destruct (run_writes_open rootPath onProgress _ trace _ Hw H1 H2 H3)
  as (Htm1 & Hpr1 & _). fold s1 in Htm1, Hpr1.
assert (Hclose : step rootPath onProgress s1
                      {| time := t; event := Close (Some 0%Z) |}
                 = onClose rootPath onProgress s1 (Some 0%Z)).
{ unfold step, handle. simpl. now rewrite (fireDue_early _ _ _ Htm1 Ht). }
rewrite Hclose.
destruct (onClose_open rootPath onProgress s1 (Some 0%Z) Hpr1)
  as (Hc1 & _ & _ & Hc4).
rewrite (fireDue_idle _ _ Hc1), Hc4.
pose proof (run_writes_progress trace (spawned rootPath startedAt)
              (writesBefore_onlyWrites _ _ Hw) eq_refl) as Hpg.
fold s1 in Hpg.
rewrite filter_app, (filter_none _ Hpg). now destruct onProgress.
Qed.

End ScanCompletion.


(** The round trip of the specification: two lines of ASCII, here in two
    chunks. *)
Example scan_round_trip :
  let out := "1024" ++ String Scan.tab "/a/b" ++ String Scan.newline ""
             ++ "2048" ++ String Scan.tab "/a/c" ++ String Scan.newline "" in
  Scan.promise
    (Scan.executeDuWithProgress "/a" true false 0
       [ {| Scan.time := 1; Scan.event := Scan.Stdout (JsString.sliceTo 7 out) |};
         {| Scan.time := 2; Scan.event := Scan.Stdout (JsString.sliceFrom 7 out) |};
         {| Scan.time := 3; Scan.event := Scan.Close (Some 0%Z) |} ]
       4)
  = Some (Scan.Resolved [("/a/b", JsNum.Int 1048576); ("/a/c", JsNum.Int 2097152)]).
Proof. reflexivity. Qed.


(** A chunk boundary inside a character.  The line [8<TAB>/a/e'<LF>], the
    [e'] being U+00E9 written as the bytes C3 A9, is that line when it
    comes in one chunk.  Cut between C3 and A9, each chunk is decoded by
    itself and each half of the letter becomes U+FFFD: the text the
    handler receives is not the text the child wrote (and its first chunk
    is no string of code units below 256). *)
Example chunk_cut_inside_character :
  Wire.decodedAs (WireScenario.accentedHead ++ WireScenario.accentedTail)%list
                 WireScenario.accentedLine
  /\ Buffer.endsBetweenCharacters WireScenario.accentedHead = false
  /\ (Buffer.toString WireScenario.accentedHead
      ++ Buffer.toString WireScenario.accentedTail)%list
     = (Buffer.codeUnits ("8" ++ String Scan.tab "/a/")
        ++ [Buffer.replacement; Buffer.replacement; 10%N])%list
  /\ Buffer.toString (WireScenario.accentedHead ++ WireScenario.accentedTail)%list
     <> (Buffer.toString WireScenario.accentedHead
         ++ Buffer.toString WireScenario.accentedTail)%list
  /\ (forall data, ~ Wire.decodedAs WireScenario.accentedHead data).
Proof.
split; [vm_compute; reflexivity|]. split; [vm_compute; reflexivity|].
split; [vm_compute; reflexivity|]. split; [vm_compute; discriminate|].
intros data H. unfold Wire.decodedAs in H.
assert (Hin : In Buffer.replacement (Buffer.codeUnits data)).
{ rewrite <- H. vm_compute. do 5 right. left. reflexivity. }
unfold Buffer.codeUnits in Hin. apply in_map_iff in Hin as (c & Hc & _).
pose proof (N_ascii_bounded c) as Hb. rewrite Hc in Hb.
vm_compute in Hb. discriminate.
Qed.




(** *** The materializer: [getAllDirectorySizes] and [getDirectoryContents] *)

Section Materializer.
Import JsMapFacts Listing.

Lemma visitEntry_fold (fs : Fs.t) (dirPath : string) (sizes : SizeMap)
      (entries : list string) :
  forall acc,
    fold_left (visitEntry fs dirPath sizes) entries acc
    = (acc ++ listing fs dirPath sizes entries)%list.
Proof.
unfold listing.
induction entries as [|e entries IH]; intros acc; simpl.
- now rewrite List.app_nil_r.
- rewrite IH. unfold visitEntry, visible.
  destruct (JsString.startsWith e "."); simpl; [reflexivity|].
  unfold childOf, lookupSize, JsNum.orZero.
  destruct (Fs.stat fs (NodePath.join dirPath e)) as [stats|err];
    [|reflexivity].
  destruct (Fs.isFile stats); [now rewrite <- List.app_assoc|].
  destruct (Fs.isDirectory stats); [|reflexivity].
  rewrite <- List.app_assoc. simpl.
  now destruct (JsMap.get sizes (NodePath.join dirPath e)) as [[|z]|].
Qed.

Lemma sum_fold (children : list Child.t) :
  forall acc : Z,
    fold_left (fun sum child => (sum + Child.size child)%Z) children acc
    = (acc + totalSize children)%Z.
Proof.
induction children as [|c children IH]; intros acc; simpl; [lia|].
rewrite IH. lia.
Qed.

(** Who is in the listing. *)
Lemma listing_In (fs : Fs.t) (dirPath : string) (sizes : SizeMap)
      (entries : list string) (c : Child.t) :
  In c (listing fs dirPath sizes entries) <->
  exists entry stats,
    In entry entries
    /\ visible entry = true
    /\ Fs.stat fs (NodePath.join dirPath entry) = Fs.Returned stats
    /\ ((Fs.isFile stats = true
         /\ c = {| Child.name := entry;
                   Child.path := NodePath.join dirPath entry;
                   Child.size := Fs.size stats;
                   Child.type := file |})
        \/ (Fs.isFile stats = false /\ Fs.isDirectory stats = true
            /\ c = {| Child.name := entry;
                      Child.path := NodePath.join dirPath entry;
                      Child.size := lookupSize sizes (NodePath.join dirPath entry);
                      Child.type := directory |})).
Proof.
unfold listing. rewrite in_flat_map. split.
- intros (entry & Hin & Hc). apply filter_In in Hin as [Hin Hv].
  unfold childOf in Hc.
  destruct (Fs.stat fs (NodePath.join dirPath entry)) as [stats|err] eqn:Hs;
    [|contradiction].
  exists entry, stats. repeat split; auto.
  destruct (Fs.isFile stats) eqn:Hf.
  + destruct Hc as [<-|[]]. left. now split.
  + destruct (Fs.isDirectory stats) eqn:Hd; [|contradiction].
    destruct Hc as [<-|[]]. right. repeat split.
- intros (entry & stats & Hin & Hv & Hs & Hc).
  exists entry. split; [apply filter_In; now split|].
  unfold childOf. rewrite Hs.
  destruct Hc as [[Hf ->]|(Hf & Hd & ->)]; rewrite Hf; [now left|].
  rewrite Hd. now left.
Qed.

(** How [getDirectoryContents] goes once [dirPath] is a directory that can
    be listed. *)
Lemma getDirectoryContents_listed (cwd : string) (fs : Fs.t) (cache : Cache)
      (clock : nat -> Z) (now : Z) (dirPath : string) (full fallback : ScanRun)
      (stats : Fs.Stats) (entries : list string) :
  Fs.stat fs dirPath = Fs.Returned stats ->
  Fs.isDirectory stats = true ->
  Fs.readdir fs dirPath = Fs.Returned entries ->
  let got := getAllDirectorySizes cache now
               (scanRootFor cwd clock cache dirPath) full fallback in
  getDirectoryContents cwd fs cache clock now dirPath full fallback
  = {| node :=
         {| Node.name := JsString.orElse (NodePath.basename dirPath) dirPath;
            Node.path := dirPath;
            Node.size := totalSize (listing fs dirPath (sizes got) entries);
            Node.type := directory;
            Node.children := listing fs dirPath (sizes got) entries |};
       cacheLeft := cacheAfter got;
       scansRun := scans got |}.
Proof.
intros Hs Hd Hr got. unfold getDirectoryContents. rewrite Hs, Hd. simpl.
fold (scanRootFor cwd clock cache dirPath). fold got. rewrite Hr.
rewrite visitEntry_fold, sum_fold. reflexivity.
Qed.

(** [getAllDirectorySizes] when the scan it starts fails and no
    directories-only retry succeeds. *)
Lemma getAllDirectorySizes_failed (cache : Cache) (now : Z) (R : string)
      (full fallback : ScanRun) (message : string) :
  fst (isDuCacheValid cache now R) = false ->
  outcome full = Scan.Rejected message ->
  (wantsFallback message = false
   \/ exists message', outcome fallback = Scan.Rejected message') ->
  let got := getAllDirectorySizes cache now R full fallback in
  sizes got = JsMap.empty
  /\ cacheAfter got = snd (isDuCacheValid cache now R)
  /\ hd_error (scans got) = Some (R, true).
Proof.
intros Hv Ho Hfb got. subst got. unfold getAllDirectorySizes.
destruct (isDuCacheValid cache now R) as [valid cache1]. simpl in Hv.
subst valid. rewrite Ho.
destruct (wantsFallback message) eqn:Hw.
- destruct Hfb as [Hfb|[message' Hfb]]; [discriminate|].
  rewrite Hfb. repeat split.
- repeat split.
Qed.

Lemma getAllDirectorySizes_scans (cache : Cache) (now : Z) (R : string)
      (full fallback : ScanRun) :
  fst (isDuCacheValid cache now R) = false ->
  hd_error (scans (getAllDirectorySizes cache now R full fallback))
  = Some (R, true).
Proof.
intros Hv. unfold getAllDirectorySizes.
destruct (isDuCacheValid cache now R) as [valid cache1]. simpl in Hv.
subst valid. destruct (outcome full) as [m|message]; [reflexivity|].
destruct (wantsFallback message); [|reflexivity].
now destruct (outcome fallback).
Qed.


End Materializer.

(** C7.  For a directory that can be listed, [getDirectoryContents]
    returns a directory node whose children are the listing of the
    specification: the entries not starting with a dot, in order, a file
    with its [stat] size, a directory with what the size mapping holds for
    its full path, 0 when it holds nothing; entries that are neither, or
    whose [stat] fails, are left out.  The size of the node is the sum of
    the sizes of these children, whatever the mapping holds for the
    directory itself. *)
Theorem materialize_one_level :
  forall (cwd : string) (fs : Fs.t) (cache : Cache) (clock : nat -> Z) (now : Z)
         (dirPath : string) (full fallback : ScanRun)
         (stats : Fs.Stats) (entries : list string),
    Fs.stat fs dirPath = Fs.Returned stats ->
    Fs.isDirectory stats = true ->
    Fs.readdir fs dirPath = Fs.Returned entries ->
    let got := getAllDirectorySizes cache now
                 (Listing.scanRootFor cwd clock cache dirPath) full fallback in
    let result :=
      node (getDirectoryContents cwd fs cache clock now dirPath full fallback) in
    Node.type result = directory
    /\ Node.path result = dirPath
    /\ Node.children result = Listing.listing fs dirPath (sizes got) entries
    /\ Node.size result = Listing.totalSize (Node.children result)
    /\ (forall c, In c (Node.children result) ->
                  JsString.startsWith (Child.name c) "." = false
                  /\ In (Child.name c) entries
                  /\ Child.path c = NodePath.join dirPath (Child.name c))
    /\ (forall c, In c (Node.children result) -> Child.type c = file ->
                  exists st, Fs.stat fs (Child.path c) = Fs.Returned st
                             /\ Fs.isFile st = true
                             /\ Child.size c = Fs.size st)
    /\ (forall c, In c (Node.children result) -> Child.type c = directory ->
                  Child.size c
                  = match JsMap.get (sizes got) (Child.path c) with
                    | Some (JsNum.Int z) => z
                    | _ => 0%Z
                    end)
    /\ (forall entry st,
           In entry entries ->
           JsString.startsWith entry "." = false ->
           Fs.stat fs (NodePath.join dirPath entry) = Fs.Returned st ->
           (Fs.isFile st = true ->
            In {| Child.name := entry;
                  Child.path := NodePath.join dirPath entry;
                  Child.size := Fs.size st;
                  Child.type := file |} (Node.children result))
           /\ (Fs.isFile st = false -> Fs.isDirectory st = true ->
               In {| Child.name := entry;
                     Child.path := NodePath.join dirPath entry;
                     Child.size :=
                       match JsMap.get (sizes got) (NodePath.join dirPath entry) with
                       | Some (JsNum.Int z) => z
                       | _ => 0%Z
                       end;
                     Child.type := directory |} (Node.children result))).
Proof.
intros cwd fs cache clock now dirPath full fallback stats entries Hs Hd Hr
       got result.
subst result.
rewrite (getDirectoryContents_listed cwd fs cache clock now dirPath full fallback
           stats entries Hs Hd Hr).
fold got. simpl.
split; [reflexivity|]. split; [reflexivity|]. split; [reflexivity|].
split; [reflexivity|]. split; [|split; [|split]].
- intros c Hc. apply listing_In in Hc.
  destruct Hc as (entry & st & Hin & Hv & Hst & [[Hf ->]|(Hf & Hdir & ->)]);
    simpl; unfold Listing.visible in Hv; apply negb_true_iff in Hv; auto.
- intros c Hc Hty. apply listing_In in Hc.
  destruct Hc as (entry & st & Hin & Hv & Hst & [[Hf ->]|(Hf & Hdir & ->)]);
    simpl in *; [|discriminate].
  exists st. auto.
- intros c Hc Hty. apply listing_In in Hc.
  destruct Hc as (entry & st & Hin & Hv & Hst & [[Hf ->]|(Hf & Hdir & ->)]);
    simpl in *; [discriminate|reflexivity].
- intros entry st Hin Hv Hst. split.
  + intros Hf. apply listing_In. exists entry, st.
    repeat split; auto.
    apply negb_true_iff. exact Hv.
  + intros Hf Hdir. apply listing_In. exists entry, st.
    repeat split; auto.
    apply negb_true_iff. exact Hv.
Qed.

(** The scenario: the scan of [/tmp/proj] resolves with the sizes [du]
    reported, and the node has size 2,097,252 = 100 + 2,097,152, not the
    2056 KB [du] reports for [/tmp/proj] itself. *)
Lemma materialize_one_level_witness :
  Fs.stat Scenario.projFs "/tmp/proj" = Fs.Returned Scenario.aDirectory
  /\ Fs.isDirectory Scenario.aDirectory = true
  /\ Fs.readdir Scenario.projFs "/tmp/proj" = Fs.Returned [".git"; "f1"; "sub"]
  /\ Scan.promise
       (Scan.executeDuWithProgress "/tmp/proj" true false 0 Scenario.duTrace 8)
     = Some (outcome Scenario.goodScan)
  /\ node (getDirectoryContents "/" Scenario.projFs JsMap.empty (fun _ => 0%Z)
             0 "/tmp/proj" Scenario.goodScan Scenario.goodScan)
     = {| Node.name := "proj";
          Node.path := "/tmp/proj";
          Node.size := 2097252;
          Node.type := directory;
          Node.children :=
            [ {| Child.name := "f1"; Child.path := "/tmp/proj/f1";
                 Child.size := 100; Child.type := file |};
              {| Child.name := "sub"; Child.path := "/tmp/proj/sub";
                 Child.size := 2097152; Child.type := directory |} ] |}.
Proof.
assert (H1 : Fs.stat Scenario.projFs "/tmp/proj"
             = Fs.Returned Scenario.aDirectory) by reflexivity.
assert (H2 : Fs.isDirectory Scenario.aDirectory = true) by reflexivity.
assert (H3 : Fs.readdir Scenario.projFs "/tmp/proj"
             = Fs.Returned [".git"; "f1"; "sub"]) by reflexivity.
pose proof (materialize_one_level "/" Scenario.projFs JsMap.empty
              (fun _ => 0%Z) 0%Z "/tmp/proj" Scenario.goodScan Scenario.goodScan
              Scenario.aDirectory [".git"; "f1"; "sub"] H1 H2 H3)
  as (Hty & Hpath & Hch & Hsize & _).
split; [exact H1|]. split; [exact H2|]. split; [exact H3|].
split; [reflexivity|].
destruct (node (getDirectoryContents "/" Scenario.projFs JsMap.empty
                  (fun _ => 0%Z) 0 "/tmp/proj" Scenario.goodScan
                  Scenario.goodScan)) as [nm pa sz ty ch] eqn:Hnode.
simpl in Hty, Hpath, Hch, Hsize. subst ty pa sz ch.
f_equal. apply (f_equal Node.name) in Hnode. simpl in Hnode.
rewrite <- Hnode. reflexivity.
Defined.



(** C10.  When [getAllDirectorySizes] has to scan (no valid record for the
    root) and the scan fails without a successful directories-only retry,
    the result is the empty mapping and the failure writes nothing to the
    cache: the cache is as the validity check left it, with no record for
    the root and every other key untouched, identical to the cache before
    the call when it held nothing for the root.  Any later request for the
    root therefore starts a scan again. *)
Theorem failed_scan_not_cached :
  forall (cache : Cache) (now : Z) (R : string) (full fallback : ScanRun)
         (message : string),
    fst (isDuCacheValid cache now R) = false ->
    outcome full = Scan.Rejected message ->
    (wantsFallback message = false
     \/ exists message', outcome fallback = Scan.Rejected message') ->
    let got := getAllDirectorySizes cache now R full fallback in
    sizes got = JsMap.empty
    /\ cacheAfter got = snd (isDuCacheValid cache now R)
    /\ JsMap.get (cacheAfter got) R = None
    /\ (forall k, k <> R -> JsMap.get (cacheAfter got) k = JsMap.get cache k)
    /\ (JsMap.get cache R = None -> cacheAfter got = cache)
    /\ (forall now' full' fallback',
           hd_error (scans (getAllDirectorySizes (cacheAfter got) now' R
                                                 full' fallback'))
           = Some (R, true)).
Proof.
intros cache now R full fallback message Hv Ho Hfb got.
destruct (getAllDirectorySizes_failed cache now R full fallback message Hv Ho Hfb)
  as (Hsz & Hca & _). fold got in Hsz, Hca.
destruct (isDuCacheValid_false cache R now Hv) as (Hnone & Hother & Hsame).
rewrite Hca. repeat split; auto.
intros now' full' fallback'. apply getAllDirectorySizes_scans.
now rewrite (isDuCacheValid_absent _ _ _ Hnone).
Qed.

Lemma failed_scan_not_cached_witness :
  let stale : Cache :=
    [ ("/x", {| sizeMap := []; timestamp := 0 |});
      ("/tmp/proj", {| sizeMap := Scenario.duSizes; timestamp := 0 |}) ] in
  fst (isDuCacheValid stale 3600000 "/tmp/proj") = false
  /\ outcome Scenario.failedScan
     = Scan.Rejected (Scan.failedMessage (Some 2%Z))
  /\ wantsFallback (Scan.failedMessage (Some 2%Z)) = false
  /\ sizes (getAllDirectorySizes stale 3600000 "/tmp/proj"
              Scenario.failedScan Scenario.failedScan) = JsMap.empty
  /\ cacheAfter (getAllDirectorySizes stale 3600000 "/tmp/proj"
                   Scenario.failedScan Scenario.failedScan)
     = [ ("/x", {| sizeMap := []; timestamp := 0 |}) ].
Proof.
intros stale.
assert (H1 : fst (isDuCacheValid stale 3600000 "/tmp/proj") = false)
  by reflexivity.
assert (H2 : outcome Scenario.failedScan
             = Scan.Rejected (Scan.failedMessage (Some 2%Z))) by reflexivity.
assert (H3 : wantsFallback (Scan.failedMessage (Some 2%Z)) = false)
  by reflexivity.
destruct (failed_scan_not_cached stale 3600000%Z "/tmp/proj"
            Scenario.failedScan Scenario.failedScan
            (Scan.failedMessage (Some 2%Z)) H1 H2 (or_introl H3))
  as (Hsz & Hca & _).
split; [exact H1|]. split; [exact H2|]. split; [exact H3|].
split; [exact Hsz|]. exact Hca.
Defined.

(** *** Resolved paths and the deny-list of [delete-file] *)

Section DenyList.
Import JsString JsStringFacts ScanSpec DeleteSpec.

Lemma split_slash_free (s : string) :
  Forall (fun x => allChars (fun c => negb (Ascii.eqb c "/")) x = true)
         (split "/" s).
Proof.
induction s as [|c s IH]; simpl; [repeat constructor|].
destruct (Ascii.eqb c "/") eqn:Hc; [constructor; [reflexivity|assumption]|].
destruct (split "/" s) as [|x xs]; [repeat constructor; simpl; now rewrite Hc|].
inversion IH; subst. constructor; [|assumption]. simpl. now rewrite Hc.
Qed.

(** [normalizeString] without [allowAboveRoot] keeps only genuine
    components. *)
Lemma normalizeSegments_components (segs : list string) :
  forall stack,
    Forall (fun x => allChars (fun c => negb (Ascii.eqb c "/")) x = true) segs ->
    Forall (fun x => isComponent x = true) stack ->
    Forall (fun x => isComponent x = true)
           (NodePath.normalizeSegments false segs stack).
Proof.
induction segs as [|s segs IH]; intros stack Hsegs Hstack; simpl.
- now apply Forall_rev.
- inversion Hsegs as [|? ? Hs Hrest]; subst.
  destruct (String.eqb_spec s "") as [->|Hne]; simpl; [now apply IH|].
  destruct (s =? "."); [now apply IH|].
  destruct (s =? "..").
  + destruct stack as [|top below]; [now apply IH|].
    inversion Hstack; subst.
    destruct (top =? ".."); now apply IH.
  + apply IH; [assumption|]. constructor; [|assumption].
    unfold isComponent. rewrite Hs, andb_true_r.
    apply negb_true_iff. now apply String.eqb_neq.
Qed.

(** With an absolute working directory, [path.resolve] returns the
    separator followed by components joined by the separator. *)
Lemma resolve_shape (cwd p : string) :
  NodePath.isAbsolute cwd = true ->
  exists segs,
    NodePath.resolve cwd p = "/" ++ String.concat "/" segs
    /\ Forall (fun x => isComponent x = true) segs.
Proof.
intros Habs. unfold NodePath.resolve.
assert (Hcwd : (cwd =? "") = false) by (destruct cwd; [discriminate|reflexivity]).
assert (H : forall x, exists segs,
             "/" ++ NodePath.normalizeString x false = "/" ++ String.concat "/" segs
             /\ Forall (fun y => isComponent y = true) segs).
{ intros x. eexists. split; [reflexivity|].
  apply normalizeSegments_components; [apply split_slash_free | constructor]. }
destruct (p =? ""); [rewrite Habs; apply H|].
destruct (NodePath.isAbsolute p); [apply H|].
rewrite Hcwd, Habs. apply H.
Qed.

Lemma split_component (a b : string) :
  allChars (fun c => negb (Ascii.eqb c "/")) a = true ->
  split "/" (a ++ String "/" b) = a :: split "/" b.
Proof.
induction a as [|c a IH]; simpl; [reflexivity|].
intros H. apply andb_true_iff in H as [Hc H].
apply negb_true_iff in Hc. rewrite Hc, (IH H). reflexivity.
Qed.

Lemma split_single (a : string) :
  allChars (fun c => negb (Ascii.eqb c "/")) a = true -> split "/" a = [a].
Proof.
induction a as [|c a IH]; simpl; [reflexivity|].
intros H. apply andb_true_iff in H as [Hc H].
apply negb_true_iff in Hc. rewrite Hc, (IH H). reflexivity.
Qed.

Lemma components_joined (segs : list string) :
  Forall (fun x => isComponent x = true) segs ->
  filter (fun s => negb (s =? "")) (split "/" (String.concat "/" segs)) = segs.
Proof.
induction segs as [|s segs IH]; intros H; [reflexivity|].
inversion H as [|? ? Hs Hrest]; subst.
unfold isComponent in Hs. apply andb_true_iff in Hs as [Hne Hfree].
destruct segs as [|s2 segs].
- simpl. rewrite (split_single _ Hfree). simpl. now rewrite Hne.
- change (String.concat "/" (s :: s2 :: segs))
    with (s ++ String "/" (String.concat "/" (s2 :: segs))).
  rewrite (split_component _ _ Hfree). simpl filter. rewrite Hne.
  f_equal. now apply IH.
Qed.

Lemma components_resolved (segs : list string) :
  Forall (fun x => isComponent x = true) segs ->
  Path.components ("/" ++ String.concat "/" segs) = segs.
Proof.
intros H. unfold Path.components. simpl. now apply components_joined.
Qed.

(** Below a top-level directory, by components, means: starts with its
    name followed by the separator. *)
Lemma beneath_top_level (name : string) (segs : list string) :
  isComponent name = true ->
  Forall (fun x => isComponent x = true) segs ->
  Path.liesBeneath ("/" ++ name) ("/" ++ String.concat "/" segs) = true ->
  startsWith ("/" ++ String.concat "/" segs) (("/" ++ name) ++ "/") = true.
Proof.
intros Hname Hsegs Hb. unfold Path.liesBeneath in Hb.
rewrite (components_resolved segs Hsegs) in Hb.
change ("/" ++ name) with ("/" ++ String.concat "/" [name]) in Hb.
rewrite (components_resolved [name]) in Hb by (repeat constructor; assumption).
apply andb_true_iff in Hb as [Hpre Hlen].
destruct segs as [|s [|s2 segs]]; simpl in Hpre, Hlen; try discriminate.
rewrite andb_true_r in Hpre. apply String.eqb_eq in Hpre. subst s.
change (String.concat "/" (name :: s2 :: segs))
  with (name ++ "/" ++ String.concat "/" (s2 :: segs)).
replace ("/" ++ name ++ "/" ++ String.concat "/" (s2 :: segs))
  with ((("/" ++ name) ++ "/") ++ String.concat "/" (s2 :: segs))
  by (simpl; now rewrite app_assoc).
apply startsWith_app.
Qed.

(** C9 (as amended).  When the resolved path is a member of the deny-list,
    or lies beneath a member other than the root, the handler answers with
    the system-path error and calls nothing in the file system: no
    existence check, no [stat], no removal.  The working directory is
    absolute, as [process.cwd()] always is. *)
Theorem deleteFile_refuses_system_paths :
  forall (cwd : string) (fs : Fs.t) (filePath : string),
    NodePath.isAbsolute cwd = true ->
    deniedRootItselfOnly (NodePath.resolve cwd filePath) = true ->
    deleteFile cwd fs filePath
    = {| reply := {| success := false; error := Some systemPathMessage |};
         calls := [] |}.
Proof.
intros cwd fs filePath Habs Hden. unfold deleteFile.
assert (Hguard : isDangerous (NodePath.resolve cwd filePath) = true);
  [|now rewrite Hguard].
destruct (resolve_shape cwd filePath Habs) as (segs & Hres & Hsegs).
unfold deniedRootItselfOnly in Hden.
apply existsb_exists in Hden as (d & Hin & Hd).
unfold isDangerous. apply existsb_exists. exists d. split; [assumption|].
apply orb_true_iff in Hd as [Heq|Hbelow]; [now rewrite Heq|].
apply andb_true_iff in Hbelow as [Hroot Hbelow].
apply orb_true_iff. right. rewrite Hres in *.
simpl in Hin.
destruct Hin as [<-|[<-|[<-|[<-|[<-|[<-|[<-|[<-|[]]]]]]]]];
  [discriminate|..];
  match goal with
  | |- startsWith _ (String "/" ?n ++ "/") = true =>
      apply (beneath_top_level n segs); [reflexivity | assumption | assumption]
  end.
Qed.

Lemma deleteFile_refuses_system_paths_witness :
  NodePath.isAbsolute "/home/u" = true
  /\ deniedRootItselfOnly (NodePath.resolve "/home/u" "../../etc/ssh/../passwd") = true
  /\ deleteFile "/home/u" homeFs "../../etc/ssh/../passwd"
     = {| reply := {| success := false; error := Some systemPathMessage |};
          calls := [] |}.
Proof.
assert (H1 : NodePath.isAbsolute "/home/u" = true) by reflexivity.
assert (H2 : deniedRootItselfOnly
               (NodePath.resolve "/home/u" "../../etc/ssh/../passwd") = true)
  by reflexivity.
split; [exact H1|]. split; [exact H2|].
exact (deleteFile_refuses_system_paths "/home/u" homeFs
         "../../etc/ssh/../passwd" H1 H2).
Defined.

End DenyList.

(** C9 as stated fails for the root: [/home/u/notes.txt] lies beneath [/],
    a member of the deny-list, and the handler removes it. *)
Lemma denyListBlocks_counterexample :
  ~ DeleteSpec.denyListBlocks "/home/u" DeleteSpec.homeFs "/home/u/notes.txt".
Proof.
unfold DeleteSpec.denyListBlocks, DeleteSpec.refusedUntouched. intros H.
destruct (H eq_refl) as [_ Hcalls]. vm_compute in Hcalls. discriminate.
Qed.

(** What the handler does there: it unlinks the file and reports
    success. *)
Example deleteFile_beneath_root :
  Path.liesBeneath "/" "/home/u/notes.txt" = true
  /\ deleteFile "/home/u" DeleteSpec.homeFs "/home/u/notes.txt"
     = {| reply := {| success := true; error := None |};
          calls := [ CallAccess "/home/u/notes.txt";
                     CallStat "/home/u/notes.txt";
                     CallUnlink "/home/u/notes.txt" ] |}.
Proof. split; reflexivity. Qed.

(** *** Away from the root directory the separator test is path ancestry *)

Section CanonicalPaths.
Import JsString JsStringFacts ScanSpec DeleteSpec.

Lemma startsWith_component_short (a b Y : string) :
  allChars (fun c => negb (Ascii.eqb c "/")) b = true ->
  startsWith b (a ++ String "/" Y) = false.
Proof.
revert b; induction a as [|x a IH]; intros [|c b] Hb;
  cbn [startsWith append allChars] in *; try reflexivity.
- apply andb_true_iff in Hb as [Hc _].
  apply negb_true_iff in Hc. now rewrite Hc.
- apply andb_true_iff in Hb as [_ Hb].
  rewrite (IH b Hb). apply andb_false_r.
Qed.

Lemma startsWith_components (a b X Y : string) :
  allChars (fun c => negb (Ascii.eqb c "/")) a = true ->
  allChars (fun c => negb (Ascii.eqb c "/")) b = true ->
  startsWith (b ++ String "/" X) (a ++ String "/" Y)
  = (a =? b) && startsWith X Y.
Proof.
revert b; induction a as [|x a IH]; intros [|c b] Ha Hb;
  cbn [startsWith append allChars String.eqb] in *.
- now rewrite Ascii.eqb_refl.
- apply andb_true_iff in Hb as [Hc _]. apply negb_true_iff in Hc.
  now rewrite Hc.
- apply andb_true_iff in Ha as [Hx _]. apply negb_true_iff in Hx.
  rewrite Ascii.eqb_sym. now rewrite Hx.
- apply andb_true_iff in Ha as [_ Ha]. apply andb_true_iff in Hb as [_ Hb].
  rewrite (IH b Ha Hb), (Ascii.eqb_sym c x). now rewrite andb_assoc.
Qed.

Lemma component_slash_free (s : string) :
  isComponent s = true ->
  allChars (fun c => negb (Ascii.eqb c "/")) s = true.
Proof. unfold isComponent. intros H. now apply andb_true_iff in H as [_ H]. Qed.

(** On joined components, "starts with the other followed by the
    separator" is "has the other's components as a proper prefix". *)
Lemma joined_beneath (sa : list string) :
  forall sb,
    Forall (fun x => isComponent x = true) sa ->
    Forall (fun x => isComponent x = true) sb ->
    sa <> [] ->
    startsWith (String.concat "/" sb) (String.concat "/" sa ++ "/")
    = Path.isPrefixOf sa sb && (List.length sa <? List.length sb)%nat.
Proof.
induction sa as [|a sa IH]; intros sb Ha Hb Hne; [congruence|].
inversion Ha as [|? ? Hca Ha']; subst.
pose proof (component_slash_free a Hca) as Hfa.
destruct sb as [|b sb].
- destruct sa; simpl; [destruct a; reflexivity|].
  destruct a; reflexivity.
- inversion Hb as [|? ? Hcb Hb']; subst.
  pose proof (component_slash_free b Hcb) as Hfb.
  destruct sa as [|a2 sa]; destruct sb as [|b2 sb].
  + simpl. rewrite (startsWith_component_short a b "" Hfb).
    now rewrite andb_true_r, andb_false_r.
  + change (String.concat "/" (b :: b2 :: sb))
      with (b ++ String "/" (String.concat "/" (b2 :: sb))).
    change (String.concat "/" [a] ++ "/") with (a ++ String "/" "").
    rewrite (startsWith_components a b _ "" Hfa Hfb). simpl.
    now rewrite !andb_true_r.
  + change (String.concat "/" (a :: a2 :: sa) ++ "/")
      with ((a ++ String "/" (String.concat "/" (a2 :: sa))) ++ "/").
    rewrite app_assoc. simpl String.concat at 1.
    change (String "/" (String.concat "/" (a2 :: sa)) ++ "/")
      with (String "/" (String.concat "/" (a2 :: sa) ++ "/")).
    rewrite (startsWith_component_short a b _ Hfb). simpl.
    now rewrite andb_false_r.
  + change (String.concat "/" (b :: b2 :: sb))
      with (b ++ String "/" (String.concat "/" (b2 :: sb))).
    change (String.concat "/" (a :: a2 :: sa) ++ "/")
      with ((a ++ String "/" (String.concat "/" (a2 :: sa))) ++ "/").
    rewrite app_assoc.
    change (String "/" (String.concat "/" (a2 :: sa)) ++ "/")
      with (String "/" (String.concat "/" (a2 :: sa) ++ "/")).
    rewrite (startsWith_components a b _ _ Hfa Hfb).
    rewrite (IH (b2 :: sb) Ha' Hb') by discriminate.
    simpl. now rewrite andb_assoc.
Qed.

Lemma strip_slash_free (s : string) :
  allChars (fun c => negb (Ascii.eqb c "/")) s = true ->
  stripTrailingSlashes s = s.
Proof.
induction s as [|c s IH]; simpl; [reflexivity|].
intros H. apply andb_true_iff in H as [Hc H].
apply negb_true_iff in Hc. now rewrite Hc, (IH H).
Qed.

Lemma strip_app (x y : string) :
  stripTrailingSlashes y <> "" ->
  stripTrailingSlashes (x ++ y) = x ++ stripTrailingSlashes y.
Proof.
intros Hy. induction x as [|c x IH]; simpl; [reflexivity|].
rewrite IH.
destruct (String.eqb_spec (x ++ stripTrailingSlashes y) "") as [He|_].
- destruct x; simpl in He; [contradiction | discriminate].
- now rewrite andb_false_r.
Qed.

Lemma strip_joined (segs : list string) :
  Forall (fun x => isComponent x = true) segs ->
  segs <> [] ->
  stripTrailingSlashes (String.concat "/" segs) = String.concat "/" segs
  /\ String.concat "/" segs <> "".
Proof.
induction segs as [|s segs IH]; intros H Hne; [congruence|].
inversion H as [|? ? Hs Hrest]; subst.
pose proof (component_slash_free s Hs) as Hfree.
assert (Hs' : s <> "").
{ unfold isComponent in Hs. apply andb_true_iff in Hs as [Hs _].
  apply negb_true_iff in Hs. now apply String.eqb_neq. }
destruct segs as [|s2 segs].
- simpl. split; [now apply strip_slash_free | assumption].
- destruct (IH Hrest) as [IH1 IH2]; [discriminate|].
  change (String.concat "/" (s :: s2 :: segs))
    with (s ++ String "/" (String.concat "/" (s2 :: segs))).
  split.
  + rewrite strip_app.
    * f_equal. change (String "/" (String.concat "/" (s2 :: segs)))
        with ("/" ++ String.concat "/" (s2 :: segs)).
      rewrite strip_app; [now rewrite IH1 | now rewrite IH1].
    * change (String "/" (String.concat "/" (s2 :: segs)))
        with ("/" ++ String.concat "/" (s2 :: segs)).
      rewrite strip_app by (now rewrite IH1). discriminate.
  + destruct s; [contradiction | discriminate].
Qed.

(** With an absolute working directory, [normalizePath] returns the
    separator followed by components joined by the separator; no
    component at all for the root directory only. *)
Lemma normalizePath_shape (cwd p : string) :
  NodePath.isAbsolute cwd = true ->
  exists segs,
    normalizePath cwd p = "/" ++ String.concat "/" segs
    /\ Forall (fun x => isComponent x = true) segs
    /\ (normalizePath cwd p = "/" <-> segs = []).
Proof.
intros Habs. destruct (resolve_shape cwd p Habs) as (segs & Hres & Hsegs).
exists segs. unfold normalizePath. rewrite Hres.
destruct segs as [|s segs].
- simpl. repeat split; auto.
- destruct (strip_joined (s :: segs) Hsegs) as [H1 H2]; [discriminate|].
  rewrite strip_app by (now rewrite H1). rewrite H1.
  unfold orElse. simpl. split; [reflexivity|]. split; [assumption|].
  split; [|discriminate].
  intros [= He]. contradiction.
Qed.

(** The test of [invalidateDuCache] agrees with path ancestry whenever
    neither the target nor the cached root is the root directory. *)
Lemma invalidates_related (cwd t r : string) :
  NodePath.isAbsolute cwd = true ->
  normalizePath cwd t <> "/" ->
  normalizePath cwd r <> "/" ->
  invalidates (normalizePath cwd t) (normalizePath cwd r)
  = related (normalizePath cwd t) (normalizePath cwd r).
Proof.
intros Habs Ht Hr.
destruct (normalizePath_shape cwd t Habs) as (st & Het & Hst & Hrt).
destruct (normalizePath_shape cwd r Habs) as (sr & Her & Hsr & Hrr).
assert (Hst' : st <> []) by (intros H; apply Ht, Hrt, H).
assert (Hsr' : sr <> []) by (intros H; apply Hr, Hrr, H).
unfold invalidates, related, Path.liesBeneath, sep.
rewrite Het, Her, !components_resolved by assumption.
change (("/" ++ String.concat "/" sr) ++ "/")
  with (String "/" (String.concat "/" sr ++ "/")).
change (("/" ++ String.concat "/" st) ++ "/")
  with (String "/" (String.concat "/" st ++ "/")).
change (startsWith ("/" ++ String.concat "/" st)
                   (String "/" (String.concat "/" sr ++ "/")))
  with (startsWith (String.concat "/" st) (String.concat "/" sr ++ "/")).
change (startsWith ("/" ++ String.concat "/" sr)
                   (String "/" (String.concat "/" st ++ "/")))
  with (startsWith (String.concat "/" sr) (String.concat "/" st ++ "/")).
now rewrite (joined_beneath sr st Hsr Hst Hsr'),
            (joined_beneath st sr Hst Hsr Hst').
Qed.

(** So, as long as the root directory is neither the target nor a cached
    root, [invalidateDuCache] removes exactly the records whose root is the
    target, above it or below it, and keeps the others as they are. *)
Lemma invalidateDuCache_away_from_root (cwd : string) (cache : Cache) (t : string) :
  NodePath.isAbsolute cwd = true ->
  normalizePath cwd t <> "/" ->
  (forall root d, In (root, d) cache -> normalizePath cwd root <> "/") ->
  invalidateDuCache cwd cache t
  = filter
      (fun e => negb (related (normalizePath cwd t) (normalizePath cwd (fst e))))
      cache.
Proof.
intros Habs Ht Hroots. rewrite invalidateDuCache_filter.
apply filter_ext_in. intros [root d] Hin. simpl. f_equal.
apply invalidates_related; auto. apply (Hroots root d Hin).
Qed.

End CanonicalPaths.

Section SeparatorTests.
Import JsString JsStringFacts ScanSpec DeleteSpec.

(** The test of [findCachedRoot] is "the root is the target or above it",
    for every cached root but the root directory. *)
Lemma covers_ancestor_or_self (cwd r p : string) :
  NodePath.isAbsolute cwd = true ->
  normalizePath cwd r <> "/" ->
  covers (normalizePath cwd r) (normalizePath cwd p)
  = (normalizePath cwd p =? normalizePath cwd r)
    || Path.liesBeneath (normalizePath cwd r) (normalizePath cwd p).
Proof.
intros Habs Hr.
destruct (normalizePath_shape cwd p Habs) as (sp & Hep & Hsp & _).
destruct (normalizePath_shape cwd r Habs) as (sr & Her & Hsr & Hrr).
assert (Hsr' : sr <> []) by (intros H; apply Hr, Hrr, H).
unfold covers, Path.liesBeneath, sep.
rewrite Hep, Her, !components_resolved by assumption.
change (startsWith ("/" ++ String.concat "/" sp)
                   (("/" ++ String.concat "/" sr) ++ "/"))
  with (startsWith (String.concat "/" sp) (String.concat "/" sr ++ "/")).
now rewrite (joined_beneath sr sp Hsr Hsp Hsr').
Qed.

(** A cached root directory covers the root directory only. *)
Lemma covers_root_only (cwd r p : string) :
  NodePath.isAbsolute cwd = true ->
  normalizePath cwd r = "/" ->
  covers (normalizePath cwd r) (normalizePath cwd p)
  = (normalizePath cwd p =? "/").
Proof.
intros Habs Hr. rewrite Hr.
destruct (normalizePath_shape cwd p Habs) as (sp & Hep & Hsp & _).
unfold covers, sep. rewrite Hep.
destruct sp as [|s sp]; [reflexivity|].
inversion Hsp as [|? ? Hs _]; subst.
assert (Hfirst : startsWith (String.concat "/" (s :: sp)) "/" = false).
{ unfold isComponent in Hs. apply andb_true_iff in Hs as [Hne Hfree].
  destruct s as [|c s]; [discriminate|].
  simpl in Hfree. apply andb_true_iff in Hfree as [Hc _].
  apply negb_true_iff in Hc.
  destruct sp; cbn [String.concat append startsWith]; now rewrite Hc. }
change (startsWith ("/" ++ String.concat "/" (s :: sp)) ("/" ++ "/"))
  with (startsWith (String.concat "/" (s :: sp)) "/").
rewrite Hfirst, orb_false_r. reflexivity.
Qed.

(** The guard of [delete-file] is exactly: a member of the deny-list, or
    beneath a member other than the root. *)
Lemma isDangerous_exact (cwd p : string) :
  NodePath.isAbsolute cwd = true ->
  isDangerous (NodePath.resolve cwd p)
  = deniedRootItselfOnly (NodePath.resolve cwd p).
Proof.
intros Habs. destruct (resolve_shape cwd p Habs) as (segs & Hres & Hsegs).
rewrite Hres.
assert (Hroot : startsWith ("/" ++ String.concat "/" segs) ("/" ++ "/") = false).
{ destruct segs as [|s sp]; [reflexivity|].
  inversion Hsegs as [|? ? Hs _]; subst.
  unfold isComponent in Hs. apply andb_true_iff in Hs as [Hne Hfree].
  destruct s as [|c s]; [discriminate|].
  simpl in Hfree. apply andb_true_iff in Hfree as [Hc _].
  apply negb_true_iff in Hc.
  destruct sp; cbn [String.concat append startsWith]; now rewrite Hc. }
assert (Htop : forall d name,
           d = "/" ++ name ->
           isComponent name = true ->
           startsWith ("/" ++ String.concat "/" segs) (d ++ "/")
           = Path.liesBeneath d ("/" ++ String.concat "/" segs)).
{ intros d name -> Hname. unfold Path.liesBeneath.
  rewrite (components_resolved segs Hsegs).
  change ("/" ++ name) with ("/" ++ String.concat "/" [name]).
  rewrite (components_resolved [name]) by (repeat constructor; assumption).
  change (startsWith ("/" ++ String.concat "/" segs)
                     (("/" ++ String.concat "/" [name]) ++ "/"))
    with (startsWith (String.concat "/" segs) (String.concat "/" [name] ++ "/")).
  apply joined_beneath; [repeat constructor; assumption | assumption | discriminate]. }
unfold isDangerous, deniedRootItselfOnly, dangerousPaths.
cbn [existsb].
rewrite Hroot.
rewrite (Htop "/System" "System"), (Htop "/usr" "usr"), (Htop "/bin" "bin"),
        (Htop "/sbin" "sbin"), (Htop "/etc" "etc"), (Htop "/var" "var"),
        (Htop "/tmp" "tmp") by reflexivity.
reflexivity.
Qed.

End SeparatorTests.

(** *** The cache across calls *)

Section CacheAcrossCalls.
Import JsString JsStringFacts JsMapFacts.

(** A scan that resolves is stored under its root, and a later call that
    falls within the hour is answered from the store: same mapping, no
    scan, store untouched. *)
Theorem scan_then_cache_hit :
  forall (cache : Cache) (now now' : Z) (R : string) (full fallback : ScanRun)
         (m : SizeMap),
    fst (isDuCacheValid cache now R) = false ->
    outcome full = Scan.Resolved m ->
    (now' - finishedAt full < CACHE_EXPIRY)%Z ->
    let first := getAllDirectorySizes cache now R full fallback in
    sizes first = m
    /\ scans first = [(R, true)]
    /\ JsMap.get (cacheAfter first) R
       = Some {| sizeMap := m; timestamp := finishedAt full |}
    /\ forall full' fallback',
         let second :=
           getAllDirectorySizes (cacheAfter first) now' R full' fallback' in
         sizes second = m
         /\ scans second = []
         /\ cacheAfter second = cacheAfter first.
Proof.
intros cache now now' R full fallback m Hv Ho Hfresh first.
assert (Hfirst : first
                 = {| sizes := m;
                      cacheAfter :=
                        JsMap.set (snd (isDuCacheValid cache now R)) R
                                  {| sizeMap := m; timestamp := finishedAt full |};
                      scans := [(R, true)] |}).
{ subst first. unfold getAllDirectorySizes.
  destruct (isDuCacheValid cache now R) as [valid cache1]. simpl in Hv.
  subst valid. now rewrite Ho. }
rewrite Hfirst. simpl.
split; [reflexivity|]. split; [reflexivity|].
split; [apply get_set_same|].
intros full' fallback'. unfold getAllDirectorySizes.
rewrite (isDuCacheValid_valid _ R {| sizeMap := m; timestamp := finishedAt full |}
           now' (get_set_same _ _ _ _) Hfresh).
rewrite get_set_same. repeat split.
Qed.

Lemma scan_then_cache_hit_witness :
  fst (isDuCacheValid JsMap.empty 0 "/tmp/proj") = false
  /\ outcome Scenario.goodScan = Scan.Resolved Scenario.duSizes
  /\ (3600007 - finishedAt Scenario.goodScan < CACHE_EXPIRY)%Z
  /\ scans (getAllDirectorySizes
              (cacheAfter (getAllDirectorySizes JsMap.empty 0 "/tmp/proj"
                             Scenario.goodScan Scenario.failedScan))
              3600007 "/tmp/proj" Scenario.failedScan Scenario.failedScan)
     = [].
Proof.
assert (H1 : fst (isDuCacheValid JsMap.empty 0 "/tmp/proj") = false)
  by reflexivity.
assert (H2 : outcome Scenario.goodScan = Scan.Resolved Scenario.duSizes)
  by reflexivity.
assert (H3 : (3600007 - finishedAt Scenario.goodScan < CACHE_EXPIRY)%Z)
  by (vm_compute; reflexivity).
destruct (scan_then_cache_hit JsMap.empty 0%Z 3600007%Z "/tmp/proj"
            Scenario.goodScan Scenario.failedScan Scenario.duSizes H1 H2 H3)
  as (_ & _ & _ & Hsecond).
destruct (Hsecond Scenario.failedScan Scenario.failedScan) as (_ & Hs & _).
split; [exact H1|]. split; [exact H2|]. split; [exact H3|]. exact Hs.
Defined.

(** A scan that runs into the time-out is retried once, directories only
    ([du -k]); what the retry yields is the answer, and is stored when it
    resolves. *)
Theorem timeout_retries_directories_only :
  forall (cache : Cache) (now : Z) (R : string) (onProgress : bool)
         (startedAt : Z) (trace : list Scan.Occurrence) (horizon : Z)
         (full fallback : ScanRun),
    fst (isDuCacheValid cache now R) = false ->
    forallb (ScanSpec.writesBefore (startedAt + Scan.TIMEOUT_MS)) trace = true ->
    (startedAt + Scan.TIMEOUT_MS <= horizon)%Z ->
    Scan.promise (Scan.executeDuWithProgress R true onProgress startedAt
                                             trace horizon)
    = Some (outcome full) ->
    let got := getAllDirectorySizes cache now R full fallback in
    scans got = [(R, true); (R, false)]
    /\ Scan.duArgs R false = ["-k"; R]
    /\ (forall m, outcome fallback = Scan.Resolved m ->
                  sizes got = m
                  /\ JsMap.get (cacheAfter got) R
                     = Some {| sizeMap := m; timestamp := finishedAt fallback |})
    /\ (forall message, outcome fallback = Scan.Rejected message ->
                        sizes got = JsMap.empty
                        /\ JsMap.get (cacheAfter got) R = None).
Proof.
intros cache now R onProgress startedAt trace horizon full fallback
       Hv Hw Hh Hpr got.
assert (Ho : outcome full = Scan.Rejected Scan.timedOutMessage).
{ unfold Scan.executeDuWithProgress in Hpr.
  destruct (spawned_open R startedAt) as (H1 & H2 & H3).
  destruct (RunFacts.run_writes_open R onProgress _ trace _ Hw H1 H2 H3)
    as (Htm & Hp & _).
  destruct (RunFacts.fireDue_late horizon _ _ Htm Hh) as (_ & _ & Hrej & _).
  rewrite (Hrej Hp) in Hpr. now injection Hpr as <-. }
destruct (isDuCacheValid_false cache R now Hv) as (Hnone & _).
subst got. unfold getAllDirectorySizes.
destruct (isDuCacheValid cache now R) as [valid cache1]. simpl in Hv, Hnone.
subst valid. rewrite Ho.
change (wantsFallback Scan.timedOutMessage) with true. cbv iota.
split; [now destruct (outcome fallback)|]. split; [reflexivity|]. split.
- intros m Hf. rewrite Hf. simpl. split; [reflexivity | apply get_set_same].
- intros message Hf. rewrite Hf. simpl. now split.
Qed.

Lemma timeout_retries_directories_only_witness :
  let slow := {| outcome := Scan.Rejected Scan.timedOutMessage;
                 finishedAt := 600000 |} in
  fst (isDuCacheValid JsMap.empty 0 "/tmp/proj") = false
  /\ forallb (ScanSpec.writesBefore (0 + Scan.TIMEOUT_MS)) [] = true
  /\ (0 + Scan.TIMEOUT_MS <= 600000)%Z
  /\ Scan.promise (Scan.executeDuWithProgress "/tmp/proj" true false 0 [] 600000)
     = Some (outcome slow)
  /\ sizes (getAllDirectorySizes JsMap.empty 0 "/tmp/proj" slow Scenario.goodScan)
     = Scenario.duSizes.
Proof.
intros slow.
assert (H1 : fst (isDuCacheValid JsMap.empty 0 "/tmp/proj") = false)
  by reflexivity.
assert (H2 : forallb (ScanSpec.writesBefore (0 + Scan.TIMEOUT_MS)) [] = true)
  by reflexivity.
assert (H3 : (0 + Scan.TIMEOUT_MS <= 600000)%Z) by (vm_compute; discriminate).
assert (H4 : Scan.promise
               (Scan.executeDuWithProgress "/tmp/proj" true false 0 [] 600000)
             = Some (outcome slow)) by reflexivity.
destruct (timeout_retries_directories_only JsMap.empty 0%Z "/tmp/proj" false
            0%Z [] 600000%Z slow Scenario.goodScan H1 H2 H3 H4)
  as (_ & _ & Hres & _).
destruct (Hres Scenario.duSizes eq_refl) as [Hs _].
split; [exact H1|]. split; [exact H2|]. split; [exact H3|].
split; [exact H4|]. exact Hs.
Defined.

End CacheAcrossCalls.

Section ServedFromCache.
Import JsString JsStringFacts JsMapFacts Listing.

Variable cwd : string.

(** When the lookup finds a cached root for the directory, the listing is
    built from that record: no scan is started, the cache is left as it
    was, and the directory children carry the sizes the record holds. *)
Theorem covered_directory_served_without_scan :
  forall (fs : Fs.t) (cache : Cache) (now : Z) (dirPath : string)
         (full fallback : ScanRun) (r : string),
    JsMap.wf cache ->
    findCachedRoot cwd (fun _ => now) cache dirPath = Some r ->
    r <> "" ->
    let got := getDirectoryContents cwd fs cache (fun _ => now) now dirPath
                                    full fallback in
    scansRun got = []
    /\ cacheLeft got = cache
    /\ exists d,
         JsMap.get cache r = Some d
         /\ validAt now d = true
         /\ forall stats entries,
              Fs.stat fs dirPath = Fs.Returned stats ->
              Fs.isDirectory stats = true ->
              Fs.readdir fs dirPath = Fs.Returned entries ->
              Node.children (node got) = listing fs dirPath (sizeMap d) entries.
Proof.
intros fs cache now dirPath full fallback r Hwf Hfind Hne got.
destruct (findCachedRoot_Some_spec cwd (fun _ => now) cache dirPath r Hfind)
  as ((i & d & Hi & Hv) & _).
apply nth_error_In in Hi. apply (In_get _ _ _ _ Hwf) in Hi.
assert (Hvalid : isDuCacheValid cache now r = (true, cache)).
{ apply (isDuCacheValid_valid cache r d now Hi).
  unfold validAt in Hv. now apply Z.ltb_lt in Hv. }
assert (Hroot : scanRootFor cwd (fun _ => now) cache dirPath = r).
{ unfold scanRootFor. rewrite Hfind. unfold orElse.
  destruct (String.eqb_spec r ""); [contradiction | reflexivity]. }
assert (Hgot : getAllDirectorySizes cache now r full fallback
               = {| sizes := sizeMap d; cacheAfter := cache; scans := [] |}).
{ unfold getAllDirectorySizes. rewrite Hvalid, Hi. reflexivity. }
assert (Hcs : scansRun got = [] /\ cacheLeft got = cache).
{ subst got. unfold getDirectoryContents.
  destruct (Fs.stat fs dirPath) as [stats|err]; [|now split].
  destruct (Fs.isDirectory stats); simpl; [|now split].
  fold (scanRootFor cwd (fun _ => now) cache dirPath).
  rewrite Hroot, Hgot.
  destruct (Fs.readdir fs dirPath); now split. }
destruct Hcs as [Hs Hc]. split; [exact Hs|]. split; [exact Hc|].
exists d. split; [exact Hi|]. split; [exact Hv|].
intros stats entries Hst Hd Hrd. subst got.
rewrite (getDirectoryContents_listed cwd fs cache (fun _ => now) now dirPath
           full fallback stats entries Hst Hd Hrd).
cbv zeta. rewrite Hroot, Hgot. reflexivity.
Qed.

(** Whatever the cache holds, a call starts at most two scans, both at the
    same root: first with files, then, if at all, directories only.  The
    root is the directory asked for, or a cached root that the lookup saw
    valid and that covers it. *)
Theorem scans_rooted_at_query_or_covering_root :
  forall (fs : Fs.t) (cache : Cache) (clock : nat -> Z) (now : Z)
         (dirPath : string) (full fallback : ScanRun),
    let got := getDirectoryContents cwd fs cache clock now dirPath
                                    full fallback in
    exists R,
      (R = dirPath
       \/ (seenValid clock cache R
           /\ covers (normalizePath cwd R) (normalizePath cwd dirPath) = true))
      /\ (scansRun got = []
          \/ scansRun got = [(R, true)]
          \/ scansRun got = [(R, true); (R, false)]).
Proof.
intros fs cache clock now dirPath full fallback got.
exists (scanRootFor cwd clock cache dirPath). split.
- unfold scanRootFor.
  destruct (findCachedRoot cwd clock cache dirPath) as [r|] eqn:Hfind;
    [|now left].
  unfold orElse. destruct (String.eqb_spec r ""); [now left|]. right.
  destruct (findCachedRoot_Some_spec cwd clock cache dirPath r Hfind)
    as (Hseen & Hcov & _).
  now split.
- assert (Hall : forall R,
             let s := scans (getAllDirectorySizes cache now R full fallback) in
             s = [] \/ s = [(R, true)] \/ s = [(R, true); (R, false)]).
  { intros R. unfold getAllDirectorySizes.
    destruct (isDuCacheValid cache now R) as [[|] cache1]; simpl; [now left|].
    destruct (outcome full) as [m|message]; simpl; [right; now left|].
    destruct (wantsFallback message); simpl; [|right; now left].
    destruct (outcome fallback); simpl; right; now right. }
  subst got. unfold getDirectoryContents.
  destruct (Fs.stat fs dirPath) as [stats|err]; [|now left].
  destruct (Fs.isDirectory stats); simpl; [|now left].
  fold (scanRootFor cwd clock cache dirPath).
  destruct (Fs.readdir fs dirPath); simpl; apply Hall.
Qed.

(** After [invalidateDuCache] for a path, no cached root is found for that
    path any more, nor for a directory the path lies below: the next
    listing of either is not served from a record older than the change. *)
Theorem invalidated_path_not_served :
  forall (clock : nat -> Z) (cache : Cache) (t p : string),
    normalizePath cwd p = normalizePath cwd t
    \/ strictlyBelow (normalizePath cwd p) (normalizePath cwd t) = true ->
    findCachedRoot cwd clock (invalidateDuCache cwd cache t) p = None.
Proof.
intros clock cache t p Hrel.
destruct (findCachedRoot cwd clock (invalidateDuCache cwd cache t) p)
  as [r|] eqn:Hfind; [|reflexivity]. exfalso.
destruct (findCachedRoot_Some_spec cwd clock _ p r Hfind)
  as ((i & d & Hi & _) & Hcov & _).
apply nth_error_In in Hi. rewrite invalidateDuCache_filter in Hi.
apply filter_In in Hi as [_ Hkeep]. simpl in Hkeep.
apply negb_true_iff in Hkeep.
assert (Hinv : invalidates (normalizePath cwd t) (normalizePath cwd r) = true).
{ unfold invalidates. unfold covers in Hcov.
  apply orb_true_iff in Hcov as [Heq|Hpre].
  - apply String.eqb_eq in Heq. rewrite Heq in Hrel.
    destruct Hrel as [Hrel|Hrel].
    + rewrite <- Hrel, String.eqb_refl. reflexivity.
    + unfold strictlyBelow in Hrel. rewrite Hrel.
      now rewrite orb_true_r.
  - destruct Hrel as [Hrel|Hrel].
    + rewrite <- Hrel, Hpre. now rewrite orb_true_r.
    + unfold strictlyBelow in Hrel.
      assert (Hlong : startsWith (normalizePath cwd t)
                                 (normalizePath cwd r ++ sep) = true).
      { apply (startsWith_trans _ (normalizePath cwd p ++ sep) _ Hrel).
        apply startsWith_iff in Hpre as [u Hu]. rewrite Hu.
        apply startsWith_iff. exists (u ++ sep). now rewrite !app_assoc. }
      rewrite Hlong. now rewrite orb_true_r. }
congruence.
Qed.

(** [invalidateDuCache] only removes records: what stays is what was
    there, and invalidating the same path again changes nothing. *)
Theorem invalidateDuCache_idempotent :
  forall (cache : Cache) (t : string),
    invalidateDuCache cwd (invalidateDuCache cwd cache t) t
    = invalidateDuCache cwd cache t
    /\ (forall e, In e (invalidateDuCache cwd cache t) -> In e cache)
    /\ (List.length (invalidateDuCache cwd cache t) <= List.length cache)%nat.
Proof.
intros cache t. rewrite !invalidateDuCache_filter. split; [|split].
- rewrite filter_filter. apply filter_ext. intros e.
  now destruct (invalidates _ _).
- intros e He. now apply filter_In in He.
- apply filter_length_le.
Qed.

End ServedFromCache.

Lemma covered_directory_served_without_scan_witness :
  let cache := [("/tmp/proj",
                 {| sizeMap := Scenario.duSizes; timestamp := 5 |})] in
  JsMap.wf cache
  /\ findCachedRoot "/" (fun _ => 1000%Z) cache "/tmp/proj/sub"
     = Some "/tmp/proj"
  /\ "/tmp/proj" <> ""
  /\ scansRun (getDirectoryContents "/" Scenario.projFs cache
                 (fun _ => 1000%Z) 1000 "/tmp/proj/sub"
                 Scenario.failedScan Scenario.failedScan) = [].
Proof.
intros cache.
assert (H1 : JsMap.wf cache).
{ repeat constructor. simpl. tauto. }
assert (H2 : findCachedRoot "/" (fun _ => 1000%Z) cache "/tmp/proj/sub"
             = Some "/tmp/proj") by (vm_compute; reflexivity).
assert (H3 : "/tmp/proj" <> "") by discriminate.
destruct (covered_directory_served_without_scan "/" Scenario.projFs cache
            1000%Z "/tmp/proj/sub" Scenario.failedScan Scenario.failedScan
            "/tmp/proj" H1 H2 H3) as (Hs & _).
split; [exact H1|]. split; [exact H2|]. split; [exact H3|]. exact Hs.
Defined.

Lemma invalidated_path_not_served_witness :
  (normalizePath "/" "/home/u" = normalizePath "/" "/home/u/notes.txt"
   \/ strictlyBelow (normalizePath "/" "/home/u")
                    (normalizePath "/" "/home/u/notes.txt") = true)
  /\ findCachedRoot "/" (fun _ => 0%Z)
       (invalidateDuCache "/"
          [("/home", {| sizeMap := JsMap.empty; timestamp := 0 |})]
          "/home/u/notes.txt")
       "/home/u" = None.
Proof.
assert (H : normalizePath "/" "/home/u" = normalizePath "/" "/home/u/notes.txt"
            \/ strictlyBelow (normalizePath "/" "/home/u")
                             (normalizePath "/" "/home/u/notes.txt") = true)
  by (right; vm_compute; reflexivity).
split; [exact H|].
exact (invalidated_path_not_served "/" (fun _ => 0%Z)
         [("/home", {| sizeMap := JsMap.empty; timestamp := 0 |})]
         "/home/u/notes.txt" "/home/u" H).
Defined.

(** *** The scan runner, beyond the parser *)

Lemma close_zero_resolves_witness :
  let trace := [ {| Scan.time := 5;
                    Scan.event := Scan.Stdout (Scenario.line "4" "/a") |} ] in
  forallb (ScanSpec.writesBefore (0 + Scan.TIMEOUT_MS)) trace = true
  /\ (7 < 0 + Scan.TIMEOUT_MS)%Z
  /\ Scan.promise
       (Scan.executeDuWithProgress "/a" true true 0
          (trace ++ [ {| Scan.time := 7; Scan.event := Scan.Close (Some 0%Z) |} ])
          9)
     = Some (Scan.Resolved [("/a", JsNum.Int 4096)]).
Proof.
intros trace.
assert (H1 : forallb (ScanSpec.writesBefore (0 + Scan.TIMEOUT_MS)) trace = true)
  by reflexivity.
assert (H2 : (7 < 0 + Scan.TIMEOUT_MS)%Z) by reflexivity.
destruct (close_zero_resolves "/a" true true 0%Z trace 7%Z 9%Z H1 H2)
  as (Hp & _).
split; [exact H1|]. split; [exact H2|]. exact Hp.
Defined.

Section ScanRunnerAtLarge.
Import JsString JsStringFacts Scan ScanSpec ScanFacts RunFacts Observed.

Variable rootPath : string.

Lemma flush_sizeMap (st st' : State) :
  sizeMap st = sizeMap st' -> buffer st = buffer st' ->
  sizeMap (flush st) = sizeMap (flush st').
Proof.
intros Hm Hb. unfold flush. rewrite Hb.
destruct (negb (trim (buffer st') =? "")); [|assumption].
destruct (split tab (trim (buffer st'))) as [|f [|p more]]; simpl; congruence.
Qed.

Lemma flush_lastProgressTime (st : State) :
  lastProgressTime (flush st) = lastProgressTime st.
Proof.
unfold flush. destruct (negb (trim (buffer st) =? "")); [|reflexivity].
destruct (split tab (trim (buffer st))) as [|f [|p more]]; reflexivity.
Qed.

(** The mapping a scan resolves with is a function of the text its
    handler received, the strings of the chunks one after the other: where
    one string ends and the next begins, when they came, whether progress
    was asked for and when the scan was started make no difference. *)
Lemma resolved_mapping_of_received_text :
  forall (includeFiles includeFiles' onProgress onProgress' : bool)
         (startedAt startedAt' : Z) (trace trace' : list Occurrence)
         (t t' horizon horizon' : Z),
    forallb (writesBefore (startedAt + TIMEOUT_MS)) trace = true ->
    forallb (writesBefore (startedAt' + TIMEOUT_MS)) trace' = true ->
    (t < startedAt + TIMEOUT_MS)%Z ->
    (t' < startedAt' + TIMEOUT_MS)%Z ->
    stdoutOf trace = stdoutOf trace' ->
    promise (executeDuWithProgress rootPath includeFiles onProgress startedAt
               (trace ++ [ {| time := t; event := Close (Some 0%Z) |} ])
               horizon)
    = promise (executeDuWithProgress rootPath includeFiles' onProgress'
                 startedAt'
                 (trace' ++ [ {| time := t'; event := Close (Some 0%Z) |} ])
                 horizon')
    /\ exists m,
         promise (executeDuWithProgress rootPath includeFiles onProgress
                    startedAt
                    (trace ++ [ {| time := t; event := Close (Some 0%Z) |} ])
                    horizon)
         = Some (Resolved m).
Proof.
intros inc inc' onP onP' s0 s0' trace trace' t t' h h' Hw Hw' Ht Ht' Hout.
destruct (run_until_close rootPath inc onP s0 trace [] (Some 0%Z) t h Hw Ht)
  as (_ & _ & Hp).
destruct (run_until_close rootPath inc' onP' s0' trace' [] (Some 0%Z) t' h'
            Hw' Ht') as (_ & _ & Hp').
rewrite Hp, Hp'. split; [|eexists; reflexivity].
do 2 f_equal. 
destruct (run_writes_parsed rootPath onP trace (spawned rootPath s0)
            (writesBefore_onlyWrites _ _ Hw) eq_refl) as [Hpa Hbu].
destruct (run_writes_parsed rootPath onP' trace' (spawned rootPath s0')
            (writesBefore_onlyWrites _ _ Hw') eq_refl) as [Hpa' Hbu'].
simpl in Hpa, Hbu, Hpa', Hbu'.
apply flush_sizeMap.
- rewrite <- Hout in Hpa'.
  rewrite (fold_processLine_parsed (completeLines (stdoutOf trace))
             (spawned rootPath s0') (spawned rootPath s0) eq_refl) in Hpa'.
  rewrite <- Hpa' in Hpa. unfold parsed in Hpa. congruence.
- congruence.
Qed.

(** Two runs of the scan in which the child wrote the same bytes
    resolve with the same mapping, however the bytes were cut into chunks,
    provided neither run has a chunk that stops inside a multi-byte
    character: when the chunks came, whether progress was asked for and
    when the scan was started make no difference.  (A chunk that stops
    inside a character is decoded apart from the rest of it, and the
    text changes: [chunk_cut_inside_character].) *)
Theorem resolved_mapping_ignores_aligned_chunking :
  forall (includeFiles includeFiles' onProgress onProgress' : bool)
         (startedAt startedAt' : Z) (wire wire' : list Wire.Occurrence)
         (trace trace' : list Occurrence) (t t' horizon horizon' : Z),
    Wire.received wire trace ->
    Wire.received wire' trace' ->
    forallb (writesBefore (startedAt + TIMEOUT_MS)) trace = true ->
    forallb (writesBefore (startedAt' + TIMEOUT_MS)) trace' = true ->
    (t < startedAt + TIMEOUT_MS)%Z ->
    (t' < startedAt' + TIMEOUT_MS)%Z ->
    Wire.stdoutOf wire = Wire.stdoutOf wire' ->
    Wire.cutsNoCharacter wire = true ->
    Wire.cutsNoCharacter wire' = true ->
    promise (executeDuWithProgress rootPath includeFiles onProgress startedAt
               (trace ++ [ {| time := t; event := Close (Some 0%Z) |} ])
               horizon)
    = promise (executeDuWithProgress rootPath includeFiles' onProgress'
                 startedAt'
                 (trace' ++ [ {| time := t'; event := Close (Some 0%Z) |} ])
                 horizon')
    /\ exists m,
         promise (executeDuWithProgress rootPath includeFiles onProgress
                    startedAt
                    (trace ++ [ {| time := t; event := Close (Some 0%Z) |} ])
                    horizon)
         = Some (Resolved m).
Proof.
intros inc inc' onP onP' s0 s0' wire wire' trace trace' t t' h h'
       Hr Hr' Hw Hw' Ht Ht' Hbytes Ha Ha'.
apply resolved_mapping_of_received_text; try assumption.
apply BufferFacts.codeUnits_inj.
rewrite <- (BufferFacts.received_whole wire trace Hr Ha).
rewrite <- (BufferFacts.received_whole wire' trace' Hr' Ha').
now rewrite Hbytes.
Qed.

End ScanRunnerAtLarge.

Lemma resolved_mapping_ignores_aligned_chunking_witness :
  let wire := [ {| Wire.time := 1;
                   Wire.event :=
                     Wire.Stdout (WireScenario.accentedWord
                                  ++ WireScenario.accentedEnd)%list |} ] in
  let whole := [ {| Scan.time := 1;
                    Scan.event := Scan.Stdout WireScenario.accentedLine |} ] in
  let wire' := [ {| Wire.time := 30;
                    Wire.event := Wire.Stdout WireScenario.accentedWord |};
                 {| Wire.time := 2000;
                    Wire.event := Wire.Stdout WireScenario.accentedEnd |} ] in
  let pieces := [ {| Scan.time := 30;
                     Scan.event :=
                       Scan.Stdout ("8" ++ String Scan.tab
                                        WireScenario.accentedPath) |};
                  {| Scan.time := 2000;
                     Scan.event := Scan.Stdout (String Scan.newline "") |} ] in
  Wire.received wire whole
  /\ Wire.received wire' pieces
  /\ Wire.stdoutOf wire = Wire.stdoutOf wire'
  /\ Scan.promise
       (Scan.executeDuWithProgress "/a" true false 0
          (whole ++ [ {| Scan.time := 2; Scan.event := Scan.Close (Some 0%Z) |} ])
          3)
     = Scan.promise
         (Scan.executeDuWithProgress "/a" true true 10
            (pieces
             ++ [ {| Scan.time := 2001; Scan.event := Scan.Close (Some 0%Z) |} ])
            2002).
Proof.
intros wire whole wire' pieces.
assert (Hr : Wire.received wire whole).
{ apply Forall2_cons; [split; [reflexivity | vm_compute; reflexivity]|].
  apply Forall2_nil. }
assert (Hr' : Wire.received wire' pieces).
{ apply Forall2_cons; [split; [reflexivity | vm_compute; reflexivity]|].
  apply Forall2_cons; [split; [reflexivity | vm_compute; reflexivity]|].
  apply Forall2_nil. }
assert (Hbytes : Wire.stdoutOf wire = Wire.stdoutOf wire')
  by (vm_compute; reflexivity).
split; [exact Hr|]. split; [exact Hr'|]. split; [exact Hbytes|].
exact (proj1 (resolved_mapping_ignores_aligned_chunking
                "/a" true true false true 0%Z 10%Z wire wire' whole pieces
                2%Z 2001%Z 3%Z 2002%Z Hr Hr' eq_refl eq_refl eq_refl eq_refl
                Hbytes eq_refl eq_refl)).
Defined.

Section ScanProgress.
Import JsString JsStringFacts Scan ScanSpec ScanFacts RunFacts Observed.

Variable rootPath : string.
Variable onProgress : bool.

Lemma fireDue_progress (now : Z) (st : State) :
  progress (fireDue now st) = progress st
  /\ lastProgressTime (fireDue now st) = lastProgressTime st.
Proof.
unfold fireDue. destruct (timeout st) as [due|]; [|now split].
destruct (due <=? now)%Z; [|now split].
unfold onTimeout, settle, kill, clearTimeout; simpl.
destruct (promise st); now split.
Qed.

(** Between the start, or the interim call before, and an interim call
    more than a second has passed. *)
Lemma step_throttled (startedAt horizon : Z) (st : State) (o : Occurrence) :
  (time o <= horizon)%Z ->
  (lastProgressTime st <= horizon)%Z ->
  (startedAt + 1000 * Z.of_nat (List.length (interimCalls st))
   <= lastProgressTime st)%Z ->
  let st' := step rootPath onProgress st o in
  (lastProgressTime st' <= horizon)%Z
  /\ (startedAt + 1000 * Z.of_nat (List.length (interimCalls st'))
      <= lastProgressTime st')%Z.
Proof.
intros Ho Hh Hinv st'. subst st'. unfold step.
destruct (fireDue_progress (time o) st) as [Hfp Hfl].
assert (Hinv' : (startedAt
                 + 1000 * Z.of_nat (List.length
                                      (interimCalls (fireDue (time o) st)))
                 <= lastProgressTime (fireDue (time o) st))%Z)
  by (unfold interimCalls; now rewrite Hfp, Hfl).
rewrite <- Hfl in Hh. clear Hinv Hfp Hfl.
set (s := fireDue (time o) st) in *. clearbody s.
unfold handle. destruct (event o) as [data|data|code|message].
- unfold onStdoutData. rewrite drain_spec by (simpl; lia).
  rewrite fold_processLine_setBuffer.
  set (ls := completeLines _).
  destruct (fold_processLine_frame ls s) as (_ & _ & _ & Hpg & Hlt).
  unfold interimCalls in *.
  destruct onProgress; cbn [andb lastProgressTime progress setBuffer];
    [|rewrite Hpg, Hlt; now split].
  rewrite Hlt.
  destruct (Z.ltb_spec 1000 (time o - lastProgressTime s));
    cbn [lastProgressTime progress setBuffer setLastProgressTime emit].
  + rewrite Hpg, filter_app, List.length_app.
    cbn [filter isComplete negb List.length].
    rewrite Nat2Z.inj_add. change (Z.of_nat 1) with 1%Z. split; lia.
  + rewrite Hpg, Hlt. now split.
- now split.
- assert (Hc : progress (onClose rootPath onProgress s code)
               = progress s
                 \/ exists p, isComplete p = true
                              /\ progress (onClose rootPath onProgress s code)
                                 = (progress s ++ [p])%list).
  { destruct (flush_frame s) as (_ & _ & _ & H4).
    unfold onClose.
    destruct code as [[| |]|]; destruct onProgress; unfold settle; simpl;
      repeat match goal with
             | |- context [match promise ?x with _ => _ end] =>
                 destruct (promise x)
             end; simpl; rewrite ?H4; auto;
      (right; eexists; split; [|reflexivity]; reflexivity). }
  assert (Hl : lastProgressTime (onClose rootPath onProgress s code)
               = lastProgressTime s).
  { pose proof (flush_lastProgressTime s) as H5.
    unfold onClose.
    destruct code as [[| |]|]; destruct onProgress; unfold settle; simpl;
      repeat match goal with
             | |- context [match promise ?x with _ => _ end] =>
                 destruct (promise x)
             end; simpl; assumption. }
  rewrite Hl. unfold interimCalls in *.
  destruct Hc as [->|(p & Hp & ->)]; [now split|].
  rewrite filter_app. simpl. rewrite Hp. simpl. rewrite List.app_nil_r.
  now split.
- unfold onError, settle, interimCalls in *.
  destruct (promise s); simpl; now split.
Qed.

(** Progress is throttled: however fast the child writes, [onProgress] is
    called while it writes at most once for every full second since the
    scan was started. *)
Theorem progress_throttled :
  forall (includeFiles : bool) (startedAt : Z) (trace : list Occurrence)
         (horizon : Z),
    (startedAt <= horizon)%Z ->
    forallb (notAfter horizon) trace = true ->
    let st := executeDuWithProgress rootPath includeFiles onProgress startedAt
                                    trace horizon in
    (1000 * Z.of_nat (List.length (interimCalls st)) <= horizon - startedAt)%Z.
Proof.
intros includeFiles startedAt trace horizon Hstart Htrace st.
assert (Hfold : forall s,
           (lastProgressTime s <= horizon)%Z ->
           (startedAt + 1000 * Z.of_nat (List.length (interimCalls s))
            <= lastProgressTime s)%Z ->
           let s' := fold_left (step rootPath onProgress) trace s in
           (lastProgressTime s' <= horizon)%Z
           /\ (startedAt + 1000 * Z.of_nat (List.length (interimCalls s'))
               <= lastProgressTime s')%Z).
{ induction trace as [|o trace IH]; intros s H1 H2; simpl; [now split|].
  simpl in Htrace. apply andb_true_iff in Htrace as [Ho Htrace].
  unfold notAfter in Ho. apply Z.leb_le in Ho.
  destruct (step_throttled startedAt horizon s o Ho H1 H2) as [H1' H2'].
  now apply IH. }
destruct (Hfold (spawned rootPath startedAt)) as [H1 H2];
  [simpl; lia | simpl; lia |].
subst st. unfold executeDuWithProgress.
destruct (fireDue_progress horizon
            (fold_left (step rootPath onProgress) trace
                       (spawned rootPath startedAt))) as [Hp Hl].
unfold interimCalls in *. rewrite Hp. lia.
Qed.

(** The [error] handler rejects the promise and leaves the timer alone.
    The rejection stands whatever comes after; the timer is cleared by a
    [close] that follows, and otherwise still fires at the deadline and
    kills the child. *)
Theorem spawn_error_rejects_first :
  forall (includeFiles : bool) (startedAt : Z) (trace : list Occurrence)
         (t : Z) (message : string),
    forallb (writesBefore (startedAt + TIMEOUT_MS)) trace = true ->
    (t < startedAt + TIMEOUT_MS)%Z ->
    let failed := (trace ++ [ {| time := t; event := Error message |} ])%list in
    (forall horizon,
        let st := executeDuWithProgress rootPath includeFiles onProgress
                                        startedAt failed horizon in
        promise st = Some (Rejected message)
        /\ killed st = (startedAt + TIMEOUT_MS <=? horizon)%Z
        /\ timeout st = if (startedAt + TIMEOUT_MS <=? horizon)%Z then None
                        else Some (startedAt + TIMEOUT_MS)%Z)
    /\ (forall code t' horizon,
           (t' < startedAt + TIMEOUT_MS)%Z ->
           let st := executeDuWithProgress rootPath includeFiles onProgress
                       startedAt
                       (failed ++ [ {| time := t'; event := Close code |} ])
                       horizon in
           promise st = Some (Rejected message)
           /\ killed st = false
           /\ timeout st = None).
Proof.
intros includeFiles startedAt trace t message Hw Ht failed.
destruct (spawned_open rootPath startedAt) as (H1 & H2 & H3).
destruct (run_writes_open rootPath onProgress _ trace _ Hw H1 H2 H3)
  as (Htm & Hpr & Hk).
set (s1 := fold_left (step rootPath onProgress) trace
                     (spawned rootPath startedAt)) in *.
assert (Hfailed : fold_left (step rootPath onProgress) failed
                            (spawned rootPath startedAt)
                  = onError s1 message).
{ subst failed. rewrite fold_left_app. fold s1. cbn [fold_left].
  unfold step, handle. simpl. now rewrite (fireDue_early _ _ _ Htm Ht). }
assert (Herr : promise (onError s1 message) = Some (Rejected message)
               /\ timeout (onError s1 message) = Some (startedAt + TIMEOUT_MS)%Z
               /\ killed (onError s1 message) = false).
{ unfold onError, settle. rewrite Hpr. simpl. now repeat split. }
destruct Herr as (He1 & He2 & He3).
split.
- intros horizon st. subst st. unfold executeDuWithProgress. rewrite Hfailed.
  destruct (Z.leb_spec (startedAt + TIMEOUT_MS) horizon) as [Hlate|Hearly].
  + destruct (fireDue_late horizon _ _ He2 Hlate) as (Hk' & Ht' & _ & Hp').
    split; [|now split]. rewrite Hp'; [assumption | rewrite He1; discriminate].
  + rewrite (fireDue_early _ _ _ He2 Hearly). now repeat split.
- intros code t' horizon Ht' st. subst st. unfold executeDuWithProgress.
  rewrite fold_left_app, Hfailed. cbn [fold_left].
  unfold step, handle. cbn [event time].
  rewrite (fireDue_early _ _ _ He2 Ht').
  set (s2 := onError s1 message) in *.
  assert (Hclose : promise (onClose rootPath onProgress s2 code)
                   = Some (Rejected message)
                   /\ killed (onClose rootPath onProgress s2 code) = false
                   /\ timeout (onClose rootPath onProgress s2 code) = None).
  { destruct (flush_frame s2) as (F1 & _ & F3 & _).
    rewrite He1 in F1. rewrite He3 in F3. unfold onClose.
    destruct code as [[| |]|]; destruct onProgress; unfold settle; simpl;
      rewrite ?F1; simpl; rewrite ?F1, ?F3; now repeat split. }
  destruct Hclose as (C1 & C2 & C3).
  rewrite (fireDue_idle _ _ C3). now repeat split.
Qed.

End ScanProgress.

Lemma progress_throttled_witness :
  let trace := [ {| Scan.time := 1500;
                    Scan.event := Scan.Stdout (Scenario.line "4" "/a/x") |};
                 {| Scan.time := 1900;
                    Scan.event := Scan.Stdout (Scenario.line "4" "/a/y") |};
                 {| Scan.time := 2600;
                    Scan.event := Scan.Stdout (Scenario.line "4" "/a/z") |} ] in
  (0 <= 3000)%Z
  /\ forallb (Observed.notAfter 3000) trace = true
  /\ (1000 * Z.of_nat
               (List.length
                  (Observed.interimCalls
                     (Scan.executeDuWithProgress "/a" true true 0 trace 3000)))
      <= 3000 - 0)%Z.
Proof.
intros trace.
assert (H1 : (0 <= 3000)%Z) by discriminate.
assert (H2 : forallb (Observed.notAfter 3000) trace = true) by reflexivity.
split; [exact H1|]. split; [exact H2|].
exact (progress_throttled "/a" true true 0%Z trace 3000%Z H1 H2).
Defined.

Lemma spawn_error_rejects_first_witness :
  forallb (ScanSpec.writesBefore (0 + Scan.TIMEOUT_MS)) [] = true
  /\ (3 < 0 + Scan.TIMEOUT_MS)%Z
  /\ Scan.killed
       (Scan.executeDuWithProgress "/a" true false 0
          [ {| Scan.time := 3; Scan.event := Scan.Error "spawn du ENOENT" |} ]
          600000)
     = true.
Proof.
assert (H1 : forallb (ScanSpec.writesBefore (0 + Scan.TIMEOUT_MS)) [] = true)
  by reflexivity.
assert (H2 : (3 < 0 + Scan.TIMEOUT_MS)%Z) by reflexivity.
destruct (spawn_error_rejects_first "/a" false true 0%Z [] 3%Z
            "spawn du ENOENT" H1 H2) as [Hrun _].
destruct (Hrun 600000%Z) as (_ & Hk & _).
split; [exact H1|]. split; [exact H2|]. exact Hk.
Defined.

(** *** Normalized paths are fixed points *)

Section Idempotence.
Import JsString JsStringFacts ScanSpec DeleteSpec Observed.

Lemma normalizeSegments_plain (segs : list string) :
  forall stack,
    Forall (fun x => allChars (fun c => negb (Ascii.eqb c "/")) x = true) segs ->
    Forall plain stack ->
    Forall plain (NodePath.normalizeSegments false segs stack).
Proof.
induction segs as [|s segs IH]; intros stack Hsegs Hstack;
  cbn [NodePath.normalizeSegments].
- now apply Forall_rev.
- inversion Hsegs as [|? ? Hs Hrest]; subst.
  destruct (String.eqb_spec s "") as [He|He]; cbn [orb]; [now apply IH|].
  destruct (String.eqb_spec s ".") as [Hd|Hd]; [now apply IH|].
  destruct (String.eqb_spec s "..") as [Hdd|Hdd].
  + destruct stack as [|top below]; [now apply IH|].
    inversion Hstack; subst.
    destruct (top =? ".."); now apply IH.
  + apply IH; [assumption|]. constructor; [|assumption].
    split; [|now split]. unfold isComponent. rewrite Hs.
    apply String.eqb_neq in He. now rewrite He.
Qed.

Lemma normalizeSegments_fixed (segs : list string) :
  forall stack,
    Forall (fun x => x <> "." /\ x <> "..") segs ->
    NodePath.normalizeSegments false segs stack
    = (List.rev stack ++ filter (fun s => negb (s =? "")) segs)%list.
Proof.
induction segs as [|s segs IH]; intros stack Hsegs;
  cbn [NodePath.normalizeSegments filter].
- now rewrite List.app_nil_r.
- inversion Hsegs as [|? ? [Hd Hdd] Hrest]; subst.
  destruct (String.eqb_spec s "") as [He|He]; cbn [orb negb]; [now apply IH|].
  destruct (String.eqb_spec s "."); [contradiction|].
  destruct (String.eqb_spec s ".."); [contradiction|].
  rewrite (IH (s :: stack) Hrest). cbn [List.rev].
  now rewrite <- List.app_assoc.
Qed.

Lemma split_joined_slash (segs : list string) :
  Forall (fun x => isComponent x = true) segs ->
  segs <> [] ->
  split "/" (String.concat "/" segs ++ "/") = (segs ++ [""])%list.
Proof.
induction segs as [|s segs IH]; intros H Hne; [congruence|].
inversion H as [|? ? Hs Hrest]; subst.
pose proof (component_slash_free s Hs) as Hfree.
destruct segs as [|s2 segs].
- cbn [String.concat]. change (s ++ "/") with (s ++ String "/" "").
  now rewrite (split_component s "" Hfree).
- change (String.concat "/" (s :: s2 :: segs))
    with (s ++ "/" ++ String.concat "/" (s2 :: segs)).
  rewrite app_assoc.
  change (("/" ++ String.concat "/" (s2 :: segs)) ++ "/")
    with (String "/" (String.concat "/" (s2 :: segs) ++ "/")).
  rewrite (split_component s _ Hfree), IH by (assumption || discriminate).
  reflexivity.
Qed.

(** [path.resolve] gives back what it is given when that is the separator
    followed by genuine names. *)
Lemma resolve_fixed (cwd : string) (segs : list string) :
  Forall plain segs ->
  NodePath.resolve cwd ("/" ++ String.concat "/" segs)
  = "/" ++ String.concat "/" segs.
Proof.
intros Hsegs.
assert (Hcomp : Forall (fun x => isComponent x = true) segs)
  by (eapply Forall_impl; [|exact Hsegs]; now intros x [Hx _]).
assert (Hdots : Forall (fun x => x <> "." /\ x <> "..") segs)
  by (eapply Forall_impl; [|exact Hsegs]; now intros x [_ Hx]).
unfold NodePath.resolve.
change ("/" ++ String.concat "/" segs =? "") with false.
change (NodePath.isAbsolute ("/" ++ String.concat "/" segs)) with true.
cbv iota. cbn [negb]. unfold NodePath.normalizeString.
change (("/" ++ String.concat "/" segs) ++ "/")
  with (String "/" (String.concat "/" segs ++ "/")).
destruct segs as [|s segs]; [reflexivity|].
assert (Hsplit : split "/" (String "/" (String.concat "/" (s :: segs) ++ "/"))
                 = "" :: ((s :: segs) ++ [""])%list).
{ rewrite <- (split_joined_slash (s :: segs) Hcomp) by discriminate.
  reflexivity. }
rewrite Hsplit.
rewrite normalizeSegments_fixed.
- assert (Hkeep : filter (fun x => negb (x =? "")) (s :: segs) = s :: segs).
  { apply forallb_filter_id. apply forallb_forall. intros x Hx.
    rewrite Forall_forall in Hcomp. specialize (Hcomp x Hx).
    unfold isComponent in Hcomp. now apply andb_true_iff in Hcomp as [Hc _]. }
  change (filter (fun x => negb (x =? "")) ("" :: ((s :: segs) ++ [""])%list))
    with (filter (fun x => negb (x =? "")) ((s :: segs) ++ [""])%list).
  rewrite filter_app, Hkeep. cbn [filter String.eqb negb List.rev].
  now rewrite List.app_nil_r.
- constructor; [split; discriminate|].
  apply Forall_app. split; [assumption|].
  constructor; [split; discriminate | constructor].
Qed.

(** The shape of [path.resolve], with the names genuine. *)
Lemma resolve_plain (cwd p : string) :
  NodePath.isAbsolute cwd = true ->
  exists segs,
    NodePath.resolve cwd p = "/" ++ String.concat "/" segs
    /\ Forall plain segs.
Proof.
intros Habs. unfold NodePath.resolve.
assert (Hcwd : (cwd =? "") = false) by (destruct cwd; [discriminate|reflexivity]).
assert (H : forall x, exists segs,
             "/" ++ NodePath.normalizeString x false = "/" ++ String.concat "/" segs
             /\ Forall plain segs).
{ intros x. eexists. split; [reflexivity|].
  apply normalizeSegments_plain; [apply split_slash_free | constructor]. }
destruct (p =? ""); [rewrite Habs; apply H|].
destruct (NodePath.isAbsolute p); [apply H|].
rewrite Hcwd, Habs. apply H.
Qed.

(** [normalizePath] is idempotent, and what it returns is absolute and
    ends in no separator, the root directory excepted: a normalized path
    is its own normal form, wherever the process runs. *)
Theorem normalizePath_idempotent :
  forall (cwd cwd' p : string),
    NodePath.isAbsolute cwd = true ->
    normalizePath cwd' (normalizePath cwd p) = normalizePath cwd p
    /\ NodePath.isAbsolute (normalizePath cwd p) = true
    /\ (normalizePath cwd p = "/"
        \/ NodePath.endsWithSlash (normalizePath cwd p) = false).
Proof.
intros cwd cwd' p Habs.
destruct (resolve_plain cwd p Habs) as (segs & Hres & Hsegs).
assert (Hcomp : Forall (fun x => isComponent x = true) segs)
  by (eapply Forall_impl; [|exact Hsegs]; now intros x [Hx _]).
assert (Hnorm : normalizePath cwd p = "/" ++ String.concat "/" segs).
{ unfold normalizePath. rewrite Hres.
  destruct segs as [|s segs]; [reflexivity|].
  destruct (strip_joined (s :: segs) Hcomp) as [H1 H2]; [discriminate|].
  rewrite strip_app by (now rewrite H1). rewrite H1. reflexivity. }
split; [|split].
- pose proof Hnorm as Hfix. unfold normalizePath in Hfix. rewrite Hres in Hfix.
  rewrite Hnorm. unfold normalizePath.
  now rewrite (resolve_fixed cwd' segs Hsegs).
- now rewrite Hnorm.
- rewrite Hnorm. destruct segs as [|s segs]; [now left|]. right.
  destruct (strip_joined (s :: segs) Hcomp) as [H1 H2]; [discriminate|].
  assert (Hend : forall x, stripTrailingSlashes x = x -> x <> "" ->
                           NodePath.endsWithSlash x = false).
  { induction x as [|c x IHx]; [reflexivity|].
    cbn [stripTrailingSlashes]. intros Hx _.
    destruct x as [|c' x].
    - cbn [NodePath.endsWithSlash]. cbn [stripTrailingSlashes String.eqb] in Hx.
      rewrite andb_true_r in Hx. destruct (Ascii.eqb c "/"); [discriminate|].
      reflexivity.
    - change (NodePath.endsWithSlash (String c (String c' x)))
        with (NodePath.endsWithSlash (String c' x)).
      apply IHx; [|discriminate].
      destruct (Ascii.eqb c "/" && (stripTrailingSlashes (String c' x) =? ""));
        [discriminate|].
      now injection Hx. }
  change ("/" ++ String.concat "/" (s :: segs))
    with (String "/" (String.concat "/" (s :: segs))).
  destruct (String.concat "/" (s :: segs)) as [|c x] eqn:Hj; [contradiction|].
  change (NodePath.endsWithSlash (String "/" (String c x)))
    with (NodePath.endsWithSlash (String c x)).
  apply Hend; [assumption | discriminate].
Qed.

End Idempotence.

Lemma normalizePath_idempotent_witness :
  NodePath.isAbsolute "/home/u" = true
  /\ normalizePath "/srv" (normalizePath "/home/u" "../v//w/./x/")
     = normalizePath "/home/u" "../v//w/./x/"
  /\ normalizePath "/home/u" "../v//w/./x/" = "/home/v/w/x".
Proof.
assert (H : NodePath.isAbsolute "/home/u" = true) by reflexivity.
destruct (normalizePath_idempotent "/home/u" "/srv" "../v//w/./x/" H)
  as (Hi & _).
split; [exact H|]. split; [exact Hi|]. vm_compute. reflexivity.
Defined.

Lemma isDangerous_exact_witness :
  NodePath.isAbsolute "/home/u" = true
  /\ isDangerous (NodePath.resolve "/home/u" "../../usrlocal/bin")
     = DeleteSpec.deniedRootItselfOnly
         (NodePath.resolve "/home/u" "../../usrlocal/bin")
  /\ isDangerous (NodePath.resolve "/home/u" "../../usrlocal/bin") = false.
Proof.
assert (H : NodePath.isAbsolute "/home/u" = true) by reflexivity.
split; [exact H|].
split; [exact (isDangerous_exact "/home/u" "../../usrlocal/bin" H)|].
vm_compute. reflexivity.
Defined.

Lemma invalidateDuCache_away_from_root_witness :
  let d := {| sizeMap := JsMap.empty; timestamp := 0 |} in
  let cache := [("/a", d); ("/a/b/c", d); ("/ab", d); ("/x", d)] in
  NodePath.isAbsolute "/srv" = true
  /\ normalizePath "/srv" "/a/b" <> "/"
  /\ (forall root d', In (root, d') cache -> normalizePath "/srv" root <> "/")
  /\ invalidateDuCache "/srv" cache "/a/b"
     = filter
         (fun e => negb (related (normalizePath "/srv" "/a/b")
                                 (normalizePath "/srv" (fst e))))
         cache.
Proof.
intros d cache.
assert (H1 : NodePath.isAbsolute "/srv" = true) by reflexivity.
assert (H2 : normalizePath "/srv" "/a/b" <> "/") by (vm_compute; discriminate).
assert (H3 : forall root d', In (root, d') cache ->
                             normalizePath "/srv" root <> "/").
{ intros root d' Hin. simpl in Hin.
  destruct Hin as [[= <- _]|[[= <- _]|[[= <- _]|[[= <- _]|[]]]]];
    vm_compute; discriminate. }
split; [exact H1|]. split; [exact H2|]. split; [exact H3|].
exact (invalidateDuCache_away_from_root "/srv" cache "/a/b" H1 H2 H3).
Defined.

Lemma covers_ancestor_or_self_witness :
  NodePath.isAbsolute "/srv" = true
  /\ normalizePath "/srv" "/home/u/" <> "/"
  /\ covers (normalizePath "/srv" "/home/u/") (normalizePath "/srv" "/home/user")
     = (normalizePath "/srv" "/home/user" =? normalizePath "/srv" "/home/u/")
       || Path.liesBeneath (normalizePath "/srv" "/home/u/")
                           (normalizePath "/srv" "/home/user").
Proof.
assert (H1 : NodePath.isAbsolute "/srv" = true) by reflexivity.
assert (H2 : normalizePath "/srv" "/home/u/" <> "/")
  by (vm_compute; discriminate).
split; [exact H1|]. split; [exact H2|].
exact (covers_ancestor_or_self "/srv" "/home/u/" "/home/user" H1 H2).
Defined.

(** *** The [delete-file] handler, request by request *)

Section DeleteHandler.
Import Observed.

Variable cwd : string.
Variable fs : Fs.t.

(** The handler reports success in one case only: the guard let the path
    through, the existence check passed, [stat] answered, and the removal
    that fits the answer, [rmdir] for a directory and [unlink] for
    anything else, went through. *)
Theorem deleteFile_success_iff :
  forall (filePath : string),
    success (reply (deleteFile cwd fs filePath)) = true
    <-> (isDangerous (NodePath.resolve cwd filePath) = false
         /\ Fs.access fs filePath = true
         /\ exists stats,
              Fs.stat fs filePath = Fs.Returned stats
              /\ (if Fs.isDirectory stats then Fs.rmdir fs filePath
                  else Fs.unlink fs filePath) = None).
Proof.
intros filePath. unfold deleteFile.
destruct (isDangerous (NodePath.resolve cwd filePath)); simpl.
- split; [discriminate | intros [H _]; discriminate].
- destruct (Fs.access fs filePath); simpl.
  + destruct (Fs.stat fs filePath) as [stats|e]; simpl.
    * split.
      -- intros H. split; [reflexivity|]. split; [reflexivity|].
         exists stats. split; [reflexivity|].
         destruct (Fs.isDirectory stats).
         ++ destruct (Fs.rmdir fs filePath); [discriminate | reflexivity].
         ++ destruct (Fs.unlink fs filePath); [discriminate | reflexivity].
      -- intros (_ & _ & stats' & [= <-] & Hrm).
         destruct (Fs.isDirectory stats); now rewrite Hrm.
    * split; [discriminate|].
      intros (_ & _ & stats & Hs & _). discriminate.
  + split; [discriminate | intros (_ & H & _); discriminate].
Qed.

(** Whatever the answer, the handler touches the file system in one order
    only, on the path it was given and no other: existence check, [stat],
    then at most one removal; a directory is never unlinked and nothing
    else is ever handed to the recursive [rmdir]. *)
Theorem deleteFile_calls_in_order :
  forall (filePath : string),
    let made := calls (deleteFile cwd fs filePath) in
    (made = []
     \/ made = [CallAccess filePath]
     \/ made = [CallAccess filePath; CallStat filePath]
     \/ made = [CallAccess filePath; CallStat filePath; CallRmdir filePath]
     \/ made = [CallAccess filePath; CallStat filePath; CallUnlink filePath])
    /\ (forall c, In c made -> callPath c = filePath)
    /\ (forall p, In (CallRmdir p) made ->
                  exists stats, Fs.stat fs filePath = Fs.Returned stats
                                /\ Fs.isDirectory stats = true)
    /\ (forall p, In (CallUnlink p) made ->
                  exists stats, Fs.stat fs filePath = Fs.Returned stats
                                /\ Fs.isDirectory stats = false).
Proof.
intros filePath made. subst made. unfold deleteFile.
destruct (isDangerous (NodePath.resolve cwd filePath)); simpl.
- split; [now left|]. repeat split; intros ? [].
- destruct (Fs.access fs filePath); simpl.
  + destruct (Fs.stat fs filePath) as [stats|e]; simpl.
    * destruct (Fs.isDirectory stats) eqn:Hd.
      -- split; [do 3 right; now left|]. split; [|split].
         ++ intros c [<-|[<-|[<-|[]]]]; reflexivity.
         ++ intros p _. now exists stats.
         ++ intros p [H|[H|[H|[]]]]; discriminate.
      -- split; [do 4 right; reflexivity|]. split; [|split].
         ++ intros c [<-|[<-|[<-|[]]]]; reflexivity.
         ++ intros p [H|[H|[H|[]]]]; discriminate.
         ++ intros p _. now exists stats.
    * split; [right; right; now left|]. split; [|split].
      -- intros c [<-|[<-|[]]]; reflexivity.
      -- intros p [H|[H|[]]]; discriminate.
      -- intros p [H|[H|[]]]; discriminate.
  + split; [right; now left|]. split; [|split].
    * intros c [<-|[]]; reflexivity.
    * intros p [H|[]]; discriminate.
    * intros p [H|[]]; discriminate.
Qed.

End DeleteHandler.

Lemma deleteFile_success_iff_witness :
  success (reply (deleteFile "/home/u" DeleteSpec.homeFs "notes.txt")) = false
  /\ success (reply (deleteFile "/home/u" DeleteSpec.homeFs "/home/u/notes.txt"))
     = true.
Proof.
split; [reflexivity|].
apply (proj2 (deleteFile_success_iff "/home/u" DeleteSpec.homeFs
                "/home/u/notes.txt")).
split; [reflexivity|]. split; [reflexivity|].
eexists. split; reflexivity.
Defined.

(** *** One record for each root *)

Section OneRecordPerRoot.
Import JsMapFacts.

Lemma wf_filter (V : Type) (f : string * V -> bool) (m : JsMap.t V) :
  JsMap.wf m -> JsMap.wf (filter f m).
Proof.
unfold JsMap.wf, JsMap.keys. induction m as [|[k v] m IH]; simpl; [auto|].
intros Hnd. inversion Hnd as [|? ? Hnotin Hnd']; subst.
destruct (f (k, v)); simpl; [|now apply IH].
constructor; [|now apply IH].
intros Hin. apply Hnotin. apply in_map_iff in Hin as ([k' v'] & Hk & Hin).
apply filter_In in Hin as [Hin _]. apply in_map_iff. now exists (k', v').
Qed.

(** The cache holds at most one record for a root, and every operation of
    the program keeps it so: the validity check, the invalidation, the
    clearing, the scan that stores its result and the listing built on
    them. *)
Theorem cache_keeps_one_record_per_root :
  forall (cwd : string) (fs : Fs.t) (cache : Cache) (clock : nat -> Z)
         (now : Z) (p : string) (full fallback : ScanRun),
    JsMap.wf cache ->
    JsMap.wf (snd (isDuCacheValid cache now p))
    /\ JsMap.wf (invalidateDuCache cwd cache p)
    /\ JsMap.wf (clearDuCache cache)
    /\ JsMap.wf (cacheAfter (getAllDirectorySizes cache now p full fallback))
    /\ JsMap.wf (cacheLeft (getDirectoryContents cwd fs cache clock now p
                                                 full fallback)).
Proof.
intros cwd fs cache clock now p full fallback Hwf.
assert (Hvalid : forall R, JsMap.wf (snd (isDuCacheValid cache now R))).
{ intros R. unfold isDuCacheValid.
  destruct (negb (JsMap.has cache R)); [assumption|].
  destruct (JsMap.get cache R) as [d|]; [|assumption]. simpl.
  destruct (now - timestamp d <? CACHE_EXPIRY)%Z; [assumption|].
  now apply wf_delete. }
assert (Hsizes : forall R,
           JsMap.wf (cacheAfter (getAllDirectorySizes cache now R full fallback))).
{ intros R. unfold getAllDirectorySizes. specialize (Hvalid R).
  destruct (isDuCacheValid cache now R) as [[|] cache1]; simpl in *;
    [assumption|].
  destruct (outcome full) as [m|message]; simpl; [now apply wf_set|].
  destruct (wantsFallback message); simpl; [|assumption].
  destruct (outcome fallback); simpl; [now apply wf_set | assumption]. }
split; [apply Hvalid|]. split; [|split; [apply wf_empty|split; [apply Hsizes|]]].
- rewrite invalidateDuCache_filter. now apply wf_filter.
- unfold getDirectoryContents.
  destruct (Fs.stat fs p) as [stats|e]; [|assumption].
  destruct (Fs.isDirectory stats); simpl; [|assumption].
  destruct (Fs.readdir fs p); simpl; apply Hsizes.
Qed.

End OneRecordPerRoot.

Lemma cache_keeps_one_record_per_root_witness :
  let cache := [("/tmp/proj",
                 {| sizeMap := Scenario.duSizes; timestamp := 5 |})] in
  JsMap.wf cache
  /\ JsMap.wf (cacheLeft (getDirectoryContents "/" Scenario.projFs cache
                            (fun _ => 4000000%Z) 4000000 "/tmp/proj"
                            Scenario.goodScan Scenario.failedScan)).
Proof.
intros cache.
assert (H : JsMap.wf cache) by (repeat constructor; simpl; tauto).
split; [exact H|].
exact (proj2 (proj2 (proj2 (proj2
         (cache_keeps_one_record_per_root "/" Scenario.projFs cache
            (fun _ => 4000000%Z) 4000000%Z "/tmp/proj"
            Scenario.goodScan Scenario.failedScan H))))).
Defined.

(** *** The recursive tree *)

Section DirectoryTree.
Import JsString TreeSpec.

Variable fs : Fs.t.

Lemma fileBytes_dir (n p : string) (s : Z) (cs : list Tree) :
  fileBytes (DirNode n p s cs)
  = fold_right (fun c acc => (fileBytes c + acc)%Z) 0%Z cs.
Proof.
reflexivity.
Qed.

Lemma sizesAddUp_dir (n p : string) (s : Z) (cs : list Tree) :
  sizesAddUp (DirNode n p s cs)
  = (s =? fold_right (fun c acc => (TreeNode.size c + acc)%Z) 0%Z cs)%Z
    && forallb sizesAddUp cs.
Proof.
reflexivity.
Qed.

Lemma reachedVisibly_dir (n p : string) (s : Z) (cs : list Tree) :
  reachedVisibly fs (DirNode n p s cs)
  = forallb
      (fun c =>
         match Fs.readdir fs p with
         | Fs.Returned entries =>
             existsb (fun entry =>
                        negb (startsWith entry ".")
                        && (TreeNode.path c =? NodePath.join p entry))
                     entries
         | Fs.Threw _ => false
         end && reachedVisibly fs c)
      cs.
Proof.
reflexivity.
Qed.

Lemma fold_visit_stuck (recur : string -> option (option Tree))
      (p : string) (entries : list string) :
  fold_left (visitTreeEntry recur p) entries None = None.
Proof. induction entries as [|e entries IH]; [reflexivity | exact IH]. Qed.

(** What the loop over the entries adds: a node for each entry that
    starts with no dot and for which the recursive call returns one, in
    order, and their sizes to the total. *)
Lemma fold_visit_children (recur : string -> option (option Tree))
      (p : string) (entries : list string) :
  forall cs total cs' total',
    fold_left (visitTreeEntry recur p) entries (Some (cs, total))
    = Some (cs', total') ->
    exists added,
      cs' = (cs ++ added)%list
      /\ total' = (total + fold_right (fun c acc => (TreeNode.size c + acc)%Z)
                                      0%Z added)%Z
      /\ Forall (fun c => exists e,
                     In e entries /\ startsWith e "." = false
                     /\ recur (NodePath.join p e) = Some (Some c))
                added.
Proof.
induction entries as [|e entries IH]; intros cs total cs' total' H.
- injection H as <- <-. exists []. rewrite List.app_nil_r. cbn [fold_right].
  split; [reflexivity|]. split; [lia | constructor].
- cbn [fold_left] in H. unfold visitTreeEntry at 2 in H.
  destruct (startsWith e ".") eqn:Hdot.
  + destruct (IH _ _ _ _ H) as (added & H1 & H2 & H3).
    exists added. split; [assumption|]. split; [assumption|].
    eapply Forall_impl; [|exact H3].
    intros c (e' & Hin & Hv & Hr). exists e'. split; [now right | now split].
  + destruct (recur (NodePath.join p e)) as [[child|]|] eqn:Hrec.
    * destruct (IH _ _ _ _ H) as (added & H1 & H2 & H3).
      exists (child :: added). split; [now rewrite H1, <- List.app_assoc|].
      split; [cbn [fold_right]; lia|].
      constructor; [exists e; split; [now left | now split]|].
      eapply Forall_impl; [|exact H3].
      intros c (e' & Hin & Hv & Hr). exists e'. split; [now right | now split].
    * destruct (IH _ _ _ _ H) as (added & H1 & H2 & H3).
      exists added. split; [assumption|]. split; [assumption|].
      eapply Forall_impl; [|exact H3].
      intros c (e' & Hin & Hv & Hr). exists e'. split; [now right | now split].
    * now rewrite fold_visit_stuck in H.
Qed.

(** In the tree [getDirectoryTree] returns, every directory has the size
    of its children taken together, so that the size of the tree is the
    bytes of the files in it; and nothing in it was reached through an
    entry that starts with a dot. *)
Theorem getDirectoryTree_sizes_add_up :
  forall (fuel : nat) (dirPath : string) (t : Tree),
    getDirectoryTree fuel fs dirPath = Some (Some t) ->
    TreeNode.path t = dirPath
    /\ sizesAddUp t = true
    /\ TreeNode.size t = fileBytes t
    /\ reachedVisibly fs t = true.
Proof.
induction fuel as [|fuel IH]; intros dirPath t H; [discriminate|].
cbn [getDirectoryTree] in H.
destruct (Fs.stat fs dirPath) as [stats|e]; [|discriminate].
destruct (Fs.isFile stats); [injection H as <-; now repeat split|].
destruct (Fs.isDirectory stats); [|discriminate].
destruct (Fs.readdir fs dirPath) as [entries|e] eqn:Hrd;
  [|injection H as <-; now repeat split].
destruct (fold_left (visitTreeEntry (getDirectoryTree fuel fs) dirPath)
                    entries (Some ([], 0%Z))) as [[cs total]|] eqn:Hfold;
  [|discriminate].
injection H as <-.
destruct (fold_visit_children _ _ _ _ _ _ _ Hfold) as (added & H1 & H2 & H3).
cbn [app] in H1. subst cs.
assert (Hall : Forall (fun c =>
                         sizesAddUp c = true
                         /\ TreeNode.size c = fileBytes c
                         /\ reachedVisibly fs c = true
                         /\ exists e, In e entries /\ startsWith e "." = false
                                      /\ TreeNode.path c = NodePath.join dirPath e)
                      added).
{ eapply Forall_impl; [|exact H3].
  intros c (e & Hin & Hv & Hr).
  destruct (IH _ _ Hr) as (Hp & Hs & Hb & Hvis).
  split; [assumption|]. split; [assumption|]. split; [assumption|].
  now exists e. }
clear H3 Hfold.
split; [reflexivity|].
rewrite sizesAddUp_dir, fileBytes_dir, reachedVisibly_dir, Hrd.
cbn [TreeNode.size]. rewrite H2, Z.add_0_l.
split; [|split].
- rewrite Z.eqb_refl. cbn [andb]. apply forallb_forall. intros c Hc.
  rewrite Forall_forall in Hall. now destruct (Hall c Hc).
- clear H2. induction Hall as [|c added (_ & Hc & _) _ IHa]; [reflexivity|].
  cbn [fold_right]. now rewrite Hc, IHa.
- apply forallb_forall. intros c Hc.
  rewrite Forall_forall in Hall.
  destruct (Hall c Hc) as (_ & _ & Hvis & e & Hin & Hv & Hp).
  rewrite Hvis, andb_true_r. apply existsb_exists. exists e.
  split; [assumption|]. rewrite Hv, Hp, String.eqb_refl. reflexivity.
Qed.

Lemma fold_visit_more (recur recur' : string -> option (option Tree))
      (p : string) (entries : list string) :
  (forall q r, recur q = Some r -> recur' q = Some r) ->
  forall acc x,
    fold_left (visitTreeEntry recur p) entries acc = Some x ->
    fold_left (visitTreeEntry recur' p) entries acc = Some x.
Proof.
intros Hmore. induction entries as [|e entries IH]; intros acc x H;
  [assumption|].
cbn [fold_left] in *.
destruct acc as [[cs total]|]; [|now rewrite fold_visit_stuck in H].
unfold visitTreeEntry at 2 in H. unfold visitTreeEntry at 2.
destruct (startsWith e "."); [now apply IH|].
destruct (recur (NodePath.join p e)) as [r|] eqn:Hr;
  [|now rewrite fold_visit_stuck in H].
rewrite (Hmore _ _ Hr). now apply IH.
Qed.

Lemma getDirectoryTree_more_fuel (fuel : nat) :
  forall dirPath r,
    getDirectoryTree fuel fs dirPath = Some r ->
    getDirectoryTree (S fuel) fs dirPath = Some r.
Proof.
induction fuel as [|fuel IH]; intros dirPath r H; [discriminate|].
remember (S fuel) as k eqn:Hk.
cbn [getDirectoryTree]. rewrite Hk in H. cbn [getDirectoryTree] in H.
destruct (Fs.stat fs dirPath) as [stats|e]; [|assumption].
destruct (Fs.isFile stats); [assumption|].
destruct (Fs.isDirectory stats); [|assumption].
destruct (Fs.readdir fs dirPath) as [entries|e]; [|assumption].
destruct (fold_left (visitTreeEntry (getDirectoryTree fuel fs) dirPath)
                    entries (Some ([], 0%Z))) as [x|] eqn:Hfold;
  [|discriminate].
subst k.
now rewrite (fold_visit_more (getDirectoryTree fuel fs)
               (getDirectoryTree (S fuel) fs) dirPath entries IH _ _ Hfold).
Qed.

(** [getDirectoryTree] returns on every path below which the file system
    is finitely deep, and what it returns does not depend on how much
    deeper the recursion would have been let go. *)
Theorem getDirectoryTree_returns :
  forall (depth : nat) (dirPath : string),
    nestsWithin fs depth dirPath = true ->
    exists r,
      forall extra, getDirectoryTree (depth + extra) fs dirPath = Some r.
Proof.
assert (Hstable : forall depth dirPath r,
           getDirectoryTree depth fs dirPath = Some r ->
           forall extra, getDirectoryTree (depth + extra) fs dirPath = Some r).
{ intros depth dirPath r H extra. induction extra as [|extra IHe].
  - now rewrite Nat.add_0_r.
  - rewrite Nat.add_succ_r. now apply getDirectoryTree_more_fuel. }
assert (Hret : forall depth dirPath,
           nestsWithin fs depth dirPath = true ->
           exists r, getDirectoryTree depth fs dirPath = Some r).
{ induction depth as [|depth IH]; intros dirPath H; [discriminate|].
  cbn [nestsWithin] in H. cbn [getDirectoryTree].
  destruct (Fs.stat fs dirPath) as [stats|e]; [|eexists; reflexivity].
  destruct (Fs.isFile stats); [eexists; reflexivity|].
  destruct (Fs.isDirectory stats); [|eexists; reflexivity].
  destruct (Fs.readdir fs dirPath) as [entries|e]; [|eexists; reflexivity].
  assert (Hloop : forall acc,
             exists x,
               fold_left (visitTreeEntry (getDirectoryTree depth fs) dirPath)
                         entries (Some acc) = Some x).
  { induction entries as [|e entries IHe]; intros acc; [now exists acc|].
    cbn [forallb] in H. apply andb_true_iff in H as [He H].
    cbn [fold_left]. unfold visitTreeEntry at 2. destruct acc as [cs total].
    destruct (startsWith e "."); [now apply IHe|].
    cbn [orb] in He. destruct (IH _ He) as [[child|] Hr]; rewrite Hr;
      now apply IHe. }
  destruct (Hloop ([], 0%Z)) as [[cs total] Hx]. rewrite Hx.
  eexists; reflexivity. }
intros depth dirPath H. destruct (Hret depth dirPath H) as [r Hr].
exists r. now apply Hstable.
Qed.

End DirectoryTree.

Lemma getDirectoryTree_sizes_add_up_witness :
  getDirectoryTree 2 Scenario.projFs "/tmp/proj"
  = Some (Some (DirNode "proj" "/tmp/proj" 100
                  [ FileNode "f1" "/tmp/proj/f1" 100;
                    DirNode "sub" "/tmp/proj/sub" 0 [] ]))
  /\ TreeNode.size (DirNode "proj" "/tmp/proj" 100
                      [ FileNode "f1" "/tmp/proj/f1" 100;
                        DirNode "sub" "/tmp/proj/sub" 0 [] ])
     = TreeSpec.fileBytes (DirNode "proj" "/tmp/proj" 100
                             [ FileNode "f1" "/tmp/proj/f1" 100;
                               DirNode "sub" "/tmp/proj/sub" 0 [] ]).
Proof.
assert (H : getDirectoryTree 2 Scenario.projFs "/tmp/proj"
            = Some (Some (DirNode "proj" "/tmp/proj" 100
                            [ FileNode "f1" "/tmp/proj/f1" 100;
                              DirNode "sub" "/tmp/proj/sub" 0 [] ])))
  by (vm_compute; reflexivity).
split; [exact H|].
exact (proj1 (proj2 (proj2
         (getDirectoryTree_sizes_add_up Scenario.projFs 2 "/tmp/proj" _ H)))).
Defined.

Lemma getDirectoryTree_returns_witness :
  TreeSpec.nestsWithin Scenario.projFs 2 "/tmp/proj" = true
  /\ exists r, forall extra,
       getDirectoryTree (2 + extra) Scenario.projFs "/tmp/proj" = Some r.
Proof.
assert (H : TreeSpec.nestsWithin Scenario.projFs 2 "/tmp/proj" = true)
  by (vm_compute; reflexivity).
split; [exact H|].
exact (getDirectoryTree_returns Scenario.projFs 2 "/tmp/proj" H).
Defined.

(** *** The size of one directory *)

Section OneDirectory.
Import JsString JsStringFacts JsMapFacts.

Variable cwd : string.

(** When the lookup finds a cached root for the directory,
    [calculateDirectorySize] answers from that record without a scan: what
    the record's mapping holds under the path exactly as it was passed,
    not a number or not, and 0 when it holds nothing under it. *)
Theorem calculateDirectorySize_from_covering_record :
  forall (cache : Cache) (now : Z) (dirPath : string)
         (full fallback : ScanRun) (r : string),
    JsMap.wf cache ->
    findCachedRoot cwd (fun _ => now) cache dirPath = Some r ->
    r <> "" ->
    let got := calculateDirectorySize cwd cache (fun _ => now) now dirPath
                                      None full fallback in
    scansThen got = []
    /\ cacheThen got = cache
    /\ exists d,
         JsMap.get cache r = Some d
         /\ measured got = match JsMap.get (sizeMap d) dirPath with
                           | Some sizeBytes => sizeBytes
                           | None => JsNum.Int 0
                           end.
Proof.
intros cache now dirPath full fallback r Hwf Hfind Hne got.
destruct (findCachedRoot_Some_spec cwd (fun _ => now) cache dirPath r Hfind)
  as ((i & d & Hi & Hv) & _).
apply nth_error_In in Hi. apply (In_get _ _ _ _ Hwf) in Hi.
assert (Hvalid : isDuCacheValid cache now r = (true, cache)).
{ apply (isDuCacheValid_valid cache r d now Hi).
  unfold validAt in Hv. now apply Z.ltb_lt in Hv. }
assert (Hgot : getAllDirectorySizes cache now r full fallback
               = {| sizes := sizeMap d; cacheAfter := cache; scans := [] |}).
{ unfold getAllDirectorySizes. rewrite Hvalid, Hi. reflexivity. }
subst got. unfold calculateDirectorySize. rewrite Hfind.
assert (Hor : orElse r dirPath = r).
{ unfold orElse. destruct (String.eqb_spec r ""); [contradiction | reflexivity]. }
rewrite Hor, Hgot. cbn [scansThen cacheThen measured sizes cacheAfter scans].
split; [reflexivity|]. split; [reflexivity|].
exists d. split; [exact Hi|].
unfold JsMap.has. now destruct (JsMap.get (sizeMap d) dirPath).
Qed.

(** With a root passed in, no lookup is made: the sizes are asked of that
    root, and when the scan fails the answer is 0, as it is when the scan
    resolves with a mapping that holds nothing under the path. *)
Theorem calculateDirectorySize_given_root :
  forall (cache : Cache) (clock : nat -> Z) (now : Z) (dirPath R : string)
         (full fallback : ScanRun),
    R <> "" ->
    fst (isDuCacheValid cache now R) = false ->
    let got := calculateDirectorySize cwd cache clock now dirPath (Some R)
                                      full fallback in
    hd_error (scansThen got) = Some (R, true)
    /\ (forall message,
           outcome full = Scan.Rejected message ->
           wantsFallback message = false ->
           measured got = JsNum.Int 0
           /\ JsMap.get (cacheThen got) R = None)
    /\ (forall m,
           outcome full = Scan.Resolved m ->
           measured got = match JsMap.get m dirPath with
                          | Some sizeBytes => sizeBytes
                          | None => JsNum.Int 0
                          end
           /\ JsMap.get (cacheThen got) R
              = Some {| sizeMap := m; timestamp := finishedAt full |}).
Proof.
intros cache clock now dirPath R full fallback Hne Hv got.
subst got. unfold calculateDirectorySize.
destruct (String.eqb_spec R ""); [contradiction|].
cbn [scansThen cacheThen measured].
split; [now apply getAllDirectorySizes_scans|]. split.
- intros message Ho Hw.
  destruct (getAllDirectorySizes_failed cache now R full fallback message
              Hv Ho (or_introl Hw)) as (Hs & Hc & _).
  rewrite Hs, Hc. split; [reflexivity|].
  now destruct (isDuCacheValid_false cache R now Hv).
- intros m Ho. unfold getAllDirectorySizes.
  destruct (isDuCacheValid cache now R) as [valid cache1]. simpl in Hv.
  subst valid. rewrite Ho. cbn [sizes cacheAfter].
  split; [|apply get_set_same].
  unfold JsMap.has. now destruct (JsMap.get m dirPath).
Qed.

End OneDirectory.

Lemma calculateDirectorySize_from_covering_record_witness :
  let cache := [("/tmp/proj",
                 {| sizeMap := [("/tmp/proj/sub", JsNum.NaN)];
                    timestamp := 5 |})] in
  JsMap.wf cache
  /\ findCachedRoot "/" (fun _ => 1000%Z) cache "/tmp/proj/sub"
     = Some "/tmp/proj"
  /\ "/tmp/proj" <> ""
  /\ measured (calculateDirectorySize "/" cache (fun _ => 1000%Z) 1000
                 "/tmp/proj/sub" None Scenario.failedScan Scenario.failedScan)
     = JsNum.NaN.
Proof.
intros cache.
assert (H1 : JsMap.wf cache).
{ repeat constructor. simpl. tauto. }
assert (H2 : findCachedRoot "/" (fun _ => 1000%Z) cache "/tmp/proj/sub"
             = Some "/tmp/proj") by (vm_compute; reflexivity).
assert (H3 : "/tmp/proj" <> "") by discriminate.
destruct (calculateDirectorySize_from_covering_record "/" cache 1000%Z
            "/tmp/proj/sub" Scenario.failedScan Scenario.failedScan
            "/tmp/proj" H1 H2 H3) as (_ & _ & d & Hd & Hm).
split; [exact H1|]. split; [exact H2|]. split; [exact H3|].
rewrite Hm. injection Hd as <-. reflexivity.
Defined.

Lemma calculateDirectorySize_given_root_witness :
  "/tmp/proj" <> ""
  /\ fst (isDuCacheValid JsMap.empty 0 "/tmp/proj") = false
  /\ measured (calculateDirectorySize "/" JsMap.empty (fun _ => 0%Z) 0
                 "/tmp/proj/sub" (Some "/tmp/proj")
                 Scenario.failedScan Scenario.failedScan)
     = JsNum.Int 0.
Proof.
assert (H1 : "/tmp/proj" <> "") by discriminate.
assert (H2 : fst (isDuCacheValid JsMap.empty 0 "/tmp/proj") = false)
  by reflexivity.
destruct (calculateDirectorySize_given_root "/" JsMap.empty (fun _ => 0%Z)
            0%Z "/tmp/proj/sub" "/tmp/proj"
            Scenario.failedScan Scenario.failedScan H1 H2) as (_ & Hfail & _).
destruct (Hfail (Scan.failedMessage (Some 2%Z)) eq_refl) as [Hm _];
  [vm_compute; reflexivity|].
split; [exact H1|]. split; [exact H2|]. exact Hm.
Defined.

(** *** The listing read off [ls -la] *)

Module SplitFacts.
Import JsString JsStringFacts JsRegExp ScanSpec LsSpec LsEntry.

Lemma splitRuns_nonempty (b : bool) (s : string) : splitRuns b s <> [].
Proof.
revert b; induction s as [|c s IH]; intros b; cbn [splitRuns]; [discriminate|].
destruct (isWhiteSpace c).
- destruct b; [apply IH | discriminate].
- destruct (splitRuns false s); discriminate.
Qed.

Lemma splitRuns_word (w t : string) :
  allChars (fun c => negb (isWhiteSpace c)) w = true ->
  splitRuns false (w ++ t)
  = match splitRuns false t with
    | x :: xs => (w ++ x) :: xs
    | [] => [w]
    end.
Proof.
induction w as [|c w IH]; intros Hw.
- cbn [append]. destruct (splitRuns false t) eqn:Ht; [|reflexivity].
  now destruct (splitRuns_nonempty false t).
- cbn [allChars] in Hw. apply andb_true_iff in Hw as [Hc Hw].
  apply negb_true_iff in Hc.
  change (String c w ++ t) with (String c (w ++ t)).
  cbn [splitRuns]. rewrite Hc, (IH Hw).
  destruct (splitRuns false t); reflexivity.
Qed.

Lemma splitRuns_inRun (t : string) :
  startsPlain t = true -> splitRuns true t = splitRuns false t.
Proof.
destruct t as [|c t]; [reflexivity|]. cbn [startsPlain splitRuns].
intros Hc. apply negb_true_iff in Hc. now rewrite Hc.
Qed.

Lemma splitRuns_gap_inRun (g t : string) :
  allChars isWhiteSpace g = true ->
  splitRuns true (g ++ t) = splitRuns true t.
Proof.
induction g as [|c g IH]; intros Hg; [reflexivity|].
cbn [allChars] in Hg. apply andb_true_iff in Hg as [Hc Hg].
change (String c g ++ t) with (String c (g ++ t)).
cbn [splitRuns]. rewrite Hc. now apply IH.
Qed.

(** A word, a gap, and what follows: the word is the first piece. *)
Lemma split_column (w g t : string) :
  isWord w = true -> isGap g = true -> startsPlain t = true ->
  splitWhiteSpace (w ++ g ++ t) = w :: splitWhiteSpace t.
Proof.
unfold isWord, isGap, splitWhiteSpace. intros Hw Hg Ht.
apply andb_true_iff in Hw as [_ Hw]. apply andb_true_iff in Hg as [Hne Hg].
rewrite (splitRuns_word w (g ++ t) Hw).
destruct g as [|c g]; [discriminate|].
cbn [allChars] in Hg. apply andb_true_iff in Hg as [Hc Hg].
change (String c g ++ t) with (String c (g ++ t)).
cbn [splitRuns]. rewrite Hc, (splitRuns_gap_inRun g t Hg), (splitRuns_inRun t Ht).
now rewrite app_empty_r.
Qed.

Lemma startsPlain_word (w t : string) :
  isWord w = true -> startsPlain (w ++ t) = true.
Proof.
unfold isWord. intros Hw. apply andb_true_iff in Hw as [Hne Hw].
destruct w as [|c w]; [discriminate|].
cbn [allChars] in Hw. now apply andb_true_iff in Hw as [Hc _].
Qed.

Lemma split_words (ws : list string) :
  ws <> [] ->
  Forall (fun w => isWord w = true) ws ->
  splitWhiteSpace (String.concat " " ws) = ws
  /\ startsPlain (String.concat " " ws) = true.
Proof.
induction ws as [|w ws IH]; intros Hne Hws; [congruence|].
inversion Hws as [|? ? Hw Hrest]; subst.
destruct ws as [|w2 ws].
- cbn [String.concat]. split.
  + pose proof Hw as Hw'. unfold isWord in Hw'.
    apply andb_true_iff in Hw' as [_ Hfree].
    unfold splitWhiteSpace. rewrite <- (app_empty_r w) at 1.
    rewrite (splitRuns_word w "" Hfree). cbn [splitRuns].
    now rewrite app_empty_r.
  + rewrite <- (app_empty_r w). now apply startsPlain_word.
- change (String.concat " " (w :: w2 :: ws))
    with (w ++ " " ++ String.concat " " (w2 :: ws)).
  destruct IH as [IH1 IH2]; [discriminate | assumption |].
  split; [|now apply startsPlain_word].
  rewrite (split_column w " " _ Hw eq_refl IH2). now rewrite IH1.
Qed.

Lemma printed_startsPlain (columns : list (string * string)) (name : string) :
  Forall (fun col => isWord (fst col) = true /\ isGap (snd col) = true) columns ->
  startsPlain name = true ->
  startsPlain (printed columns name) = true.
Proof.
intros Hcols Hname. destruct Hcols as [|col columns [Hw _] _]; [assumption|].
cbn [printed fold_right]. now apply startsPlain_word.
Qed.

Lemma split_printed (columns : list (string * string)) (name : string) :
  Forall (fun col => isWord (fst col) = true /\ isGap (snd col) = true) columns ->
  startsPlain name = true ->
  splitWhiteSpace (printed columns name)
  = (map fst columns ++ splitWhiteSpace name)%list.
Proof.
intros Hcols Hname. induction Hcols as [|col columns [Hw Hg] Hrest IH];
  [reflexivity|].
cbn [printed fold_right map app].
fold (printed columns name).
rewrite (split_column _ _ _ Hw Hg (printed_startsPlain _ _ Hrest Hname)).
now rewrite IH.
Qed.

Lemma trimEnd_app (a b : string) :
  trimEnd b <> "" -> trimEnd (a ++ b) = a ++ trimEnd b.
Proof.
intros Hb. induction a as [|c a IH]; [reflexivity|].
change (String c a ++ b) with (String c (a ++ b)).
cbn [trimEnd]. rewrite IH.
destruct (String.eqb_spec (a ++ trimEnd b) "") as [He|_].
- destruct a; [contradiction | discriminate].
- now rewrite andb_false_r.
Qed.

Lemma trimEnd_plain (w : string) :
  allChars (fun c => negb (isWhiteSpace c)) w = true -> trimEnd w = w.
Proof.
induction w as [|c w IH]; intros Hw; [reflexivity|].
cbn [allChars] in Hw. apply andb_true_iff in Hw as [Hc Hw].
apply negb_true_iff in Hc. cbn [trimEnd]. now rewrite Hc, (IH Hw).
Qed.

Lemma trimEnd_word (w : string) :
  isWord w = true -> trimEnd w = w /\ w <> "".
Proof.
unfold isWord. intros Hw. apply andb_true_iff in Hw as [Hne Hw].
split; [now apply trimEnd_plain|].
intros ->. discriminate.
Qed.

Lemma trimEnd_words (ws : list string) :
  ws <> [] ->
  Forall (fun w => isWord w = true) ws ->
  trimEnd (String.concat " " ws) = String.concat " " ws
  /\ String.concat " " ws <> "".
Proof.
induction ws as [|w ws IH]; intros Hne Hws; [congruence|].
inversion Hws as [|? ? Hw Hrest]; subst.
destruct ws as [|w2 ws]; [now apply trimEnd_word|].
change (String.concat " " (w :: w2 :: ws))
  with (w ++ " " ++ String.concat " " (w2 :: ws)).
destruct IH as [IH1 IH2]; [discriminate | assumption |].
assert (Hg : trimEnd (" " ++ String.concat " " (w2 :: ws))
             = " " ++ String.concat " " (w2 :: ws))
  by (rewrite trimEnd_app; rewrite IH1; [reflexivity | assumption]).
split.
- rewrite trimEnd_app; rewrite Hg; [reflexivity | discriminate].
- destruct (trimEnd_word w Hw) as [_ Hw'].
  destruct w; [contradiction | discriminate].
Qed.

Lemma trimEnd_printed (columns : list (string * string)) (name : string) :
  trimEnd name = name -> name <> "" ->
  trimEnd (printed columns name) = printed columns name
  /\ printed columns name <> "".
Proof.
intros Ht Hne. induction columns as [|[w g] columns [IH1 IH2]]; [now split|].
cbn [printed fold_right fst snd]. fold (printed columns name).
assert (Hg : trimEnd (g ++ printed columns name) = g ++ printed columns name)
  by (rewrite trimEnd_app; rewrite IH1; [reflexivity | assumption]).
assert (Hgne : g ++ printed columns name <> "").
{ destruct g; [assumption | discriminate]. }
split.
- rewrite trimEnd_app; rewrite Hg; [reflexivity | assumption].
- destruct w; [assumption | discriminate].
Qed.

Lemma trimStart_plain (s : string) : startsPlain s = true -> trimStart s = s.
Proof.
destruct s as [|c s]; [reflexivity|]. cbn [startsPlain trimStart].
intros Hc. apply negb_true_iff in Hc. now rewrite Hc.
Qed.

End SplitFacts.

Section FileList.
Import JsString JsStringFacts JsRegExp ScanSpec LsSpec LsEntry SplitFacts.

(** A line as [ls -l] prints it, eight columns of one word each, separated
    by white space of any width, and then the name, its words one space
    apart, is read back as exactly that entry, added last, unless the name
    is [.] or [..]; the three date columns come back joined by single
    spaces. *)
Lemma visitLine_printed (result : list FileEntry.t)
      (columns : list (string * string)) (nameWords : list string) :
  List.length columns = 8 ->
  Forall (fun col => isWord (fst col) = true /\ isGap (snd col) = true)
         columns ->
  nameWords <> [] ->
  Forall (fun w => isWord w = true) nameWords ->
  visitLine result (printed columns (String.concat " " nameWords))
  = if (String.concat " " nameWords =? ".")
       || (String.concat " " nameWords =? "..")
    then result
    else (result ++ [entryOf columns (String.concat " " nameWords)])%list.
Proof.
intros Hlen Hcols Hne Hwords.
set (name := String.concat " " nameWords) in *.
destruct (split_words nameWords Hne Hwords) as [Hsplit Hplain].
destruct (trimEnd_words nameWords Hne Hwords) as [Hend Hnonempty].
fold name in Hsplit, Hplain, Hend, Hnonempty.
destruct (trimEnd_printed columns name Hend Hnonempty) as [Hpt Hpne].
assert (Htrim : trim (printed columns name) = printed columns name).
{ unfold trim.
  now rewrite (trimStart_plain _ (printed_startsPlain _ _ Hcols Hplain)). }
unfold visitLine. rewrite Htrim.
destruct (String.eqb_spec (printed columns name) ""); [contradiction|].
rewrite (split_printed columns name Hcols Hplain), Hsplit.
destruct columns as [|c0 [|c1 [|c2 [|c3 [|c4 [|c5 [|c6 [|c7 [|c8 rest]]]]]]]]];
  try discriminate Hlen.
destruct nameWords as [|w ws]; [congruence|].
cbn [map app List.length Nat.ltb Nat.leb nth skipn fst].
fold name. reflexivity.
Qed.

Lemma allChars_app (f : ascii -> bool) (a b : string) :
  allChars f (a ++ b) = allChars f a && allChars f b.
Proof.
induction a as [|c a IH]; [reflexivity|].
change (String c a ++ b) with (String c (a ++ b)).
cbn [allChars]. now rewrite IH, andb_assoc.
Qed.

Lemma allChars_impl (f g : ascii -> bool) (s : string) :
  (forall c, f c = true -> g c = true) ->
  allChars f s = true -> allChars g s = true.
Proof.
intros Hfg. induction s as [|c s IH]; [reflexivity|].
cbn [allChars]. intros H. apply andb_true_iff in H as [Hc Hs].
now rewrite (Hfg c Hc), (IH Hs).
Qed.

Lemma word_noNewline (w : string) : isWord w = true -> noNewline w = true.
Proof.
unfold isWord, noNewline. intros H. apply andb_true_iff in H as [_ H].
apply (allChars_impl (fun c => negb (isWhiteSpace c))
                     (fun c => negb (Ascii.eqb c Scan.newline)) w);
  [|assumption].
intros c Hc. destruct (Ascii.eqb_spec c Scan.newline) as [->|]; [|reflexivity].
discriminate.
Qed.

Lemma words_noNewline (ws : list string) :
  Forall (fun w => isWord w = true) ws ->
  noNewline (String.concat " " ws) = true.
Proof.
induction ws as [|w ws IH]; intros H; [reflexivity|].
inversion H as [|? ? Hw Hrest]; subst.
destruct ws as [|w2 ws]; [now apply word_noNewline|].
change (String.concat " " (w :: w2 :: ws))
  with (w ++ " " ++ String.concat " " (w2 :: ws)).
pose proof (word_noNewline w Hw) as H1. pose proof (IH Hrest) as H2.
unfold noNewline in *. rewrite !allChars_app.
now rewrite H1, H2.
Qed.

Lemma split_at (c : ascii) (a b : string) :
  allChars (fun x => negb (Ascii.eqb x c)) a = true ->
  split c (a ++ String c b) = a :: split c b.
Proof.
induction a as [|x a IH]; intros H.
- cbn [append split]. now rewrite Ascii.eqb_refl.
- cbn [allChars] in H. apply andb_true_iff in H as [Hx H].
  apply negb_true_iff in Hx.
  change (String x a ++ String c b) with (String x (a ++ String c b)).
  cbn [split]. now rewrite Hx, (IH H).
Qed.

Lemma split_whole (c : ascii) (a : string) :
  allChars (fun x => negb (Ascii.eqb x c)) a = true -> split c a = [a].
Proof.
induction a as [|x a IH]; intros H; [reflexivity|].
cbn [allChars] in H. apply andb_true_iff in H as [Hx H].
apply negb_true_iff in Hx. cbn [split]. now rewrite Hx, (IH H).
Qed.

Lemma trimEnd_gap (a g : string) :
  allChars isWhiteSpace g = true -> trimEnd (a ++ g) = trimEnd a.
Proof.
intros Hg.
assert (Hgap : trimEnd g = "").
{ induction g as [|c g IH]; [reflexivity|].
  cbn [allChars] in Hg. apply andb_true_iff in Hg as [Hc Hg].
  cbn [trimEnd]. now rewrite Hc, (IH Hg). }
induction a as [|c a IH]; [assumption|].
change (String c a ++ g) with (String c (a ++ g)).
cbn [trimEnd]. now rewrite IH.
Qed.

(** What a well printed row gives to work with. *)
Lemma wellPrinted_spec (r : Row) :
  wellPrinted r = true ->
  List.length (fst r) = 8
  /\ Forall (fun col => isWord (fst col) = true /\ isGap (snd col) = true)
            (fst r)
  /\ snd r <> []
  /\ Forall (fun w => isWord w = true) (snd r)
  /\ noNewline (rowLine r) = true.
Proof.
unfold wellPrinted. intros H.
apply andb_true_iff in H as [H Hwords].
apply andb_true_iff in H as [H Hne].
apply andb_true_iff in H as [Hlen Hcols].
apply Nat.eqb_eq in Hlen.
rewrite forallb_forall in Hcols, Hwords.
assert (Hw : Forall (fun w => isWord w = true) (snd r))
  by (apply Forall_forall; exact Hwords).
split; [assumption|]. split; [|split; [|split; [assumption|]]].
- apply Forall_forall. intros col Hin. specialize (Hcols col Hin).
  apply andb_true_iff in Hcols as [Hc _].
  now apply andb_true_iff in Hc.
- destruct (snd r); [discriminate | discriminate].
- unfold rowLine, rowName.
  assert (Hname : noNewline (String.concat " " (snd r)) = true)
    by now apply words_noNewline.
  revert Hcols. generalize (fst r) as columns.
  induction columns as [|col columns IH]; intros Hcols; [assumption|].
  cbn [printed fold_right]. fold (printed columns (String.concat " " (snd r))).
  pose proof (Hcols col (or_introl eq_refl)) as Hc.
  apply andb_true_iff in Hc as [Hc Hgap].
  apply andb_true_iff in Hc as [Hword _].
  pose proof (word_noNewline _ Hword) as Hw1.
  assert (Hrest : noNewline (printed columns (String.concat " " (snd r))) = true)
    by (apply IH; intros col' Hin; apply Hcols; now right).
  unfold noNewline in *. rewrite !allChars_app.
  now rewrite Hw1, Hgap, Hrest.
Qed.

(** [getFileList] reads back what [ls -la] printed: one entry for each row
    but those named [.] and [..], in order, with the columns as printed;
    the line of the total is dropped. *)
Theorem getFileList_reads_listing :
  forall (exec : Exec) (dirPath : string) (total : list string)
         (rows : list Row),
    total <> [] ->
    Forall (fun w => isWord w = true) total ->
    forallb wellPrinted rows = true ->
    exec (lsCommand dirPath) = Fs.Returned (listingOutput total rows) ->
    getFileList exec dirPath
    = map rowEntry (filter (fun r => negb (isDots r)) rows).
Proof.
intros exec dirPath total rows Hne Htotal Hrows Hexec.
unfold getFileList. rewrite Hexec. cbv zeta.
set (header := String.concat " " total).
set (body := fun (rs : list Row) =>
               String.concat "" (map (fun r => String Scan.newline (rowLine r)) rs)).
destruct (split_words total Hne Htotal) as [_ Hplain].
destruct (trimEnd_words total Hne Htotal) as [Hend Hnonempty].
fold header in Hplain, Hend, Hnonempty.
rewrite forallb_forall in Hrows.
assert (Hrow : forall r, In r rows ->
                         trimEnd (rowLine r) = rowLine r /\ rowLine r <> ""
                         /\ noNewline (rowLine r) = true).
{ intros r Hin.
  destruct (wellPrinted_spec r (Hrows r Hin)) as (_ & _ & Hn & Hw & Hnl).
  destruct (trimEnd_words (snd r) Hn Hw) as [H1 H2].
  destruct (trimEnd_printed (fst r) (rowName r) H1 H2) as [H3 H4].
  now repeat split. }
assert (Hconcat : forall r rs,
           body (r :: rs) = String Scan.newline (rowLine r) ++ body rs).
{ intros r rs. unfold body. cbn [map String.concat].
  destruct (map _ rs) eqn:Hm; [|reflexivity].
  cbn [String.concat]. now rewrite app_empty_r. }
assert (Hkeep : forall rs a,
           (forall r, In r rs -> In r rows) ->
           trimEnd a = a -> a <> "" ->
           trimEnd (a ++ body rs) = a ++ body rs).
{ induction rs as [|r rs IH]; intros a Hsub Ha Hane.
  - unfold body. cbn [map String.concat]. now rewrite app_empty_r.
  - rewrite Hconcat.
    change (a ++ String Scan.newline (rowLine r) ++ body rs)
      with (a ++ (String Scan.newline "" ++ rowLine r) ++ body rs).
    rewrite app_assoc, <- (app_assoc a), <- (app_assoc (a ++ _)).
    destruct (Hrow r (Hsub r (or_introl eq_refl))) as (H1 & H2 & _).
    apply IH.
    + intros r' Hin. apply Hsub. now right.
    + rewrite app_assoc.
      rewrite trimEnd_app; rewrite trimEnd_app; rewrite H1;
        try assumption; try reflexivity.
      destruct (rowLine r); [contradiction | discriminate].
    + destruct a; [contradiction | discriminate]. }
assert (Hlines : forall rs a,
           (forall r, In r rs -> In r rows) ->
           noNewline a = true ->
           split Scan.newline (a ++ body rs) = a :: map rowLine rs).
{ induction rs as [|r rs IH]; intros a Hsub Ha.
  - unfold body. cbn [map String.concat]. rewrite app_empty_r.
    now apply split_whole.
  - rewrite Hconcat.
    change (a ++ String Scan.newline (rowLine r) ++ body rs)
      with (a ++ String Scan.newline (rowLine r ++ body rs)).
    rewrite (split_at _ _ _ Ha). cbn [map]. f_equal.
    apply IH; [intros r' Hin; apply Hsub; now right|].
    now destruct (Hrow r (Hsub r (or_introl eq_refl))) as (_ & _ & H3). }
assert (Htrim : trim (listingOutput total rows) = header ++ body rows).
{ unfold trim, listingOutput. fold header. fold (body rows).
  rewrite trimStart_plain.
  - rewrite <- app_assoc, trimEnd_gap by reflexivity.
    now apply Hkeep.
  - destruct header as [|c h]; [contradiction | exact Hplain]. }
rewrite Htrim, Hlines; [|auto | now apply words_noNewline].
cbn [tl].
assert (Hfold : forall rs acc,
           (forall r, In r rs -> In r rows) ->
           fold_left visitLine (map rowLine rs) acc
           = (acc ++ map rowEntry (filter (fun r => negb (isDots r)) rs))%list).
{ induction rs as [|r rs IH]; intros acc Hsub.
  - cbn [map filter fold_left]. now rewrite List.app_nil_r.
  - cbn [map filter fold_left].
    destruct (wellPrinted_spec r (Hrows r (Hsub r (or_introl eq_refl))))
      as (Hl & Hc & Hn & Hw & _).
    change (rowLine r) with (printed (fst r) (String.concat " " (snd r))).
    rewrite (visitLine_printed acc (fst r) (snd r) Hl Hc Hn Hw).
    rewrite IH by (intros r' Hin; apply Hsub; now right).
    change (isDots r) with ((String.concat " " (snd r) =? ".")
                            || (String.concat " " (snd r) =? "..")).
    destruct ((String.concat " " (snd r) =? ".")
              || (String.concat " " (snd r) =? "..")); cbn [negb map];
      [reflexivity|].
    now rewrite <- List.app_assoc. }
now rewrite Hfold.
Qed.

End FileList.

Lemma getFileList_reads_listing_witness :
  let rows := [ ([ ("drwxr-xr-x", "  "); ("5", " "); ("u", " ");
                   ("staff", "  "); ("160", " "); ("Nov", "  "); ("3", " ");
                   ("10:40", " ") ], ["."]);
                ([ ("-rw-r--r--", "  "); ("1", " "); ("u", " ");
                   ("staff", "   "); ("12", " "); ("Nov", "  "); ("3", " ");
                   ("10:41", " ") ], ["my"; "notes.txt"]) ] in
  let exec := fun _ : string =>
                Fs.Returned (LsSpec.listingOutput ["total"; "8"] rows) in
  getFileList exec "/home/u"
  = [ {| FileEntry.permissions := "-rw-r--r--";
         FileEntry.links := "1";
         FileEntry.owner := "u";
         FileEntry.group := "staff";
         FileEntry.size := "12";
         FileEntry.date := "Nov 3 10:41";
         FileEntry.name := "my notes.txt" |} ].
Proof.
intros rows exec.
assert (H1 : ["total"; "8"] <> []) by discriminate.
assert (H2 : Forall (fun w => LsSpec.isWord w = true) ["total"; "8"])
  by (repeat constructor).
assert (H3 : forallb LsSpec.wellPrinted rows = true) by reflexivity.
assert (H4 : exec (lsCommand "/home/u")
             = Fs.Returned (LsSpec.listingOutput ["total"; "8"] rows))
  by reflexivity.
exact (getFileList_reads_listing exec "/home/u" ["total"; "8"] rows
         H1 H2 H3 H4).
Defined.

Section FileListEntries.
Import JsString JsStringFacts JsRegExp ScanSpec LsSpec LsEntry SplitFacts.

Lemma trimEnd_fixed (c : ascii) (s : string) :
  trimEnd (String c s) = String c s ->
  trimEnd s = s /\ (isWhiteSpace c = true -> s <> "").
Proof.
cbn [trimEnd].
destruct (isWhiteSpace c && (trimEnd s =? "")) eqn:Hc; [discriminate|].
intros [= Hs]. split; [assumption|].
intros Hw ->. now rewrite Hw in Hc.
Qed.

(** The pieces of a trimmed string that is not empty are words. *)
Lemma splitRuns_words (s : string) :
  forall b,
    trimEnd s = s -> s <> "" ->
    (b = false -> startsPlain s = true) ->
    Forall (fun w => isWord w = true) (splitRuns b s).
Proof.
induction s as [|c s IH]; intros b Hend Hne Hstart; [contradiction|].
destruct (trimEnd_fixed c s Hend) as [Hs Hws].
cbn [splitRuns]. destruct (isWhiteSpace c) eqn:Hc.
- destruct b; [|now specialize (Hstart eq_refl); cbn in Hstart; rewrite Hc in Hstart].
  apply IH; [assumption | now apply Hws | discriminate].
- destruct s as [|d s'].
  + cbn [splitRuns]. constructor; [|constructor].
    unfold isWord. cbn [allChars String.eqb]. now rewrite Hc.
  + assert (Hall : Forall (fun w => isWord w = true)
                          (tl (splitRuns false (String d s')))
                   /\ allChars (fun x => negb (isWhiteSpace x))
                               (hd "" (splitRuns false (String d s'))) = true).
    { destruct (isWhiteSpace d) eqn:Hd.
      - pose proof (IH true Hs ltac:(discriminate) ltac:(discriminate)) as Ht.
        cbn [splitRuns] in Ht |- *. rewrite Hd in Ht |- *.
        cbn [tl hd]. now split.
      - pose proof (IH false Hs ltac:(discriminate)
                       ltac:(intros _; cbn; now rewrite Hd)) as Ht.
        destruct (splitRuns false (String d s')) as [|x xs];
          [now split|].
        inversion Ht as [|? ? Hx Hxs]; subst. cbn [tl hd].
        split; [assumption|]. unfold isWord in Hx.
        now apply andb_true_iff in Hx as [_ Hx]. }
    destruct (splitRuns false (String d s')) as [|x xs] eqn:Hsp;
      [now destruct (splitRuns_nonempty false (String d s'))|].
    cbn [tl hd] in Hall. destruct Hall as [Hxs Hx].
    constructor; [|assumption].
    unfold isWord. cbn [allChars String.eqb]. now rewrite Hc, Hx.
Qed.

Lemma trimEnd_idempotent (s : string) : trimEnd (trimEnd s) = trimEnd s.
Proof.
induction s as [|c s IH]; [reflexivity|]. cbn [trimEnd].
destruct (isWhiteSpace c && (trimEnd s =? "")) eqn:Hc; [reflexivity|].
cbn [trimEnd]. now rewrite IH, Hc.
Qed.

Lemma trim_startsPlain (s : string) : startsPlain (trim s) = true.
Proof.
unfold trim.
assert (H : startsPlain (trimStart s) = true).
{ induction s as [|c s IH]; [reflexivity|]. cbn [trimStart].
  destruct (isWhiteSpace c) eqn:Hc; [assumption|].
  cbn [startsPlain]. now rewrite Hc. }
destruct (trimStart s) as [|c t]; [reflexivity|].
cbn [trimEnd]. destruct (isWhiteSpace c && (trimEnd t =? "")); [reflexivity|].
exact H.
Qed.

Lemma words_nonempty (ws : list string) :
  ws <> [] -> Forall (fun w => isWord w = true) ws ->
  String.concat " " ws <> "".
Proof.
intros Hne Hws. now destruct (trimEnd_words ws Hne Hws).
Qed.

Lemma visitLine_wellFormed (result : list FileEntry.t) (line : string) :
  Forall (fun e => wellFormed e = true) result ->
  Forall (fun e => wellFormed e = true) (visitLine result line)
  /\ (List.length (visitLine result line) <= S (List.length result))%nat.
Proof.
intros Hres. unfold visitLine.
destruct (String.eqb_spec (trim line) "") as [|Hne]; [split; [assumption | lia]|].
pose proof (splitRuns_words (trim line) false
              (trimEnd_idempotent (trimStart line)) Hne
              (fun _ => trim_startsPlain line)) as Hparts.
fold (splitWhiteSpace (trim line)) in Hparts.
set (parts := splitWhiteSpace (trim line)) in *.
destruct (Nat.ltb_spec (List.length parts) 9) as [|Hlen];
  [split; [assumption | lia]|].
set (name := String.concat " " (skipn 8 parts)).
destruct (String.eqb_spec name ".") as [|Hdot];
  [cbn [orb]; split; [assumption | lia]|].
destruct (String.eqb_spec name "..") as [|Hdots];
  [cbn [orb]; split; [assumption | lia]|].
cbn [orb]. split; [|rewrite List.length_app; cbn [List.length]; lia].
apply Forall_app. split; [assumption|]. constructor; [|constructor].
assert (Hnth : forall i, (i < 9)%nat -> isWord (nth i parts "") = true).
{ intros i Hi. rewrite Forall_forall in Hparts. apply Hparts.
  apply nth_In. lia. }
assert (Hname : name <> "").
{ apply words_nonempty.
  - intros Hnil. apply (f_equal (@List.length string)) in Hnil.
    rewrite List.length_skipn in Hnil. cbn [List.length] in Hnil. lia.
  - assert (Hskip : forall n (l : list string) w,
               In w (skipn n l) -> In w l).
    { induction n as [|n IHn]; intros l w; [auto|].
      destruct l as [|x l]; cbn [skipn]; [auto|].
      intros H. right. now apply IHn. }
    rewrite Forall_forall in Hparts |- *. intros w Hin.
    apply Hparts. now apply (Hskip 8%nat). }
unfold wellFormed.
cbn [FileEntry.permissions FileEntry.links FileEntry.owner FileEntry.group
     FileEntry.size FileEntry.name].
rewrite !Hnth by lia.
apply String.eqb_neq in Hname, Hdot, Hdots.
now rewrite Hname, Hdot, Hdots.
Qed.

(** Whatever [ls] writes, every entry [getFileList] returns has one word
    (not empty, no white space) in each of its first five columns and a
    name that is not empty and is neither [.] nor [..]; there is at most
    one entry for each line after the first, which is dropped whatever it
    is; and when [ls] fails the list is empty. *)
Theorem getFileList_entries_well_formed :
  forall (exec : Exec) (dirPath : string),
    Forall (fun e => wellFormed e = true) (getFileList exec dirPath)
    /\ (forall stdout,
           exec (lsCommand dirPath) = Fs.Returned stdout ->
           (List.length (getFileList exec dirPath)
            <= List.length (split Scan.newline (trim stdout)) - 1)%nat)
    /\ (forall failure,
           exec (lsCommand dirPath) = Fs.Threw failure ->
           getFileList exec dirPath = []).
Proof.
intros exec dirPath.
assert (Hfold : forall lines result,
           Forall (fun e => wellFormed e = true) result ->
           Forall (fun e => wellFormed e = true)
                  (fold_left visitLine lines result)
           /\ (List.length (fold_left visitLine lines result)
               <= List.length result + List.length lines)%nat).
{ induction lines as [|l lines IH]; intros result Hres;
    [cbn [fold_left List.length]; split; [assumption | lia]|].
  cbn [fold_left List.length].
  destruct (visitLine_wellFormed result l Hres) as [H1 H2].
  destruct (IH _ H1) as [H3 H4]. split; [assumption | lia]. }
unfold getFileList.
destruct (exec (lsCommand dirPath)) as [stdout|failure].
- destruct (Hfold (tl (split Scan.newline (trim stdout))) [] (Forall_nil _))
    as [H1 H2].
  split; [assumption|]. split; [|discriminate].
  intros stdout' [= <-]. cbn [List.length] in H2.
  destruct (split Scan.newline (trim stdout)); cbn [tl List.length] in *; lia.
- split; [constructor|]. split; [discriminate | reflexivity].
Qed.

End FileListEntries.

(** *** The renderer: going up *)

Module ParentFacts.
Import JsString JsStringFacts Renderer.

Lemma split_nonempty (c : ascii) (s : string) : split c s <> [].
Proof.
destruct s as [|a s]; cbn [split]; [discriminate|].
destruct (Ascii.eqb a c); [discriminate|].
destruct (split c s); discriminate.
Qed.

Lemma split_cons (c a : ascii) (s : string) :
  split c (String a s)
  = if Ascii.eqb a c then "" :: split c s
    else match split c s with
         | x :: xs => String a x :: xs
         | [] => [String a ""]
         end.
Proof. reflexivity. Qed.

(** Stripping the separators at the end changes no component. *)
Lemma strip_split (s : string) :
  hd "" (split "/" (stripTrailingSlashes s)) = hd "" (split "/" s)
  /\ filter (fun x => negb (x =? "")) (tl (split "/" (stripTrailingSlashes s)))
     = filter (fun x => negb (x =? "")) (tl (split "/" s)).
Proof.
induction s as [|a s [IH1 IH2]]; [now split|].
cbn [stripTrailingSlashes].
destruct (Ascii.eqb a "/") eqn:Ha.
- destruct (String.eqb_spec (stripTrailingSlashes s) "") as [He|Hne];
    cbn [andb].
  + rewrite He in IH1, IH2. cbn [split hd tl filter] in IH1, IH2.
    cbn [split]. rewrite Ha. cbn [hd tl filter]. split; [reflexivity|].
    destruct (split "/" s) as [|h t] eqn:Hs;
      [now destruct (split_nonempty "/" s)|].
    cbn [hd tl] in IH1, IH2. subst h. cbn [filter String.eqb negb].
    exact IH2.
  + cbn [split]. rewrite Ha. cbn [hd tl]. split; [reflexivity|].
    destruct (split "/" s) as [|h t] eqn:Hs;
      [now destruct (split_nonempty "/" s)|].
    destruct (split "/" (stripTrailingSlashes s)) as [|h' t'] eqn:Hs';
      [now destruct (split_nonempty "/" (stripTrailingSlashes s))|].
    cbn [hd tl] in IH1, IH2. subst h'. cbn [filter]. now rewrite IH2.
- cbn [andb split]. rewrite Ha.
  destruct (split "/" s) as [|h t] eqn:Hs;
    [now destruct (split_nonempty "/" s)|].
  destruct (split "/" (stripTrailingSlashes s)) as [|h' t'] eqn:Hs';
    [now destruct (split_nonempty "/" (stripTrailingSlashes s))|].
  cbn [hd tl] in *. now subst h'.
Qed.

Lemma components_strip (s : string) :
  Path.components (stripTrailingSlashes s) = Path.components s.
Proof.
unfold Path.components. destruct (strip_split s) as [H1 H2].
destruct (split "/" s) as [|h t] eqn:Hs;
  [now destruct (split_nonempty "/" s)|].
destruct (split "/" (stripTrailingSlashes s)) as [|h' t'] eqn:Hs';
  [now destruct (split_nonempty "/" (stripTrailingSlashes s))|].
cbn [hd tl] in *. subst h'. cbn [filter]. now rewrite H2.
Qed.

Lemma split_no_separator (s : string) :
  lastIndexOf "/" s = None -> split "/" s = [s].
Proof.
induction s as [|a s IH]; [reflexivity|]. cbn [lastIndexOf split].
destruct (lastIndexOf "/" s); [discriminate|].
destruct (Ascii.eqb a "/"); [discriminate|].
intros _. now rewrite IH.
Qed.

Lemma split_with_separator (s : string) (i : nat) :
  lastIndexOf "/" s = Some i -> tl (split "/" s) <> [].
Proof.
revert i; induction s as [|a s IH]; intros i; [discriminate|].
cbn [lastIndexOf split].
destruct (lastIndexOf "/" s) as [j|] eqn:Hl.
- intros _. specialize (IH j eq_refl).
  destruct (Ascii.eqb a "/").
  + cbn [tl]. apply split_nonempty.
  + destruct (split "/" s) as [|h t]; [contradiction | exact IH].
- destruct (Ascii.eqb a "/"); [|discriminate].
  intros _. cbn [tl]. apply split_nonempty.
Qed.

(** Cutting at the last separator drops the last piece. *)
Lemma split_substringTo (s : string) (i : nat) :
  lastIndexOf "/" s = Some i ->
  split "/" (substringTo s (Some i)) = removelast (split "/" s).
Proof.
revert i; induction s as [|a s IH]; intros i; [discriminate|].
cbn [lastIndexOf].
destruct (lastIndexOf "/" s) as [j|] eqn:Hl.
- intros [= <-]. cbn [substringTo sliceTo split].
  specialize (IH j eq_refl). cbn [substringTo] in IH.
  pose proof (split_with_separator s j Hl) as Htl.
  destruct (split "/" s) as [|h t] eqn:Hs; [contradiction|].
  cbn [tl] in Htl. destruct t as [|h2 t]; [contradiction|].
  destruct (Ascii.eqb a "/").
  + rewrite IH. reflexivity.
  + rewrite IH. reflexivity.
- destruct (Ascii.eqb a "/") eqn:Ha; [|discriminate].
  intros [= <-]. cbn [substringTo sliceTo split]. rewrite Ha.
  now rewrite (split_no_separator s Hl).
Qed.

Lemma last_split_stripped (s : string) :
  stripTrailingSlashes s = s -> s <> "" -> last (split "/" s) "" <> "".
Proof.
induction s as [|a s IH]; intros Hs Hne; [contradiction|].
cbn [stripTrailingSlashes] in Hs.
destruct (Ascii.eqb a "/" && (stripTrailingSlashes s =? "")) eqn:Hc;
  [discriminate|].
injection Hs as Hs.
destruct s as [|b s'].
- cbn [stripTrailingSlashes String.eqb] in Hc. rewrite andb_true_r in Hc.
  cbn [split]. rewrite Hc. cbn [last]. discriminate.
- specialize (IH Hs ltac:(discriminate)).
  rewrite (split_cons "/" a (String b s')).
  destruct (split "/" (String b s')) as [|h t] eqn:Hsp;
    [now destruct (split_nonempty "/" (String b s'))|].
  destruct (Ascii.eqb a "/"); [exact IH|].
  destruct t as [|h2 t]; [cbn [last]; discriminate | exact IH].
Qed.

Lemma removelast_cons (y : string) (l : list string) :
  l <> [] -> removelast (y :: l) = y :: removelast l.
Proof. destruct l; [contradiction | reflexivity]. Qed.

Lemma filter_removelast (l : list string) :
  l <> [] -> last l "" <> "" ->
  filter (fun x => negb (x =? "")) (removelast l)
  = removelast (filter (fun x => negb (x =? "")) l).
Proof.
induction l as [|y l IH]; intros Hne Hlast; [contradiction|].
destruct l as [|y2 l].
- cbn [last] in Hlast. cbn [removelast filter].
  apply String.eqb_neq in Hlast. now rewrite Hlast.
- change (last (y :: y2 :: l) "") with (last (y2 :: l) "") in Hlast.
  set (l2 := y2 :: l) in *.
  assert (Hl2 : l2 <> []) by discriminate. clearbody l2.
  specialize (IH Hl2 Hlast).
  assert (Hkept : filter (fun x => negb (x =? "")) l2 <> []).
  { assert (Hin : In (last l2 "") (filter (fun x => negb (x =? "")) l2)).
    { apply filter_In. split.
      - destruct (@exists_last string l2 Hl2) as (l' & z & Hz).
        rewrite Hz. rewrite last_last. apply in_or_app. right. now left.
      - apply String.eqb_neq in Hlast. now rewrite Hlast. }
    intros He. now rewrite He in Hin. }
  rewrite (removelast_cons y l2 Hl2). cbn [filter]. rewrite IH.
  destruct (negb (y =? "")); [|reflexivity].
  now rewrite (removelast_cons y _ Hkept).
Qed.

End ParentFacts.

Section GoingUp.
Import JsString JsStringFacts Renderer ParentFacts.

(** [getParentPath] drops exactly the last component of the current path,
    however the path is written; at the root there is none to drop.
    [goUpDirectory] makes that path the current one. *)
Theorem getParentPath_drops_last_component :
  forall (this : App),
    Path.components (getParentPath this)
    = removelast (Path.components (currentPath this))
    /\ getParentPath this <> ""
    /\ forall (B : Type) (api : ElectronAPI.t B) (clock : Readings) (b : B),
         currentPath (fst (goUpDirectory api clock (this, b)))
         = getParentPath this.
Proof.
intros this.
assert (Hup : forall (B : Type) (api : ElectronAPI.t B) (clock : Readings)
                     (b : B) (p : string) (force : bool),
           currentPath (fst (loadDirectory api clock (this, b) p force)) = p).
{ intros B api clock b p force. unfold loadDirectory.
  assert (Hvalid : forall now,
             currentPath (snd (isCacheValid (setCurrentPath this p) now p)) = p).
  { intros now. unfold isCacheValid.
    destruct (negb (JsMap.has _ p)); [reflexivity|].
    destruct (JsMap.get _ p) as [c|]; [|reflexivity]. cbn [snd].
    now destruct (now - Cached.timestamp c <? cacheExpiry)%Z. }
  destruct (negb force).
  - specialize (Hvalid (checkedAt clock)).
    destruct (isCacheValid (setCurrentPath this p) (checkedAt clock) p)
      as [hit this2]. cbn [snd] in Hvalid.
    destruct hit.
    + destruct (JsMap.get (cache this2) p); exact Hvalid.
    + destruct (ElectronAPI.getDiskUsage api b p) as [b' [d|e]]; exact Hvalid.
  - destruct (JsMap.get (cache (setCurrentPath this p)) p);
      destruct (ElectronAPI.getDiskUsage api b p) as [b' [d|e]]; reflexivity. }
split; [|split].
- unfold getParentPath.
  destruct (String.eqb_spec (currentPath this) "/") as [->|Hroot];
    [reflexivity|].
  rewrite <- (components_strip (currentPath this)).
  set (t := stripTrailingSlashes (currentPath this)).
  assert (Hfixed : stripTrailingSlashes t = t).
  { subst t. generalize (currentPath this) as s.
    induction s as [|a s IH]; [reflexivity|]. cbn [stripTrailingSlashes].
    destruct (Ascii.eqb a "/" && (stripTrailingSlashes s =? "")) eqn:Hc;
      [reflexivity|].
    cbn [stripTrailingSlashes]. now rewrite IH, Hc. }
  assert (Hor : forall x, Path.components (orElse x "/") = Path.components x).
  { intros x. unfold orElse. now destruct (String.eqb_spec x "") as [->|]. }
  rewrite Hor.
  destruct (lastIndexOf "/" t) as [i|] eqn:Hl.
  + unfold Path.components. rewrite (split_substringTo t i Hl).
    apply filter_removelast; [apply split_nonempty|].
    apply last_split_stripped; [assumption|].
    intros He. now rewrite He in Hl.
  + unfold Path.components. rewrite (split_no_separator t Hl).
    cbn [substringTo split filter String.eqb negb].
    now destruct (negb (t =? "")).
- unfold getParentPath.
  destruct (currentPath this =? "/"); [discriminate|].
  apply orElse_nonempty. discriminate.
- intros B api clock b. unfold goUpDirectory, getParentPath.
  destruct (String.eqb_spec (currentPath this) "/") as [He|Hne];
    [exact He|].
  apply Hup.
Qed.

End GoingUp.

(** *** The renderer: the path shown while scanning *)

Section ShownPath.
Import JsString JsStringFacts ScanSpec Renderer.

Lemma split_joined (parts : list string) :
  parts <> [] ->
  Forall (fun x => allChars (fun c => negb (Ascii.eqb c "/")) x = true) parts ->
  split "/" (String.concat "/" parts) = parts.
Proof.
induction parts as [|p parts IH]; intros Hne H; [contradiction|].
inversion H as [|? ? Hp Hrest]; subst.
destruct parts as [|p2 parts].
- cbn [String.concat]. now apply split_single.
- change (String.concat "/" (p :: p2 :: parts))
    with (p ++ String "/" (String.concat "/" (p2 :: parts))).
  rewrite (split_component p _ Hp). f_equal.
  apply IH; [discriminate | assumption].
Qed.

Lemma skipn_length_app (pre rest : list string) :
  skipn (List.length pre) (pre ++ rest) = rest.
Proof. induction pre as [|x pre IH]; [reflexivity | exact IH]. Qed.

(** A path longer than [maxLength] with three parts or more is shown as
    its first two parts, [/.../], and its last two parts.  Nothing bounds
    the result by [maxLength]; a path of exactly three parts comes out
    longer than it went in, its middle part twice. *)
Theorem truncatePath_keeps_both_ends :
  forall (maxLength : nat),
    (forall (pre : list string) (c d : string),
        pre <> [] ->
        Forall (fun x => allChars (fun ch => negb (Ascii.eqb ch "/")) x = true)
               (pre ++ [c; d]) ->
        (maxLength < String.length (String.concat "/" (pre ++ [c; d])))%nat ->
        truncatePath (String.concat "/" (pre ++ [c; d])) maxLength
        = String.concat "/" (firstn 2 (pre ++ [c; d])) ++ "/.../" ++ c ++ "/" ++ d)
    /\ (forall (a c d : string),
           Forall (fun x => allChars (fun ch => negb (Ascii.eqb ch "/")) x = true)
                  [a; c; d] ->
           (maxLength < String.length (a ++ "/" ++ c ++ "/" ++ d))%nat ->
           truncatePath (a ++ "/" ++ c ++ "/" ++ d) maxLength
           = a ++ "/" ++ c ++ "/.../" ++ c ++ "/" ++ d
           /\ String.length (truncatePath (a ++ "/" ++ c ++ "/" ++ d) maxLength)
              = (String.length (a ++ "/" ++ c ++ "/" ++ d)
                 + 5 + String.length c)%nat).
Proof.
intros maxLength.
assert (Hgen : forall (pre : list string) (c d : string),
           pre <> [] ->
           Forall (fun x => allChars (fun ch => negb (Ascii.eqb ch "/")) x = true)
                  (pre ++ [c; d]) ->
           (maxLength < String.length (String.concat "/" (pre ++ [c; d])))%nat ->
           truncatePath (String.concat "/" (pre ++ [c; d])) maxLength
           = String.concat "/" (firstn 2 (pre ++ [c; d]))
             ++ "/.../" ++ c ++ "/" ++ d).
{ intros pre c d Hpre Hfree Hlong. unfold truncatePath.
  destruct (Nat.leb_spec (String.length (String.concat "/" (pre ++ [c; d])))
                         maxLength) as [Hshort|_]; [lia|].
  rewrite split_joined by (assumption || (destruct pre; discriminate)).
  rewrite List.length_app. cbn [List.length].
  destruct (Nat.leb_spec (List.length pre + 2) 2) as [Hfew|_].
  { destruct pre; [contradiction | cbn [List.length] in Hfew; lia]. }
  replace (List.length pre + 2 - 2)%nat with (List.length pre) by lia.
  now rewrite skipn_length_app. }
split; [exact Hgen|].
intros a c d Hfree Hlong.
assert (Hres : truncatePath (a ++ "/" ++ c ++ "/" ++ d) maxLength
               = a ++ "/" ++ c ++ "/.../" ++ c ++ "/" ++ d).
{ pose proof (Hgen [a] c d ltac:(discriminate) Hfree Hlong) as H.
  cbn [app firstn String.concat] in H. rewrite H. now rewrite !app_assoc. }
split; [exact Hres|].
rewrite Hres, !length_app. cbn [String.length]. lia.
Qed.

End ShownPath.

Lemma truncatePath_keeps_both_ends_witness :
  Renderer.truncatePath "/Users/someone/Library/Application Support/Code/User/workspaceStorage/ab12/state.vscdb" 60
  = "/Users/.../ab12/state.vscdb"
  /\ String.length (Renderer.truncatePath ("a" ++ "/" ++ "bbbbbbbbbb" ++ "/" ++ "c") 5)
     = (String.length ("a" ++ "/" ++ "bbbbbbbbbb" ++ "/" ++ "c") + 5
        + String.length "bbbbbbbbbb")%nat.
Proof.
destruct (truncatePath_keeps_both_ends 60) as [Hgen _].
destruct (truncatePath_keeps_both_ends 5) as [_ Hthree].
split.
- exact (Hgen [""; "Users"; "someone"; "Library"; "Application Support";
               "Code"; "User"; "workspaceStorage"]
              "ab12" "state.vscdb" ltac:(discriminate)
              ltac:(repeat constructor) ltac:(vm_compute; lia)).
- exact (proj2 (Hthree "a" "bbbbbbbbbb" "c" ltac:(repeat constructor)
                       ltac:(vm_compute; lia))).
Defined.

(** *** The renderer: its cache and the main process *)

Section FrontCache.
Import JsString JsStringFacts JsMapFacts Renderer.

(** [invalidateCache(path)] forgets the record of [path] and the record
    of the parent of the directory shown, whatever [path] is; every other
    record stays, the one of the parent of [path] among them when the
    directory shown is elsewhere. *)
Theorem invalidateCache_forgets_two_keys :
  forall (this : App) (path : string),
    let after := invalidateCache this path in
    JsMap.get (cache after) path = None
    /\ JsMap.get (cache after) (getParentPath this) = None
    /\ (forall k, k <> path -> k <> getParentPath this ->
                  JsMap.get (cache after) k = JsMap.get (cache this) k)
    /\ currentPath after = currentPath this
    /\ data after = data this.
Proof.
intros this path after. subst after. unfold invalidateCache.
change (getParentPath (setCache this (JsMap.delete (cache this) path)))
  with (getParentPath this).
destruct (String.eqb_spec (getParentPath this) path) as [He|Hne]; cbn [negb].
- rewrite He. cbn [cache setCache currentPath data].
  split; [apply get_delete_same|]. split; [apply get_delete_same|].
  split; [|now split]. intros k Hk _. now apply get_delete_other.
- cbn [cache setCache currentPath data].
  split; [|split; [apply get_delete_same|split; [|now split]]].
  + rewrite get_delete_other by congruence. apply get_delete_same.
  + intros k Hk Hp. now rewrite !get_delete_other by assumption.
Qed.

Variable B : Type.
Variable api : ElectronAPI.t B.

(** A directory is fetched once: after a load that asked the main process
    and was answered, loading the same path again within the hour asks
    nothing and changes nothing, the listing shown being the one that was
    fetched.  A load that is rejected stores nothing. *)
Theorem loadDirectory_fetches_once :
  forall (clock clock' : Readings) (this : App) (b b' : B) (path : string)
         (diskData : Node.t),
    ElectronAPI.getDiskUsage api b path = (b', Fs.Returned diskData) ->
    (checkedAt clock' - storedAt clock < cacheExpiry)%Z ->
    let st1 := loadDirectory api clock (this, b) path true in
    snd st1 = b'
    /\ data (fst st1) = Some diskData
    /\ JsMap.get (cache (fst st1)) path
       = Some {| Cached.data := diskData; Cached.timestamp := storedAt clock |}
    /\ loadDirectory api clock' st1 path false = st1.
Proof.
intros clock clock' this b b' path diskData Hget Hfresh st1.
assert (Hst1 : st1
               = (setData
                    (setCache
                       (setProgressStartTime (setCurrentPath this path)
                                             (startedAt clock))
                       (JsMap.set (cache this) path
                          {| Cached.data := diskData;
                             Cached.timestamp := storedAt clock |}))
                    diskData,
                  b')).
{ subst st1. unfold loadDirectory. cbn [negb]. now rewrite Hget. }
rewrite Hst1. clear Hst1 st1.
cbn [fst snd data cache setData setCache setProgressStartTime setCurrentPath].
split; [reflexivity|]. split; [reflexivity|]. split; [apply get_set_same|].
unfold loadDirectory. cbn [negb]. unfold isCacheValid, JsMap.has.
cbn [cache setData setCache setProgressStartTime setCurrentPath
     currentPath data contextMenuTarget progressStartTime].
rewrite get_set_same. cbn [negb Cached.timestamp].
destruct (Z.ltb_spec (checkedAt clock' - storedAt clock) cacheExpiry); [|lia].
cbn [cache setData setCache setProgressStartTime setCurrentPath
     currentPath data contextMenuTarget progressStartTime].
rewrite get_set_same. reflexivity.
Qed.

(** A load that the main process rejects leaves the cache as it was and
    the listing shown as it was. *)
Lemma loadDirectory_rejected (clock : Readings) (this : App) (b b' : B)
      (path : string) (failure : Fs.Failure) :
  ElectronAPI.getDiskUsage api b path = (b', Fs.Threw failure) ->
  let st1 := loadDirectory api clock (this, b) path true in
  cache (fst st1) = cache this /\ data (fst st1) = data this.
Proof.
intros Hget st1. subst st1. unfold loadDirectory. cbn [negb].
rewrite Hget. now split.
Qed.

(** No request reaches the main process from [handleDelete] when there is
    no target, when the target is one of the rows [.] and [..], when its
    name or path is empty, or when the user does not confirm; the cache
    and the listing shown are as they were. *)
Theorem handleDelete_asks_nothing_unconfirmed :
  forall (clock : Readings) (confirmed : bool) (this : App) (b : B),
    (match contextMenuTarget this with
     | None => True
     | Some target =>
         Child.name target = "." \/ Child.name target = ".."
         \/ Child.name target = "" \/ Child.path target = ""
         \/ confirmed = false
     end) ->
    let st' := handleDelete api clock confirmed (this, b) in
    snd st' = b
    /\ cache (fst st') = cache this
    /\ data (fst st') = data this
    /\ currentPath (fst st') = currentPath this.
Proof.
intros clock confirmed this b Hguard st'. subst st'. unfold handleDelete.
destruct (contextMenuTarget this) as [target|]; [|now repeat split].
destruct (String.eqb_spec (Child.name target) ".") as [|Hdot];
  [now repeat split|].
destruct (String.eqb_spec (Child.name target) "..") as [|Hdots];
  [now repeat split|].
cbn [orb]. unfold showDeleteConfirmationDialog.
destruct (String.eqb_spec (Child.name target) "") as [|Hname];
  [now repeat split|].
destruct (String.eqb_spec (Child.path target) "") as [|Hpath];
  [now repeat split|].
cbn [orb].
destruct Hguard as [H|[H|[H|[H|H]]]]; try contradiction.
rewrite H. now repeat split.
Qed.

End FrontCache.

Lemma loadDirectory_fetches_once_witness :
  let api := MainProcess.api
               {| MainProcess.cwd := "/";
                  MainProcess.clock := fun _ => 10%Z;
                  MainProcess.now := 10;
                  MainProcess.full := Scenario.goodScan;
                  MainProcess.fallback := Scenario.failedScan;
                  MainProcess.afterRemoval := Scenario.projFs;
              MainProcess.afterFailedRemoval := Scenario.projFs |} in
  let m := {| MainProcess.duCache := JsMap.empty;
              MainProcess.fs := Scenario.projFs;
              MainProcess.invoked := [];
              MainProcess.scansStarted := [] |} in
  let this := Renderer.mkApp "/" None None JsMap.empty None in
  let clock := {| Renderer.checkedAt := 9; Renderer.startedAt := 9;
                  Renderer.storedAt := 12 |} in
  let clock' := {| Renderer.checkedAt := 3600011; Renderer.startedAt := 0;
                   Renderer.storedAt := 0 |} in
  let st1 := Renderer.loadDirectory api clock (this, m) "/tmp/proj" true in
  MainProcess.invoked (snd st1) = [MainProcess.GetDiskUsage "/tmp/proj"]
  /\ Renderer.loadDirectory api clock' st1 "/tmp/proj" false = st1.
Proof.
intros api m this clock clock' st1.
destruct (loadDirectory_fetches_once MainProcess.t api clock clock' this m
            (fst (ElectronAPI.getDiskUsage api m "/tmp/proj")) "/tmp/proj"
            (node (getDiskUsage "/" Scenario.projFs JsMap.empty
                     (fun _ => 10%Z) 10 "/tmp/proj"
                     Scenario.goodScan Scenario.failedScan))
            eq_refl ltac:(vm_compute; reflexivity)) as (Hb & _ & _ & Hagain).
split; [|exact Hagain].
fold st1 in Hb. rewrite Hb. reflexivity.
Defined.

Lemma handleDelete_asks_nothing_unconfirmed_witness :
  let api := MainProcess.api
               {| MainProcess.cwd := "/home/u";
                  MainProcess.clock := fun _ => 10%Z;
                  MainProcess.now := 10;
                  MainProcess.full := Scenario.goodScan;
                  MainProcess.fallback := Scenario.failedScan;
                  MainProcess.afterRemoval := DeleteSpec.homeFs;
                  MainProcess.afterFailedRemoval := DeleteSpec.homeFs |} in
  let m := {| MainProcess.duCache := JsMap.empty;
              MainProcess.fs := DeleteSpec.homeFs;
              MainProcess.invoked := [];
              MainProcess.scansStarted := [] |} in
  let row := {| Child.name := ".."; Child.path := "/home";
                Child.size := 0; Child.type := directory |} in
  let this := Renderer.mkApp "/home/u" None (Some row) JsMap.empty None in
  let clock := {| Renderer.checkedAt := 9; Renderer.startedAt := 9;
                  Renderer.storedAt := 12 |} in
  MainProcess.invoked (snd (Renderer.handleDelete api clock true (this, m)))
  = [].
Proof.
intros api m row this clock.
destruct (handleDelete_asks_nothing_unconfirmed MainProcess.t api clock true
            this m (or_intror (or_introl eq_refl))) as (Hb & _).
rewrite Hb. reflexivity.
Defined.

(** *** A deletion, from the context menu to the new listing *)

Section DeletionFlow.
Import JsString JsStringFacts JsMapFacts MainProcess.

Variable w : World.
Variable clock : Renderer.Readings.

(** A confirmed deletion that the handler carries out ends with both
    caches rebuilt from nothing: the main process is asked, in this order,
    to delete the path, to invalidate it, to clear its cache and to list
    the directory shown; that listing is made against an empty cache and
    the file system as the removal left it, so any scan it starts is
    rooted at the directory shown; and the renderer's cache holds that
    listing and nothing else. *)
Theorem confirmed_delete_relists_from_scratch :
  forall (this : Renderer.App) (m : MainProcess.t) (target : Child.t),
    Renderer.contextMenuTarget this = Some target ->
    Child.name target <> "." ->
    Child.name target <> ".." ->
    Child.name target <> "" ->
    Child.path target <> "" ->
    Renderer.currentPath this <> "" ->
    success (reply (deleteFile (cwd w) (fs m) (Child.path target))) = true ->
    let st' := Renderer.handleDelete (api w) clock true (this, m) in
    let relisted := getDiskUsage (cwd w) (afterRemoval w) JsMap.empty
                                 (MainProcess.clock w) (now w)
                                 (Renderer.currentPath this) (full w) (fallback w) in
    invoked (snd st')
    = (invoked m ++ [ DeleteFile (Child.path target);
                      InvalidateDuCache (Child.path target);
                      ClearDuCache;
                      GetDiskUsage (Renderer.currentPath this) ])%list
    /\ fs (snd st') = afterRemoval w
    /\ duCache (snd st') = cacheLeft relisted
    /\ scansStarted (snd st') = (scansStarted m ++ scansRun relisted)%list
    /\ (forall root includeFiles,
           In (root, includeFiles) (scansRun relisted) ->
           root = Renderer.currentPath this)
    /\ Renderer.cache (fst st')
       = [ (Renderer.currentPath this,
            {| Renderer.Cached.data := node relisted;
               Renderer.Cached.timestamp := Renderer.storedAt clock |}) ]
    /\ Renderer.data (fst st') = Some (node relisted)
    /\ Renderer.currentPath (fst st') = Renderer.currentPath this
    /\ Renderer.contextMenuTarget (fst st') = None.
Proof.
intros this m target Htarget Hdot Hdots Hname Hpath Hcur Hdone st' relisted.
assert (Hroots : forall root includeFiles,
           In (root, includeFiles) (scansRun relisted) ->
           root = Renderer.currentPath this).
{ subst relisted. unfold getDiskUsage, getDirectoryContents.
  destruct (Fs.stat (afterRemoval w) (Renderer.currentPath this)) as [stats|e];
    [|intros ? ? []].
  destruct (Fs.isDirectory stats); cbn [negb]; [|intros ? ? []].
  change (findCachedRoot (cwd w) (MainProcess.clock w) JsMap.empty
                         (Renderer.currentPath this)) with (@None string).
  assert (Hall : forall root includeFiles,
             In (root, includeFiles)
                (scans (getAllDirectorySizes JsMap.empty (now w)
                          (Renderer.currentPath this) (full w) (fallback w))) ->
             root = Renderer.currentPath this).
  { unfold getAllDirectorySizes.
    change (isDuCacheValid JsMap.empty (now w) (Renderer.currentPath this))
      with (false, @JsMap.empty CacheData).
    destruct (outcome (full w)) as [sizes|message]; cbn [scans].
    - now intros ? ? [[= <- _]|[]].
    - destruct (wantsFallback message); [destruct (outcome (fallback w))|];
        cbn [scans]; intros ? ? H;
        repeat (destruct H as [[= <- _]|H]; [reflexivity|]); destruct H. }
  destruct (Fs.readdir (afterRemoval w) (Renderer.currentPath this)); exact Hall. }
subst st'. unfold Renderer.handleDelete. rewrite Htarget.
apply String.eqb_neq in Hdot, Hdots, Hname, Hpath, Hcur.
rewrite Hdot, Hdots. cbn [orb].
unfold Renderer.showDeleteConfirmationDialog. rewrite Hname, Hpath. cbn [orb].
unfold Renderer.deleteFile.
cbn [api ElectronAPI.deleteFile ElectronAPI.invalidateDuCache].
rewrite Hdone.
unfold Renderer.refreshCurrentDirectory.
assert (Hkeep : forall a p, Renderer.currentPath (Renderer.invalidateCache a p) = Renderer.currentPath a).
{ intros a p. unfold Renderer.invalidateCache.
  now destruct (negb (Renderer.getParentPath _ =? p)). }
rewrite !Hkeep. cbn [Renderer.hideContextMenu Renderer.currentPath]. rewrite Hcur. cbn [negb].
cbn [api ElectronAPI.clearDuCache].
unfold Renderer.loadDirectory. cbn [negb].
cbn [api ElectronAPI.getDiskUsage duCache fs invoked scansStarted clearDuCache].
cbn [Renderer.clearCache Renderer.setCache Renderer.setCurrentPath Renderer.setProgressStartTime Renderer.setData
     Renderer.currentPath Renderer.data Renderer.contextMenuTarget Renderer.cache Renderer.progressStartTime fst snd].
rewrite !Hkeep. cbn [Renderer.hideContextMenu Renderer.currentPath].
fold relisted.
assert (Hmenu : forall a p,
           Renderer.contextMenuTarget (Renderer.invalidateCache a p) = Renderer.contextMenuTarget a).
{ intros a p. unfold Renderer.invalidateCache.
  now destruct (negb (Renderer.getParentPath _ =? p)). }
rewrite !Hmenu. cbn [Renderer.hideContextMenu Renderer.contextMenuTarget].
rewrite <- !List.app_assoc. cbn [app].
repeat split; try reflexivity. exact Hroots.
Qed.

(** When the handler answers without success, the renderer asks nothing
    more and keeps its cache and its listing, and the cache of the main
    process is as it was.  The file system is as it was when the handler
    stopped before any removal (the guard, the existence check or [stat]);
    after a removal that failed it is what that removal left. *)
Theorem refused_delete_changes_nothing :
  forall (this : Renderer.App) (m : MainProcess.t) (target : Child.t),
    Renderer.contextMenuTarget this = Some target ->
    success (reply (deleteFile (cwd w) (fs m) (Child.path target))) = false ->
    let st' := Renderer.handleDelete (api w) clock true (this, m) in
    let attempted :=
      existsb isRemoval
              (calls (deleteFile (cwd w) (fs m) (Child.path target))) in
    (invoked (snd st') = invoked m
     \/ invoked (snd st')
        = (invoked m ++ [DeleteFile (Child.path target)])%list)
    /\ duCache (snd st') = duCache m
    /\ scansStarted (snd st') = scansStarted m
    /\ (attempted = false -> fs (snd st') = fs m)
    /\ (fs (snd st') = fs m \/ fs (snd st') = afterFailedRemoval w)
    /\ Renderer.cache (fst st') = Renderer.cache this
    /\ Renderer.data (fst st') = Renderer.data this.
Proof.
intros this m target Htarget Hrefused st' attempted. subst st' attempted.
unfold Renderer.handleDelete. rewrite Htarget.
destruct ((Child.name target =? ".") || (Child.name target =? ".."));
  [split; [now left|]; repeat split; auto|].
unfold Renderer.showDeleteConfirmationDialog.
destruct ((Child.name target =? "") || (Child.path target =? ""));
  [split; [now left|]; repeat split; auto|].
unfold Renderer.deleteFile. cbn [api ElectronAPI.deleteFile].
rewrite Hrefused. cbn [fst snd invoked duCache fs scansStarted].
split; [now right|]. split; [reflexivity|]. split; [reflexivity|].
destruct (existsb isRemoval
            (calls (deleteFile (cwd w) (fs m) (Child.path target))));
  (split; [intros; congruence || reflexivity|]);
  (split; [auto|]); now split.
Qed.

End DeletionFlow.

Lemma confirmed_delete_relists_from_scratch_witness :
  let w := {| MainProcess.cwd := "/home/u";
              MainProcess.clock := fun _ => 10%Z;
              MainProcess.now := 10;
              MainProcess.full := Scenario.goodScan;
              MainProcess.fallback := Scenario.failedScan;
              MainProcess.afterRemoval := Scenario.projFs;
              MainProcess.afterFailedRemoval := Scenario.projFs |} in
  let stale := {| sizeMap := Scenario.duSizes; timestamp := 5 |} in
  let m := {| MainProcess.duCache := [("/", stale); ("/home/u", stale)];
              MainProcess.fs := DeleteSpec.homeFs;
              MainProcess.invoked := [];
              MainProcess.scansStarted := [] |} in
  let row := {| Child.name := "notes.txt"; Child.path := "/home/u/notes.txt";
                Child.size := 12; Child.type := file |} in
  let this := Renderer.mkApp "/home/u" None (Some row) JsMap.empty None in
  let clock := {| Renderer.checkedAt := 9; Renderer.startedAt := 9;
                  Renderer.storedAt := 12 |} in
  MainProcess.invoked
    (snd (Renderer.handleDelete (MainProcess.api w) clock true (this, m)))
  = [ MainProcess.DeleteFile "/home/u/notes.txt";
      MainProcess.InvalidateDuCache "/home/u/notes.txt";
      MainProcess.ClearDuCache;
      MainProcess.GetDiskUsage "/home/u" ].
Proof.
intros w stale m row this clock.
exact (proj1 (confirmed_delete_relists_from_scratch w clock this m row
                eq_refl ltac:(discriminate) ltac:(discriminate)
                ltac:(discriminate) ltac:(discriminate) ltac:(discriminate)
                eq_refl)).
Defined.

Lemma refused_delete_changes_nothing_witness :
  let w := {| MainProcess.cwd := "/home/u";
              MainProcess.clock := fun _ => 10%Z;
              MainProcess.now := 10;
              MainProcess.full := Scenario.goodScan;
              MainProcess.fallback := Scenario.failedScan;
              MainProcess.afterRemoval := Scenario.projFs;
              MainProcess.afterFailedRemoval := Scenario.projFs |} in
  let stale := {| sizeMap := Scenario.duSizes; timestamp := 5 |} in
  let m := {| MainProcess.duCache := [("/etc", stale)];
              MainProcess.fs := DeleteSpec.homeFs;
              MainProcess.invoked := [];
              MainProcess.scansStarted := [] |} in
  let row := {| Child.name := "hosts"; Child.path := "/etc/hosts";
                Child.size := 12; Child.type := file |} in
  let this := Renderer.mkApp "/etc" None (Some row) JsMap.empty None in
  let clock := {| Renderer.checkedAt := 9; Renderer.startedAt := 9;
                  Renderer.storedAt := 12 |} in
  MainProcess.duCache
    (snd (Renderer.handleDelete (MainProcess.api w) clock true (this, m)))
  = [("/etc", stale)].
Proof.
intros w stale m row this clock.
exact (proj1 (proj2 (refused_delete_changes_nothing w clock this m row
                       eq_refl eq_refl))).
Defined.

(** A removal that fails part-way.  [fs.rmdir] throws on the directory,
    the handler answers without success, and the file system is what the
    attempt left of it: the renderer's cache, the data shown and the du
    cache stay as they were, the files may not have. *)
Example failed_removal_leaves_its_mark :
  let w := {| MainProcess.cwd := "/home/u";
              MainProcess.clock := fun _ => 10%Z;
              MainProcess.now := 10;
              MainProcess.full := Scenario.goodScan;
              MainProcess.fallback := Scenario.failedScan;
              MainProcess.afterRemoval := DeleteSpec.homeFs;
              MainProcess.afterFailedRemoval := RemovalScenario.halfGone |} in
  let m := {| MainProcess.duCache := [];
              MainProcess.fs := RemovalScenario.stuckFs;
              MainProcess.invoked := [];
              MainProcess.scansStarted := [] |} in
  let row := {| Child.name := "work"; Child.path := "/home/u/work";
                Child.size := 4096; Child.type := directory |} in
  let this := Renderer.mkApp "/home/u" None (Some row) JsMap.empty None in
  let clock := {| Renderer.checkedAt := 9; Renderer.startedAt := 9;
                  Renderer.storedAt := 12 |} in
  let st' := Renderer.handleDelete (MainProcess.api w) clock true (this, m) in
  success (reply (deleteFile "/home/u" RemovalScenario.stuckFs "/home/u/work"))
  = false
  /\ MainProcess.invoked (snd st') = [MainProcess.DeleteFile "/home/u/work"]
  /\ MainProcess.fs (snd st') = RemovalScenario.halfGone
  /\ Renderer.cache (fst st') = JsMap.empty.
Proof. vm_compute. repeat split. Qed.

(** *** The earlier listing *)

Section EarlierListing.
Import JsString JsStringFacts ScanSpec JsNumFacts.

Variable fs : Fs.t.
Variable exec : Exec.

Lemma total_fold (children : list MainJs.Child.t) :
  forall acc,
    fold_left (fun sum child => MainJs.add sum (MainJs.Child.size child))
              children acc
    = match acc, MainJs.unsized children with
      | JsNum.Int z, [] =>
          JsNum.Int (z + fold_right
                           (fun c rest =>
                              (JsNum.orZero (Some (MainJs.Child.size c)) + rest)%Z)
                           0%Z children)
      | _, _ => JsNum.NaN
      end.
Proof.
induction children as [|c children IH]; intros acc; cbn [fold_left].
- destruct acc as [|z]; [reflexivity|]. cbn [MainJs.unsized filter fold_right].
  now rewrite Z.add_0_r.
- rewrite IH. unfold MainJs.unsized. cbn [filter fold_right].
  destruct acc as [|z]; cbn [MainJs.add]; [reflexivity|].
  destruct (MainJs.Child.size c) as [|s]; [reflexivity|].
  cbn [JsNum.orZero].
  destruct (filter _ children); [|reflexivity].
  f_equal. lia.
Qed.

(** In the earlier version the size of a directory entry is what [du -s]
    printed before the first tab, read by [parseInt], times 1024, and 0
    when [du] fails; the sizes are summed as they are.  So the size of the
    node is the sum of the sizes of its children when each of them is a
    number, and not a number as soon as one of them is not. *)
Theorem earlier_listing_sums_what_du_printed :
  forall (dirPath : string),
    let listed := MainJs.getDirectoryContents fs exec dirPath in
    (MainJs.Node.size listed
     = match MainJs.unsized (MainJs.Node.children listed) with
       | [] =>
           JsNum.Int
             (fold_right
                (fun c rest =>
                   (JsNum.orZero (Some (MainJs.Child.size c)) + rest)%Z)
                0%Z (MainJs.Node.children listed))
       | _ => JsNum.NaN
       end)
    /\ (forall (p blocks rest : string),
           isSizeField blocks = true ->
           exec (MainJs.duCommand p)
           = Fs.Returned (blocks ++ String Scan.tab rest) ->
           MainJs.calculateDirectorySize exec p
           = JsNum.Int (decimalValue 0 blocks * 1024))
    /\ (forall (p : string) (failure : Fs.Failure),
           exec (MainJs.duCommand p) = Fs.Threw failure ->
           MainJs.calculateDirectorySize exec p = JsNum.Int 0)
    /\ (forall (p : string),
           exec (MainJs.duCommand p) = Fs.Returned "" ->
           MainJs.calculateDirectorySize exec p = JsNum.NaN).
Proof.
intros dirPath listed. split; [|split; [|split]].
- subst listed. unfold MainJs.getDirectoryContents.
  destruct (Fs.stat fs dirPath) as [stats|e]; [|reflexivity].
  destruct (Fs.isDirectory stats); [|reflexivity]. cbn [negb].
  destruct (Fs.readdir fs dirPath) as [entries|e]; [|reflexivity].
  cbn [MainJs.Node.size MainJs.Node.children].
  rewrite total_fold. now rewrite Z.add_0_l.
- intros p blocks rest Hblocks Hexec. unfold MainJs.calculateDirectorySize.
  rewrite Hexec.
  assert (Hfree : allChars (fun c => negb (Ascii.eqb c Scan.tab)) blocks = true).
  { unfold isSizeField in Hblocks. apply andb_true_iff in Hblocks as [_ H].
    now apply digits_no_tab. }
  rewrite (split_field blocks rest Hfree). cbn [hd].
  now rewrite (parseInt_decimal blocks Hblocks).
- intros p failure Hexec. unfold MainJs.calculateDirectorySize.
  now rewrite Hexec.
- intros p Hexec. unfold MainJs.calculateDirectorySize. now rewrite Hexec.
Qed.

End EarlierListing.

Lemma earlier_listing_sums_what_du_printed_witness :
  let exec := fun command : string =>
                if command =? MainJs.duCommand "/tmp/proj/sub"
                then Fs.Returned ("2048" ++ String Scan.tab "/tmp/proj/sub")
                else Fs.Threw Scenario.enoent in
  ScanSpec.isSizeField "2048" = true
  /\ MainJs.calculateDirectorySize exec "/tmp/proj/sub" = JsNum.Int 2097152
  /\ MainJs.Node.size (MainJs.getDirectoryContents Scenario.projFs exec
                         "/tmp/proj")
     = JsNum.Int 2097252.
Proof.
intros exec.
assert (H : ScanSpec.isSizeField "2048" = true) by reflexivity.
destruct (earlier_listing_sums_what_du_printed Scenario.projFs exec "/tmp/proj")
  as (Hsum & Hdu & _).
split; [exact H|]. split.
- rewrite (Hdu "/tmp/proj/sub" "2048" "/tmp/proj/sub" H eq_refl).
  vm_compute. reflexivity.
- rewrite Hsum. vm_compute. reflexivity.
Defined.

(** *** The lookup, by path ancestry *)

Section DeepestAncestor.
Import JsString JsStringFacts ScanSpec DeleteSpec.

Variable cwd : string.
Hypothesis cwd_absolute : NodePath.isAbsolute cwd = true.

(** For every directory but the root, "starts with it and the separator"
    is "lies beneath it". *)
Lemma strictlyBelow_by_components (a d : string) :
  normalizePath cwd a <> "/" ->
  strictlyBelow (normalizePath cwd a) (normalizePath cwd d)
  = Path.liesBeneath (normalizePath cwd a) (normalizePath cwd d).
Proof.
intros Ha.
destruct (normalizePath_shape cwd d cwd_absolute) as (sd & Hed & Hsd & _).
destruct (normalizePath_shape cwd a cwd_absolute) as (sa & Hea & Hsa & Hra).
assert (Hsa' : sa <> []) by (intros H; apply Ha, Hra, H).
unfold strictlyBelow, Path.liesBeneath, sep.
rewrite Hed, Hea, !components_resolved by assumption.
change (startsWith ("/" ++ String.concat "/" sd)
                   (("/" ++ String.concat "/" sa) ++ "/"))
  with (startsWith (String.concat "/" sd) (String.concat "/" sa ++ "/")).
now apply joined_beneath.
Qed.

Lemma covers_by_components (r p : string) :
  normalizePath cwd r <> "/" ->
  covers (normalizePath cwd r) (normalizePath cwd p)
  = ancestorOrSelf (normalizePath cwd r) (normalizePath cwd p).
Proof.
intros Hr. unfold covers, ancestorOrSelf.
fold (strictlyBelow (normalizePath cwd r) (normalizePath cwd p)).
now rewrite strictlyBelow_by_components.
Qed.

Lemma ancestorOrSelf_not_beneath (a p : string) :
  ancestorOrSelf a p = true -> Path.liesBeneath p a = false.
Proof.
unfold ancestorOrSelf, Path.liesBeneath. intros H.
apply orb_true_iff in H as [H|H].
- apply String.eqb_eq in H. subst p.
  now rewrite Nat.ltb_irrefl, andb_false_r.
- apply andb_true_iff in H as [_ H]. apply Nat.ltb_lt in H.
  destruct (Nat.ltb_spec (List.length (Path.components p))
                         (List.length (Path.components a))); [lia|].
  apply andb_false_r.
Qed.

(** A record rooted at the root directory is found for the root directory
    only: for every path below, the lookup passes over it. *)
Lemma findCachedRoot_root_record_alone (clock : nat -> Z) (d : CacheData)
      (p : string) :
  normalizePath cwd p <> "/" ->
  ancestorOrSelf (normalizePath cwd "/") (normalizePath cwd p) = true
  /\ findCachedRoot cwd clock [("/", d)] p = None.
Proof.
intros Hp.
assert (Hroot : normalizePath cwd "/" = "/") by reflexivity.
split.
- rewrite Hroot. unfold ancestorOrSelf, Path.liesBeneath.
  destruct (normalizePath_shape cwd p cwd_absolute) as (sp & Hep & Hsp & Hrp).
  rewrite Hep. change (Path.components "/") with (@nil string).
  rewrite components_resolved by assumption.
  destruct sp as [|x sp]; [now destruct Hp; apply Hrp|].
  cbn [Path.isPrefixOf List.length Nat.ltb Nat.leb andb]. apply orb_true_r.
- unfold findCachedRoot. cbn [findCachedRoot_loop].
  destruct (clock 0%nat - timestamp d >=? CACHE_EXPIRY)%Z; [reflexivity|].
  rewrite (covers_root_only cwd "/" p cwd_absolute Hroot).
  apply String.eqb_neq in Hp. now rewrite Hp.
Qed.

Lemma ancestorOrSelf_of_covers (r p : string) :
  covers (normalizePath cwd r) (normalizePath cwd p) = true ->
  ancestorOrSelf (normalizePath cwd r) (normalizePath cwd p) = true.
Proof.
intros Hc.
destruct (String.eqb_spec (normalizePath cwd r) "/") as [Hroot|Hroot].
- rewrite (covers_root_only cwd r p cwd_absolute Hroot) in Hc.
  apply String.eqb_eq in Hc. rewrite Hroot, Hc. reflexivity.
- now rewrite <- (covers_by_components r p Hroot).
Qed.

(** The test of the loop finds every ancestor but one: the root directory,
    asked about from below. *)
Lemma covers_of_ancestorOrSelf (r p : string) :
  ancestorOrSelf (normalizePath cwd r) (normalizePath cwd p) = true ->
  normalizePath cwd r <> "/" \/ normalizePath cwd p = "/" ->
  covers (normalizePath cwd r) (normalizePath cwd p) = true.
Proof.
intros Ha Hor.
destruct (String.eqb_spec (normalizePath cwd r) "/") as [Hroot|Hroot].
- destruct Hor as [Hne|Hp]; [contradiction|].
  rewrite (covers_root_only cwd r p cwd_absolute Hroot), Hp. reflexivity.
- now rewrite (covers_by_components r p Hroot).
Qed.

Lemma below_root_longer (r : string) :
  normalizePath cwd r <> "/" -> 2 <= String.length (normalizePath cwd r).
Proof.
intros Hr.
destruct (normalizePath_shape cwd r cwd_absolute) as (segs & He & _ & _).
rewrite He in *. destruct (String.concat "/" segs) as [|c s].
- now destruct Hr.
- cbn [append String.length]. lia.
Qed.

(** What lies beneath a directory is not the root, and is longer. *)
Lemma liesBeneath_longer (a b : string) :
  Path.liesBeneath (normalizePath cwd a) (normalizePath cwd b) = true ->
  normalizePath cwd b <> "/"
  /\ String.length (normalizePath cwd a) < String.length (normalizePath cwd b).
Proof.
intros H.
assert (Hb : normalizePath cwd b <> "/").
{ intros Hb. rewrite Hb in H. unfold Path.liesBeneath in H.
  change (Path.components "/") with (@nil string) in H.
  apply andb_true_iff in H as [_ H]. apply Nat.ltb_lt in H.
  cbn [List.length] in H. lia. }
split; [assumption|].
destruct (String.eqb_spec (normalizePath cwd a) "/") as [Hroot|Hroot].
- rewrite Hroot. cbn [String.length]. pose proof (below_root_longer b Hb). lia.
- apply strictlyBelow_length. now rewrite strictlyBelow_by_components.
Qed.

(** C1 (as amended).  Ancestry is read from the path components.  What
    [findCachedRoot] returns is the key of a valid record whose root is the
    queried path or a directory above it, never one below it, with the
    longest normalized root among all such valid records, the first such in
    iteration order.  It returns nothing when no valid record's root is the
    queried path or above it, and returns a record whenever some valid
    record at or above the query is not rooted at the root directory, or the
    query is the root directory.  For two valid records [R1] above [R2]
    and a query at or under [R2], the result is never [R1] and is at least
    as deep as [R2], and it is [R2] when every other valid record at or
    above the query has a strictly shorter normalized root. *)
Theorem findCachedRoot_deepest_valid_ancestor :
  forall (clock : nat -> Z) (cache : Cache) (p : string),
    let target := normalizePath cwd p in
    let result := findCachedRoot cwd clock cache p in
    (forall r,
        result = Some r ->
        seenValid clock cache r
        /\ ancestorOrSelf (normalizePath cwd r) target = true
        /\ Path.liesBeneath target (normalizePath cwd r) = false
        /\ (forall r', seenValid clock cache r' ->
                       ancestorOrSelf (normalizePath cwd r') target = true ->
                       String.length (normalizePath cwd r')
                       <= String.length (normalizePath cwd r))
        /\ (exists j d,
               nth_error cache j = Some (r, d)
               /\ validAt (clock j) d = true
               /\ forall j' r' d',
                   j' < j ->
                   nth_error cache j' = Some (r', d') ->
                   validAt (clock j') d' = true ->
                   ancestorOrSelf (normalizePath cwd r') target = true ->
                   String.length (normalizePath cwd r')
                   < String.length (normalizePath cwd r)))
    /\
    ((forall r, seenValid clock cache r ->
                ancestorOrSelf (normalizePath cwd r) target = false) ->
     result = None)
    /\
    (forall r,
        seenValid clock cache r ->
        ancestorOrSelf (normalizePath cwd r) target = true ->
        normalizePath cwd r <> "/" \/ target = "/" ->
        exists r0, result = Some r0)
    /\
    (forall R1 R2,
        seenValid clock cache R1 ->
        seenValid clock cache R2 ->
        Path.liesBeneath (normalizePath cwd R1) (normalizePath cwd R2) = true ->
        ancestorOrSelf (normalizePath cwd R2) target = true ->
        exists r,
          result = Some r
          /\ r <> R1
          /\ String.length (normalizePath cwd R2)
             <= String.length (normalizePath cwd r)
          /\ ((forall r', seenValid clock cache r' ->
                          ancestorOrSelf (normalizePath cwd r') target = true ->
                          r' <> R2 ->
                          String.length (normalizePath cwd r')
                          < String.length (normalizePath cwd R2)) ->
              r = R2)).
Proof.
intros clock cache p target result.
destruct (findCachedRoot_by_prefix_test cwd clock cache p)
  as (Hnone & Hsome & _).
fold target result in Hnone, Hsome.
assert (Hfound : forall r,
           seenValid clock cache r ->
           ancestorOrSelf (normalizePath cwd r) target = true ->
           normalizePath cwd r <> "/" \/ target = "/" ->
           exists r0, result = Some r0).
{ intros r Hr Ha Hor. destruct result as [r0|] eqn:Hres; [now exists r0|].
  pose proof (proj1 Hnone eq_refl r Hr) as Hc. subst target.
  rewrite (covers_of_ancestorOrSelf r p Ha Hor) in Hc. discriminate. }
assert (Hlongest : forall r r',
           result = Some r ->
           seenValid clock cache r' ->
           ancestorOrSelf (normalizePath cwd r') target = true ->
           String.length (normalizePath cwd r')
           <= String.length (normalizePath cwd r)).
{ intros r r' Hr Hr' Ha.
  destruct (Hsome r Hr) as (_ & _ & Hmax & _).
  destruct (covers (normalizePath cwd r') target) eqn:Hc;
    [now apply (Hmax r' Hr')|].
  destruct (String.eqb_spec (normalizePath cwd r') "/") as [Hroot|Hroot].
  - rewrite Hroot. cbn [String.length]. apply normalizePath_nonempty.
  - subst target. rewrite (covers_by_components r' p Hroot) in Hc. congruence. }
split; [|split; [|split]].
- intros r Hr. destruct (Hsome r Hr) as (Hs & Hc & _ & Hfirst & _).
  split; [assumption|].
  assert (Ha : ancestorOrSelf (normalizePath cwd r) target = true)
    by (subst target; now apply ancestorOrSelf_of_covers).
  split; [assumption|].
  split; [now apply ancestorOrSelf_not_beneath|].
  split; [intros r' Hr' Ha'; now apply (Hlongest r r')|].
  destruct Hfirst as (j & d & Hj & Hv & Hbefore).
  exists j, d. split; [assumption|]. split; [assumption|].
  intros j' r' d' Hlt Hj' Hv' Ha'.
  destruct (covers (normalizePath cwd r') target) eqn:Hc';
    [now apply (Hbefore j' r' d' Hlt Hj' Hv')|].
  destruct (String.eqb_spec (normalizePath cwd r') "/") as [Hroot|Hroot].
  + assert (Ht : target <> "/").
    { intros Ht. subst target.
      rewrite (covers_root_only cwd r' p cwd_absolute Hroot), Ht in Hc'.
      discriminate. }
    assert (Hr0 : normalizePath cwd r <> "/").
    { intros Hr0. subst target.
      rewrite (covers_root_only cwd r p cwd_absolute Hr0) in Hc.
      apply String.eqb_eq in Hc. contradiction. }
    rewrite Hroot. cbn [String.length].
    pose proof (below_root_longer r Hr0). lia.
  + subst target. rewrite (covers_by_components r' p Hroot) in Hc'. congruence.
- intros Hno. apply Hnone. intros r Hr.
  destruct (covers (normalizePath cwd r) target) eqn:Hc; [|reflexivity].
  subst target. pose proof (Hno r Hr) as Hf.
  rewrite (ancestorOrSelf_of_covers r p Hc) in Hf. discriminate.
- exact Hfound.
- intros R1 R2 HR1 HR2 Hbelow Ha.
  destruct (liesBeneath_longer R1 R2 Hbelow) as [HR2root Hlen].
  destruct (Hfound R2 HR2 Ha (or_introl HR2root)) as (r & Hr).
  exists r. split; [assumption|].
  pose proof (Hlongest r R2 Hr HR2 Ha) as Hge.
  split; [intros ->; lia|]. split; [assumption|].
  intros Hothers. destruct (string_dec r R2) as [|Hne]; [assumption|].
  destruct (Hsome r Hr) as (Hs & Hc & _).
  assert (Har : ancestorOrSelf (normalizePath cwd r) target = true)
    by (subst target; now apply ancestorOrSelf_of_covers).
  pose proof (Hothers r Hs Har Hne). lia.
Qed.

End DeepestAncestor.

Lemma findCachedRoot_deepest_valid_ancestor_witness :
  let d := {| sizeMap := []; timestamp := 0 |} in
  let cache : Cache := [("/", d); ("/a", d); ("/x", d); ("/a/b", d)] in
  NodePath.isAbsolute "/srv" = true
  /\ seenValid (fun _ => 1000%Z) cache "/"
  /\ seenValid (fun _ => 1000%Z) cache "/a/b"
  /\ Path.liesBeneath (normalizePath "/srv" "/") (normalizePath "/srv" "/a/b")
     = true
  /\ ancestorOrSelf (normalizePath "/srv" "/a/b") (normalizePath "/srv" "/a/b/c")
     = true
  /\ (normalizePath "/srv" "/a/b" <> "/"
      \/ normalizePath "/srv" "/a/b/c" = "/")
  /\ findCachedRoot "/srv" (fun _ => 1000%Z) cache "/a/b/c" = Some "/a/b".
Proof.
intros d cache.
assert (H0 : NodePath.isAbsolute "/srv" = true) by reflexivity.
assert (Hcase : forall r, seenValid (fun _ => 1000%Z) cache r ->
                          r = "/" \/ r = "/a" \/ r = "/x" \/ r = "/a/b").
{ intros r (i & d' & Hi & _).
  destruct i as [|[|[|[|i]]]]; simpl in Hi.
  - injection Hi as <- _. now left.
  - injection Hi as <- _. right; now left.
  - injection Hi as <- _. right; right; now left.
  - injection Hi as <- _. right; right; now right.
  - destruct i; discriminate. }
assert (H1 : seenValid (fun _ => 1000%Z) cache "/")
  by (exists 0, d; split; reflexivity).
assert (H2 : seenValid (fun _ => 1000%Z) cache "/a/b")
  by (exists 3, d; split; reflexivity).
assert (H3 : Path.liesBeneath (normalizePath "/srv" "/")
                              (normalizePath "/srv" "/a/b") = true)
  by (vm_compute; reflexivity).
assert (H4 : ancestorOrSelf (normalizePath "/srv" "/a/b")
                            (normalizePath "/srv" "/a/b/c") = true)
  by (vm_compute; reflexivity).
assert (H5 : normalizePath "/srv" "/a/b" <> "/"
             \/ normalizePath "/srv" "/a/b/c" = "/")
  by (left; vm_compute; discriminate).
destruct (findCachedRoot_deepest_valid_ancestor "/srv" H0 (fun _ => 1000%Z)
            cache "/a/b/c") as (_ & _ & Hfound & Hpair).
destruct (Hfound "/a/b" H2 H4 H5) as (r0 & _).
destruct (Hpair "/" "/a/b" H1 H2 H3 H4) as (r & Hr & _ & _ & Hsame).
split; [exact H0|]. split; [exact H1|]. split; [exact H2|].
split; [exact H3|]. split; [exact H4|]. split; [exact H5|].
rewrite Hr. f_equal. apply Hsame.
intros r' Hr' Ha Hne.
destruct (Hcase r' Hr') as [-> | [-> | [-> | ->]]].
- vm_compute. lia.
- vm_compute. lia.
- vm_compute in Ha. discriminate Ha.
- contradiction.
Defined.

(** Where the lookup departs from ancestry: a valid record rooted at [/]
    is above [/home], as the comment in the loop has it (the target is a
    child of the cached root), yet it is not found for it; it is found
    for [/] alone. *)
Example findCachedRoot_misses_root_record :
  forall (cwd : string) (d : CacheData),
    validAt 1000 d = true ->
    Path.liesBeneath (normalizePath cwd "/") (normalizePath cwd "/home") = true
    /\ seenValid (fun _ => 1000%Z) [("/", d)] "/"
    /\ findCachedRoot cwd (fun _ => 1000%Z) [("/", d)] "/home" = None
    /\ findCachedRoot cwd (fun _ => 1000%Z) [("/", d)] "/" = Some "/".
Proof.
intros cwd d Hv. split; [reflexivity|]. split; [now exists 0, d|].
unfold validAt in Hv. apply Z.ltb_lt in Hv.
unfold findCachedRoot. cbn [findCachedRoot_loop].
destruct (Z.geb_spec (1000 - timestamp d) CACHE_EXPIRY) as [Hge|_]; [lia|].
split; reflexivity.
Qed.
